(** * Lightmap cache of [dw::Mesh]: geometry hash, cache codec, atlas
    consolidation and the load orchestration of [src/mesh.cpp].

  The development is a shallow embedding: every C++ member function that
  the properties below talk about is a Rocq function of the same name, the
  mesh object is a record that is passed in and returned, the binary file
  streams are explicit values (remaining bytes / written bytes plus the
  sticky failure flag of the iostream), and the atlas packer (xatlas) and
  the free store are external collaborators whose answers are
  parameters. *)

From Stdlib Require Import ZArith List Lia Bool Permutation.
From Stdlib.Strings Require Import Byte.
From Stdlib.Strings Require Ascii String.
From Stdlib.Floats Require Import SpecFloat.
Import ListNotations.
Open Scope Z_scope.

(* ------------------------------------------------------------------ *)
(** ** Machine integers *)

Module Int.

(** [static_cast<uint32_t>] and arithmetic on [uint32_t]. *)
Definition to_u32 (z : Z) : Z := z mod 2 ^ 32.

(** arithmetic on [uint64_t] / [size_t]. *)
Definition to_u64 (z : Z) : Z := z mod 2 ^ 64.

(** [static_cast<int32_t>] of an integer (two's complement). *)
Definition to_i32 (z : Z) : Z :=
  let u := z mod 2 ^ 32 in if u <? 2 ^ 31 then u else u - 2 ^ 32.

(** conversion of a [size_t] to [std::streamsize] (signed 64 bit). *)
Definition to_i64 (z : Z) : Z :=
  let u := z mod 2 ^ 64 in if u <? 2 ^ 63 then u else u - 2 ^ 64.

Definition is_u32 (z : Z) : Prop := 0 <= z < 2 ^ 32.
Definition is_u64 (z : Z) : Prop := 0 <= z < 2 ^ 64.

(** The byte count the codec hands to [read]/[write] for an array:
    [static_cast<int32_t>(count) * sizeof(T)], an [int32_t] times a
    [size_t], converted to [std::streamsize]. *)
Definition array_bytes (count elem_size : Z) : Z :=
  to_i64 (to_u64 (to_u64 (to_i32 count) * elem_size)).

End Int.
Import Int.

(* ------------------------------------------------------------------ *)
(** ** Bytes and raw little-endian memory *)

Module Raw.

Definition byte_to_Z (b : byte) : Z := Z.of_N (Byte.to_N b).

Definition byte_of_Z (z : Z) : byte :=
  match Byte.of_N (Z.to_N (z mod 256)) with
  | Some b => b
  | None => x00
  end.

(** The [n] bytes of an unsigned integer as they lie in memory. *)
Fixpoint le_bytes (n : nat) (z : Z) : list byte :=
  match n with
  | O => []
  | S k => byte_of_Z z :: le_bytes k (z / 256)
  end.

(** The unsigned integer whose memory is [bs]. *)
Fixpoint le_value (bs : list byte) : Z :=
  match bs with
  | [] => 0
  | b :: r => byte_to_Z b + 256 * le_value r
  end.

Definition zeros (n : Z) : list byte := repeat x00 (Z.to_nat n).

(** What a buffer holds after [got] was stored at its start. *)
Definition overlay (got old : list byte) : list byte :=
  got ++ skipn (length got) old.

End Raw.
Import Raw.

(* ------------------------------------------------------------------ *)
(** ** Data model *)

Module Data.

(** A [float] is kept as its 32 bit pattern: the hash and the codec only
    ever look at the bytes of a float, and the consolidator computes with
    floats through the two operations it is given. *)
Definition float : Type := Z.

(** [glm::vec3], three floats, 12 bytes. *)
Record vec3 : Type := mk_vec3 { x3 : float; y3 : float; z3 : float }.

(** [glm::vec4], four floats, 16 bytes. *)
Record vec4 : Type := mk_vec4 { vx : float; vy : float; vz : float; vw : float }.

(** Modelled from the spec: the declaration of [Vertex] (mesh.h) is not
    part of the sources; the record follows section 3 of the specification
    (every attribute a 4-component vector) and the attribute table of
    [Mesh::create_gpu_objects], which lists the six members in this
    order. *)
Record Vertex : Type := mk_Vertex {
  position : vec4;
  tex_coord : vec4;
  lightmap_tex_coord : vec4;
  normal : vec4;
  tangent : vec4;
  bitangent : vec4
}.

(** Modelled from the spec: the declaration of [SubMesh] (mesh.h) is not
    part of the sources; the members are the ones the specification lists
    and [mesh.cpp] reads and writes. *)
Record SubMesh : Type := mk_SubMesh {
  name : String.string;
  mat_idx : Z;
  index_count : Z;
  base_vertex : Z;
  base_index : Z;
  vertex_count : Z;
  max_extents : vec3;
  min_extents : vec3
}.

(** The members of [dw::Mesh] that the lightmap code reads or writes. *)
Record Mesh : Type := mk_Mesh {
  m_vertices : list Vertex;
  m_indices : list Z;
  m_sub_meshes : list SubMesh;
  m_lightmap_width : Z;
  m_lightmap_height : Z;
  m_has_lightmap_uvs : bool
}.

Definition sizeof_vec3 : Z := 12.
Definition sizeof_Vertex : Z := 96.
Definition sizeof_uint32_t : Z := 4.
Definition sizeof_uint64_t : Z := 8.

(** [v.size()] of a [std::vector] / [std::string]. *)
Definition size {A : Type} (l : list A) : Z := Z.of_nat (length l).

(** *** Objects as raw memory ([reinterpret_cast<const char*>]) *)

Definition bytes_of_u32 (z : Z) : list byte := le_bytes 4 z.
Definition bytes_of_u64 (z : Z) : list byte := le_bytes 8 z.

Definition bytes_of_vec3 (v : vec3) : list byte :=
  bytes_of_u32 (x3 v) ++ bytes_of_u32 (y3 v) ++ bytes_of_u32 (z3 v).

Definition bytes_of_vec4 (v : vec4) : list byte :=
  bytes_of_u32 (vx v) ++ bytes_of_u32 (vy v) ++ bytes_of_u32 (vz v)
    ++ bytes_of_u32 (vw v).

Definition bytes_of_Vertex (v : Vertex) : list byte :=
  bytes_of_vec4 (position v) ++ bytes_of_vec4 (tex_coord v)
    ++ bytes_of_vec4 (lightmap_tex_coord v) ++ bytes_of_vec4 (normal v)
    ++ bytes_of_vec4 (tangent v) ++ bytes_of_vec4 (bitangent v).

(** [m_vertices.data()] / [m_indices.data()] seen as bytes. *)
Definition bytes_of_vertices (vs : list Vertex) : list byte :=
  flat_map bytes_of_Vertex vs.

Definition bytes_of_indices (l : list Z) : list byte :=
  flat_map bytes_of_u32 l.

Definition bytes_of_name (s : String.string) : list byte :=
  String.list_byte_of_string s.

(** *** Raw memory as objects *)

Definition get_u32 (bs : list byte) : Z * list byte :=
  (le_value (firstn 4 bs), skipn 4 bs).

Definition get_vec3 (bs : list byte) : vec3 * list byte :=
  let '(a, bs) := get_u32 bs in
  let '(b, bs) := get_u32 bs in
  let '(c, bs) := get_u32 bs in
  (mk_vec3 a b c, bs).

Definition get_vec4 (bs : list byte) : vec4 * list byte :=
  let '(a, bs) := get_u32 bs in
  let '(b, bs) := get_u32 bs in
  let '(c, bs) := get_u32 bs in
  let '(d, bs) := get_u32 bs in
  (mk_vec4 a b c d, bs).

Definition get_Vertex (bs : list byte) : Vertex * list byte :=
  let '(p, bs) := get_vec4 bs in
  let '(t, bs) := get_vec4 bs in
  let '(l, bs) := get_vec4 bs in
  let '(n, bs) := get_vec4 bs in
  let '(tg, bs) := get_vec4 bs in
  let '(bt, bs) := get_vec4 bs in
  (mk_Vertex p t l n tg bt, bs).

(** a buffer of [n] vertices / indices read back element by element. *)
Fixpoint vertices_of_bytes (n : nat) (bs : list byte) : list Vertex :=
  match n with
  | O => []
  | S k => let '(v, r) := get_Vertex bs in v :: vertices_of_bytes k r
  end.

Fixpoint indices_of_bytes (n : nat) (bs : list byte) : list Z :=
  match n with
  | O => []
  | S k => let '(i, r) := get_u32 bs in i :: indices_of_bytes k r
  end.

(** *** Values that fit their C++ types *)

Definition wf_vec3 (v : vec3) : Prop :=
  is_u32 (x3 v) /\ is_u32 (y3 v) /\ is_u32 (z3 v).

Definition wf_vec4 (v : vec4) : Prop :=
  is_u32 (vx v) /\ is_u32 (vy v) /\ is_u32 (vz v) /\ is_u32 (vw v).

Definition wf_Vertex (v : Vertex) : Prop :=
  wf_vec4 (position v) /\ wf_vec4 (tex_coord v)
  /\ wf_vec4 (lightmap_tex_coord v) /\ wf_vec4 (normal v)
  /\ wf_vec4 (tangent v) /\ wf_vec4 (bitangent v).

Definition wf_SubMesh (s : SubMesh) : Prop :=
  is_u32 (mat_idx s) /\ is_u32 (index_count s) /\ is_u32 (base_vertex s)
  /\ is_u32 (base_index s) /\ is_u32 (vertex_count s)
  /\ wf_vec3 (max_extents s) /\ wf_vec3 (min_extents s).

Definition wf_Mesh (m : Mesh) : Prop :=
  Forall wf_Vertex (m_vertices m) /\ Forall is_u32 (m_indices m)
  /\ Forall wf_SubMesh (m_sub_meshes m)
  /\ is_u32 (m_lightmap_width m) /\ is_u32 (m_lightmap_height m).

End Data.
Import Data.

(* ------------------------------------------------------------------ *)
(** ** Geometry hasher: [Mesh::compute_mesh_hash] *)

Module Hasher.

Definition FNV_PRIME : Z := 1099511628211.
Definition FNV_OFFSET : Z := 14695981039346656037.

(** [hash ^= d; hash *= FNV_PRIME;] on [uint64_t]. *)
Definition fnv_step (hash d : Z) : Z :=
  to_u64 (Z.lxor hash d * FNV_PRIME).

(** the inner [for] loops over the bytes [data[0 .. n-1]] of an object. *)
Definition hash_data (hash : Z) (data : list byte) : Z :=
  fold_left (fun h b => fnv_step h (byte_to_Z b)) data hash.

Definition hash_vertices (hash : Z) (vs : list Vertex) : Z :=
  fold_left (fun h v => hash_data h (bytes_of_vec4 (position v))) vs hash.

Definition hash_indices (hash : Z) (l : list Z) : Z :=
  fold_left (fun h idx => hash_data h (bytes_of_u32 idx)) l hash.

Definition hash_sub_meshes (hash : Z) (sms : list SubMesh) : Z :=
  fold_left
    (fun h sm => fnv_step (fnv_step h (index_count sm)) (base_index sm))
    sms hash.

Definition compute_mesh_hash (m : Mesh) : Z :=
  let hash := FNV_OFFSET in
  let hash := hash_vertices hash (m_vertices m) in
  let hash := hash_indices hash (m_indices m) in
  let hash := hash_sub_meshes hash (m_sub_meshes m) in
  hash.

(** *** The hash as the specification words it

    FNV-1a with the two published constants, folded over one sequence of
    units: the bytes of every position, then the bytes of every index, then
    [index_count] and [base_index] of every submesh. *)

Definition fnv1a_step (h unit : Z) : Z :=
  (Z.lxor h unit * 1099511628211) mod 2 ^ 64.

Definition fnv1a (units : list Z) : Z :=
  fold_left fnv1a_step units 14695981039346656037.

Definition position_units (vs : list Vertex) : list Z :=
  flat_map (fun v => map byte_to_Z (bytes_of_vec4 (position v))) vs.

Definition index_units (l : list Z) : list Z :=
  flat_map (fun idx => map byte_to_Z (bytes_of_u32 idx)) l.

Definition submesh_units (sms : list SubMesh) : list Z :=
  flat_map (fun sm => [index_count sm; base_index sm]) sms.

Definition spec_hash (vs : list Vertex) (l : list Z) (sms : list SubMesh) : Z :=
  fnv1a (position_units vs ++ index_units l ++ submesh_units sms).

(** What the hash may depend on: the positions, the indices, and the
    [index_count] and [base_index] of the submeshes. *)
Definition same_hash_input (m1 m2 : Mesh) : Prop :=
  map position (m_vertices m1) = map position (m_vertices m2)
  /\ m_indices m1 = m_indices m2
  /\ map (fun sm => (index_count sm, base_index sm)) (m_sub_meshes m1)
     = map (fun sm => (index_count sm, base_index sm)) (m_sub_meshes m2).

End Hasher.
Import Hasher.

(* ------------------------------------------------------------------ *)
(** ** Binary file streams *)

Module Stream.

(** A [std::ifstream] opened in binary mode: the bytes not yet extracted
    and the failure state of the stream ([file.fail()]).  The state is
    sticky: nothing in [mesh.cpp] clears it. *)
Record ifstream : Type := mk_ifstream {
  in_rest : list byte;
  in_fail : bool
}.

(** Computations that read from the stream. *)
Definition IS (A : Type) : Type := ifstream -> A * ifstream.

Definition ret {A : Type} (a : A) : IS A := fun f => (a, f).

Definition bind {A B : Type} (c : IS A) (k : A -> IS B) : IS B :=
  fun f => let '(a, f') := c f in k a f'.

(** [file.read(buf, n)] where the destination currently holds [old]; the
    result is what the destination holds afterwards.
    - a stream that has failed extracts nothing and stays failed;
    - a count that cannot be met (negative, or more than what is left)
      sets the failure state; the bytes that were available are still
      stored in the destination;
    - otherwise exactly [n] bytes are extracted. *)
Definition ifs_read (n : Z) (old : list byte) : IS (list byte) :=
  fun f =>
    if in_fail f then (old, f)
    else if n <? 0 then (old, mk_ifstream (in_rest f) true)
    else if n <=? Z.of_nat (length (in_rest f)) then
      (overlay (firstn (Z.to_nat n) (in_rest f)) old,
       mk_ifstream (skipn (Z.to_nat n) (in_rest f)) false)
    else (overlay (in_rest f) old, mk_ifstream [] true).

(** [file.read(reinterpret_cast<char*>(&x), sizeof(x))] for the scalar and
    vector types of the cache; [old] is the value [x] held before. *)
Definition read_u32 (old : Z) : IS Z :=
  bind (ifs_read sizeof_uint32_t (bytes_of_u32 old)) (fun buf => ret (le_value buf)).

Definition read_u64 (old : Z) : IS Z :=
  bind (ifs_read sizeof_uint64_t (bytes_of_u64 old)) (fun buf => ret (le_value buf)).

Definition read_vec3 (old : vec3) : IS vec3 :=
  bind (ifs_read sizeof_vec3 (bytes_of_vec3 old)) (fun buf => ret (fst (get_vec3 buf))).

(** Two properties of readers: a stream that has failed stays failed; and
    a reader that gets through on [r ++ suf] either fails on [r] alone or
    does on [r] exactly what it did on [r ++ suf], leaving [suf] unread. *)
Definition sticky {A} (c : IS A) : Prop :=
  forall f, in_fail f = true -> in_fail (snd (c f)) = true.

Definition prefix_safe {A} (c : IS A) : Prop :=
  forall r suf a r_full,
    c (mk_ifstream (r ++ suf) false) = (a, mk_ifstream r_full false) ->
    in_fail (snd (c (mk_ifstream r false))) = true
    \/ exists r', c (mk_ifstream r false) = (a, mk_ifstream r' false)
                  /\ r_full = r' ++ suf.

(** A [std::ofstream] opened in binary mode: the bytes written so far and
    the failure state. *)
Record ofstream : Type := mk_ofstream {
  out_bytes : list byte;
  out_fail : bool
}.

(** [file.write(src, n)]: a failed stream writes nothing, a negative count
    cannot be met and sets the failure state, otherwise the first [n] bytes
    of the source are appended. *)
Definition ofs_write (n : Z) (src : list byte) (f : ofstream) : ofstream :=
  if out_fail f then f
  else if n <? 0 then mk_ofstream (out_bytes f) true
  else mk_ofstream (out_bytes f ++ firstn (Z.to_nat n) src) false.

Definition write_u32 (z : Z) : ofstream -> ofstream :=
  ofs_write sizeof_uint32_t (bytes_of_u32 z).

Definition write_u64 (z : Z) : ofstream -> ofstream :=
  ofs_write sizeof_uint64_t (bytes_of_u64 z).

Definition write_vec3 (v : vec3) : ofstream -> ofstream :=
  ofs_write sizeof_vec3 (bytes_of_vec3 v).

(** The one file the lightmap code touches, at [cache_path]: its content
    when it exists and can be opened for reading, and whether it can be
    created for writing. *)
Record CacheFile : Type := mk_CacheFile {
  content : option (list byte);
  creatable : bool
}.

End Stream.
Import Stream.

Notation "x <- c ;; k" := (bind c (fun x => k))
  (at level 61, c at next level, right associativity).

(* ------------------------------------------------------------------ *)
(** ** Cache codec: [Mesh::save_lightmap_cache], [Mesh::load_lightmap_cache] *)

Module Codec.

Definition LIGHTMAP_CACHE_MAGIC : Z := 0x4C4D4150.
Definition LIGHTMAP_CACHE_VERSION : Z := 1.

(** The local variables of the header. *)
Record Header : Type := mk_Header {
  h_magic : Z;
  h_version : Z;
  h_stored_hash : Z;
  h_vertex_count : Z;
  h_index_count : Z;
  h_submesh_count : Z;
  h_lightmap_width : Z;
  h_lightmap_height : Z
}.

(** What the data part asks of the free store. *)
Inductive Request : Type :=
| Vertices (n : Z)     (* [std::vector<Vertex>(n)] *)
| Indices (n : Z)      (* [std::vector<uint32_t>(n)] *)
| SubMeshes (n : Z)    (* [std::vector<SubMesh>(n)] *)
| Name (n : Z).        (* [std::string(n, 0)] and its copy into the submesh *)

(** The fewest bytes of a cache file that fill what is asked for: 96 for a
    vertex, 4 for an index, 48 for a submesh (its record without the
    name), 1 for a character of a name. *)
Definition file_bytes (r : Request) : Z :=
  match r with
  | Vertices n => n * sizeof_Vertex
  | Indices n => n * sizeof_uint32_t
  | SubMeshes n => n * 48
  | Name n => n
  end.

(** How a statement ends. *)
Inductive Completion (A : Type) : Type :=
| Normal (a : A)
| BadAlloc             (* [std::bad_alloc] is thrown *)
| Indeterminate.       (* a variable that holds no value is used: no
                          defined behaviour *)

Arguments Normal {A} a.
Arguments BadAlloc {A}.
Arguments Indeterminate {A}.

(** Computations on the stream that may end early. *)
Definition ISX (A : Type) : Type := IS (Completion A).

Definition lift {A : Type} (c : IS A) : ISX A :=
  fun f => let '(a, f') := c f in (Normal a, f').

Definition bindx {A B : Type} (c : ISX A) (k : A -> ISX B) : ISX B :=
  fun f =>
    match c f with
    | (Normal a, f') => k a f'
    | (BadAlloc, f') => (BadAlloc, f')
    | (Indeterminate, f') => (Indeterminate, f')
    end.

Notation "x <<- c ;; k" := (bindx c (fun x => k))
  (at level 61, c at next level, right associativity).

(** How [load_lightmap_cache] ends.  From [NotOpen] to [ReadErrorData] it
    returns [false], told apart by the warning that is logged; the last two
    are no return. *)
Inductive LoadStatus : Type :=
| CacheLoaded        (* "Loaded lightmap cache", returns true *)
| NotOpen            (* the file could not be opened *)
| ReadErrorHeader    (* "Lightmap cache read error: header" *)
| InvalidMagic       (* "Lightmap cache invalid magic" *)
| VersionMismatch    (* "Lightmap cache version mismatch" *)
| HashMismatch       (* "Lightmap cache hash mismatch - mesh geometry changed" *)
| ReadErrorData      (* "Lightmap cache read error: data" *)
| ThrewBadAlloc      (* [std::bad_alloc] leaves the function *)
| UndefinedBehaviour. (* [name_len] is used without a value *)

Definition load_ok (s : LoadStatus) : bool :=
  match s with CacheLoaded => true | _ => false end.

(** The function returned [false]. *)
Definition load_missed (s : LoadStatus) : bool :=
  match s with
  | NotOpen | ReadErrorHeader | InvalidMagic | VersionMismatch
  | HashMismatch | ReadErrorData => true
  | CacheLoaded | ThrewBadAlloc | UndefinedBehaviour => false
  end.

Section Load.

(** The header variables are declared without an initialiser.  What such
    a variable holds is only there after a read that stored fewer bytes
    than asked, and the function returns before it looks at one;
    [uninit k] stands for the content of the [k]-th of them. *)
Variable uninit : nat -> Z.

(** The free store is taken to hold what the file holds: a request that
    the rest of the file can fill is granted.  Whether any other request
    is granted is for [store] to say. *)
Variable store : Request -> bool.

(** [new] behind a vector or a string. *)
Definition allocate (r : Request) : ISX unit :=
  fun f =>
    if (file_bytes r <=? Z.of_nat (length (in_rest f))) || store r
    then (Normal tt, f)
    else (BadAlloc, f).

Definition read_header : IS Header :=
  magic <- read_u32 (uninit 0) ;;
  version <- read_u32 (uninit 1) ;;
  stored_hash <- read_u64 (uninit 2) ;;
  vertex_count <- read_u32 (uninit 3) ;;
  index_count <- read_u32 (uninit 4) ;;
  submesh_count <- read_u32 (uninit 5) ;;
  lightmap_width <- read_u32 (uninit 6) ;;
  lightmap_height <- read_u32 (uninit 7) ;;
  ret (mk_Header magic version stored_hash vertex_count index_count
         submesh_count lightmap_width lightmap_height).

(** [file.read(..vertices.data(), static_cast<int32_t>(vertex_count) *
    sizeof(Vertex))] into the value-initialised vector. *)
Definition read_vertex_array (vertex_count : Z) : IS (list Vertex) :=
  buf <- ifs_read (array_bytes vertex_count sizeof_Vertex)
                  (zeros (vertex_count * sizeof_Vertex)) ;;
  ret (vertices_of_bytes (Z.to_nat vertex_count) buf).

(** [std::vector<Vertex> vertices(vertex_count)] and the [read] that fills
    it. *)
Definition read_vertices (vertex_count : Z) : ISX (list Vertex) :=
  granted <<- allocate (Vertices vertex_count) ;;
  lift (read_vertex_array vertex_count).

(** [file.read(..indices.data(), static_cast<int32_t>(index_count) *
    sizeof(uint32_t))] into the value-initialised vector. *)
Definition read_index_array (index_count : Z) : IS (list Z) :=
  buf <- ifs_read (array_bytes index_count sizeof_uint32_t)
                  (zeros (index_count * sizeof_uint32_t)) ;;
  ret (indices_of_bytes (Z.to_nat index_count) buf).

(** [std::vector<uint32_t> indices(index_count)] and the [read] that fills
    it. *)
Definition read_indices (index_count : Z) : ISX (list Z) :=
  granted <<- allocate (Indices index_count) ;;
  lift (read_index_array index_count).

(** [uint32_t name_len; file.read(..&name_len, sizeof(name_len));] and the
    use of [name_len] that follows: when the stream has failed, or fails
    here, the read has not given [name_len] a value. *)
Definition read_name_len : ISX Z :=
  fun f =>
    let '(name_len, f') := read_u32 0 f in
    if in_fail f' then (Indeterminate, f') else (Normal name_len, f').

(** The reads of one iteration after the name has been made; the element
    [submeshes[i]] was value-initialised by the vector. *)
Definition read_submesh_fields (name_len : Z) : IS SubMesh :=
  name <- ifs_read name_len (zeros name_len) ;;
  mat_idx <- read_u32 0 ;;
  index_count <- read_u32 0 ;;
  base_vertex <- read_u32 0 ;;
  base_index <- read_u32 0 ;;
  vertex_count <- read_u32 0 ;;
  max_extents <- read_vec3 (mk_vec3 0 0 0) ;;
  min_extents <- read_vec3 (mk_vec3 0 0 0) ;;
  ret (mk_SubMesh (String.string_of_list_byte name) mat_idx index_count
         base_vertex base_index vertex_count max_extents min_extents).

(** One iteration of the submesh loop. *)
Definition read_submesh : ISX SubMesh :=
  name_len <<- read_name_len ;;
  granted <<- allocate (Name name_len) ;;
  lift (read_submesh_fields name_len).

(** [for (uint32_t i = 0; i < submesh_count; i++)], with [n] iterations
    left. *)
Fixpoint read_submeshes (n : nat) : ISX (list SubMesh) :=
  match n with
  | O => lift (ret [])
  | S k =>
      sm <<- read_submesh ;;
      rest <<- read_submeshes k ;;
      lift (ret (sm :: rest))
  end.

(** Everything after the header checks, up to the second [file.fail()]. *)
Definition read_data (hdr : Header)
  : ISX (list Vertex * list Z * list SubMesh) :=
  vertices <<- read_vertices (h_vertex_count hdr) ;;
  indices <<- read_indices (h_index_count hdr) ;;
  granted <<- allocate (SubMeshes (h_submesh_count hdr)) ;;
  submeshes <<- read_submeshes (Z.to_nat (h_submesh_count hdr)) ;;
  lift (ret (vertices, indices, submeshes)).

(** The result is the mesh afterwards and how the call ended.  After
    [UndefinedBehaviour] nothing is known of the mesh: the mesh given there
    is the one the call started with. *)
Definition load_lightmap_cache (file : CacheFile) (expected_hash : Z) (m : Mesh)
  : Mesh * LoadStatus :=
  match content file with
  | None => (m, NotOpen)
  | Some bytes =>
      let '(hdr, f1) := read_header (mk_ifstream bytes false) in
      if in_fail f1 then (m, ReadErrorHeader)
      else if negb (h_magic hdr =? LIGHTMAP_CACHE_MAGIC) then (m, InvalidMagic)
      else if negb (h_version hdr =? LIGHTMAP_CACHE_VERSION) then (m, VersionMismatch)
      else if negb (h_stored_hash hdr =? expected_hash) then (m, HashMismatch)
      else
        match read_data hdr f1 with
        | (BadAlloc, _) => (m, ThrewBadAlloc)
        | (Indeterminate, _) => (m, UndefinedBehaviour)
        | (Normal (vertices, indices, submeshes), f2) =>
            if in_fail f2 then (m, ReadErrorData)
            else
              (mk_Mesh vertices indices submeshes
                 (h_lightmap_width hdr) (h_lightmap_height hdr) true,
               CacheLoaded)
        end
  end.

End Load.

Definition write_submesh (sm : SubMesh) (f : ofstream) : ofstream :=
  let name_len := to_u32 (size (bytes_of_name (name sm))) in
  let f := write_u32 name_len f in
  let f := ofs_write name_len (bytes_of_name (name sm)) f in
  let f := write_u32 (mat_idx sm) f in
  let f := write_u32 (index_count sm) f in
  let f := write_u32 (base_vertex sm) f in
  let f := write_u32 (base_index sm) f in
  let f := write_u32 (vertex_count sm) f in
  let f := write_vec3 (max_extents sm) f in
  let f := write_vec3 (min_extents sm) f in
  f.

(** What [save_lightmap_cache] sends to a stream that was opened. *)
Definition write_cache (m : Mesh) (mesh_hash : Z) (f : ofstream) : ofstream :=
  let magic := LIGHTMAP_CACHE_MAGIC in
  let version := LIGHTMAP_CACHE_VERSION in
  let vertex_count := to_u32 (size (m_vertices m)) in
  let index_count := to_u32 (size (m_indices m)) in
  let submesh_count := to_u32 (size (m_sub_meshes m)) in
  let f := write_u32 magic f in
  let f := write_u32 version f in
  let f := write_u64 mesh_hash f in
  let f := write_u32 vertex_count f in
  let f := write_u32 index_count f in
  let f := write_u32 submesh_count f in
  let f := write_u32 (m_lightmap_width m) f in
  let f := write_u32 (m_lightmap_height m) f in
  let f := ofs_write (array_bytes vertex_count sizeof_Vertex)
                     (bytes_of_vertices (m_vertices m)) f in
  let f := ofs_write (array_bytes index_count sizeof_uint32_t)
                     (bytes_of_indices (m_indices m)) f in
  let f := fold_left (fun f sm => write_submesh sm f) (m_sub_meshes m) f in
  f.

(** The method is [const]: it returns the file it leaves behind and its
    [bool]. *)
Definition save_lightmap_cache (file : CacheFile) (m : Mesh) (mesh_hash : Z)
  : CacheFile * bool :=
  if negb (creatable file) then (file, false)
  else
    let f := write_cache m mesh_hash (mk_ofstream [] false) in
    (mk_CacheFile (Some (out_bytes f)) (creatable file), negb (out_fail f)).

(** *** The binary layout of section 4.3 of the specification *)

Definition layout_header (m : Mesh) (mesh_hash : Z) : list byte :=
  bytes_of_u32 LIGHTMAP_CACHE_MAGIC ++ bytes_of_u32 LIGHTMAP_CACHE_VERSION
  ++ bytes_of_u64 mesh_hash
  ++ bytes_of_u32 (size (m_vertices m)) ++ bytes_of_u32 (size (m_indices m))
  ++ bytes_of_u32 (size (m_sub_meshes m))
  ++ bytes_of_u32 (m_lightmap_width m) ++ bytes_of_u32 (m_lightmap_height m).

Definition layout_submesh (sm : SubMesh) : list byte :=
  bytes_of_u32 (size (bytes_of_name (name sm))) ++ bytes_of_name (name sm)
  ++ bytes_of_u32 (mat_idx sm) ++ bytes_of_u32 (index_count sm)
  ++ bytes_of_u32 (base_vertex sm) ++ bytes_of_u32 (base_index sm)
  ++ bytes_of_u32 (vertex_count sm)
  ++ bytes_of_vec3 (max_extents sm) ++ bytes_of_vec3 (min_extents sm).

Definition layout_data (m : Mesh) : list byte :=
  bytes_of_vertices (m_vertices m) ++ bytes_of_indices (m_indices m)
  ++ flat_map layout_submesh (m_sub_meshes m).

Definition layout (m : Mesh) (mesh_hash : Z) : list byte :=
  layout_header m mesh_hash ++ layout_data m.

(** The fixed header is 36 bytes; the field of [len] bytes at offset [off]
    of a file. *)
Definition field (off len : nat) (bytes : list byte) : Z :=
  le_value (firstn len (skipn off bytes)).

Definition file_magic (bytes : list byte) : Z := field 0 4 bytes.
Definition file_version (bytes : list byte) : Z := field 4 4 bytes.
Definition file_hash (bytes : list byte) : Z := field 8 8 bytes.

(** The snapshots that fit the types of the cache: every member within its
    C++ type and every count and name length within the [uint32_t] the
    header and the submesh records store it in (the counts of a
    consolidated snapshot are the [uint32_t] counts of the packer). *)
Definition representable (m : Mesh) : Prop :=
  wf_Mesh m
  /\ size (m_vertices m) < 2 ^ 32
  /\ size (m_indices m) < 2 ^ 32
  /\ size (m_sub_meshes m) < 2 ^ 32
  /\ Forall (fun sm => size (bytes_of_name (name sm)) < 2 ^ 32) (m_sub_meshes m).

(** The snapshots whose counts fit the casts of the codec: the element
    counts of the two arrays go through [static_cast<int32_t>], the number
    of submeshes and the length of a name through [uint32_t]. *)
Definition cacheable (m : Mesh) : Prop :=
  wf_Mesh m
  /\ size (m_vertices m) < 2 ^ 31
  /\ size (m_indices m) < 2 ^ 31
  /\ size (m_sub_meshes m) < 2 ^ 32
  /\ Forall (fun sm => size (bytes_of_name (name sm)) < 2 ^ 32) (m_sub_meshes m).

(** The mesh after a cache hit on a record of the snapshot [s]. *)
Definition adopted (s : Mesh) : Mesh :=
  mk_Mesh (m_vertices s) (m_indices s) (m_sub_meshes s)
          (m_lightmap_width s) (m_lightmap_height s) true.

End Codec.
Import Codec.

(* ------------------------------------------------------------------ *)
(** ** Atlas consolidator: [Mesh::generate_lightmap_uvs] *)

Module Atlas.

(** *** The packer (xatlas) as far as [mesh.cpp] looks at it *)

Inductive AddMeshError : Type :=
| Success
| Error
| IndexOutOfRange
| InvalidFaceVertexCount
| InvalidIndexCount.

Definition AddMeshError_eqb (a b : AddMeshError) : bool :=
  match a, b with
  | Success, Success | Error, Error | IndexOutOfRange, IndexOutOfRange
  | InvalidFaceVertexCount, InvalidFaceVertexCount
  | InvalidIndexCount, InvalidIndexCount => true
  | _, _ => false
  end.

(** [xatlas::MeshDecl] as the consolidator fills it: the three attribute
    pointers all walk [m_vertices] with stride [sizeof(Vertex)]. *)
Record MeshDecl : Type := mk_MeshDecl {
  vertexCount : Z;
  vertexData : list Vertex;
  indexCount : Z;
  indexData : list Z
}.

(** [xatlas::Vertex]: the back-reference and the position in atlas
    pixels. *)
Record xatlas_Vertex : Type := mk_xatlas_Vertex {
  xref : Z;
  uv0 : float;
  uv1 : float
}.

(** [xatlas::Mesh]; [vertexCount] and [indexCount] are the lengths of the
    two arrays. *)
Record xatlas_Mesh : Type := mk_xatlas_Mesh {
  vertexArray : list xatlas_Vertex;
  indexArray : list Z
}.

(** [xatlas::Atlas]; [meshCount] is the length of [meshes]. *)
Record xatlas_Atlas : Type := mk_xatlas_Atlas {
  meshes : list xatlas_Mesh;
  width : Z;
  height : Z
}.

Definition meshCount (a : xatlas_Atlas) : Z := size (meshes a).

(** The packer: what [AddMesh] answers for a declaration and the atlas that
    [Generate] leaves. *)
Record Packer : Type := mk_Packer {
  xatlas_AddMesh : MeshDecl -> AddMeshError;
  xatlas_Generate : MeshDecl -> xatlas_Atlas
}.

(** The two float operations of the consolidator on bit patterns:
    [float(n)] of a [uint32_t] and the division of two floats. *)
Record FloatOps : Type := mk_FloatOps {
  float_of_u32 : Z -> float;
  fdiv : float -> float -> float
}.

(** [v.empty()] *)
Definition empty {A : Type} (l : list A) : bool :=
  match l with [] => true | _ :: _ => false end.

Definition set_lightmap_tex_coord (v : Vertex) (l : vec4) : Vertex :=
  mk_Vertex (position v) (tex_coord v) l (normal v) (tangent v) (bitangent v).

(** [0.0f] *)
Definition float_zero : float := 0.

(** The declaration handed to [xatlas::AddMesh]: the whole mesh as one
    packer unit. *)
Definition mesh_decl_of (m : Mesh) : MeshDecl :=
  mk_MeshDecl (to_u32 (size (m_vertices m))) (m_vertices m)
              (to_u32 (size (m_indices m))) (m_indices m).

(** [sum(submesh.index_count)] *)
Definition index_total (sub_meshes : list SubMesh) : Z :=
  fold_right (fun sm acc => index_count sm + acc) 0 sub_meshes.

Section Consolidate.

Variable F : FloatOps.
Variable P : Packer.

(** The body of the vertex loop for one [xvert]. *)
Definition new_vert_of (old : Vertex) (atlas : xatlas_Atlas)
    (xvert : xatlas_Vertex) : Vertex :=
  set_lightmap_tex_coord old
    (mk_vec4 (fdiv F (uv0 xvert) (float_of_u32 F (width atlas)))
             (fdiv F (uv1 xvert) (float_of_u32 F (height atlas)))
             float_zero float_zero).

(** [for (uint32_t v = 0; v < xmesh.vertexCount; v++)]: the vertices of the
    packer still to visit and [new_vertices] so far.  [m_vertices[xref]]
    with [xref] past the end has no defined behaviour: [None].
    ([old_to_new_vertices] is filled at the same index and never read.) *)
Fixpoint build_new_vertices (vertices : list Vertex) (atlas : xatlas_Atlas)
    (todo : list xatlas_Vertex) (new_vertices : list Vertex)
  : option (list Vertex) :=
  match todo with
  | [] => Some new_vertices
  | xvert :: rest =>
      match nth_error vertices (Z.to_nat (xref xvert)) with
      | None => None
      | Some old =>
          build_new_vertices vertices atlas rest
            (new_vertices ++ [new_vert_of old atlas xvert])
      end
  end.

(** [for (i < xmesh.indexCount) new_indices.push_back(xmesh.indexArray[i])] *)
Definition copy_indices (xmesh : xatlas_Mesh) : list Z :=
  fold_left (fun new_indices i => new_indices ++ [i]) (indexArray xmesh) [].

(** The submesh loop, from [current_index] on. *)
Fixpoint rebase_sub_meshes (sub_meshes : list SubMesh) (current_index : Z)
    (new_vertices_size : Z) : list SubMesh :=
  match sub_meshes with
  | [] => []
  | submesh :: rest =>
      let old_index_count := index_count submesh in
      mk_SubMesh (name submesh) (mat_idx submesh) (index_count submesh)
        0 current_index (to_u32 new_vertices_size)
        (max_extents submesh) (min_extents submesh)
      :: rebase_sub_meshes rest (to_u32 (current_index + old_index_count))
           new_vertices_size
  end.

(** The result is [None] where the C++ has no defined behaviour, otherwise
    the mesh afterwards and the returned [bool]. *)
Definition generate_lightmap_uvs (m : Mesh) : option (Mesh * bool) :=
  if empty (m_vertices m) || empty (m_indices m) then Some (m, false)
  else
    let mesh_decl := mesh_decl_of m in
    if negb (AddMeshError_eqb (xatlas_AddMesh P mesh_decl) Success)
    then Some (m, false)
    else
      let atlas := xatlas_Generate P mesh_decl in
      if (width atlas =? 0) || (height atlas =? 0) then Some (m, false)
      else
        let m1 :=
          mk_Mesh (m_vertices m) (m_indices m) (m_sub_meshes m)
                  (width atlas) (height atlas) (m_has_lightmap_uvs m) in
        if negb (meshCount atlas =? 1) then Some (m1, false)
        else
          match nth_error (meshes atlas) 0 with
          | None => None
          | Some xmesh =>
              match build_new_vertices (m_vertices m1) atlas
                      (vertexArray xmesh) [] with
              | None => None
              | Some new_vertices =>
                  let new_indices := copy_indices xmesh in
                  let sub_meshes :=
                    rebase_sub_meshes (m_sub_meshes m1) 0 (size new_vertices) in
                  Some (mk_Mesh new_vertices new_indices sub_meshes
                          (m_lightmap_width m1) (m_lightmap_height m1) true,
                        true)
              end
          end.

End Consolidate.

End Atlas.
Import Atlas.

(* ------------------------------------------------------------------ *)
(** ** IEEE 754 single precision on bit patterns

    One instance of [FloatOps], used by the worked examples: the bit
    pattern of a float is decoded to the standard library's specification
    floats with 24 bits of precision, the operation is carried out there
    (round to nearest even), and the result is encoded again. *)

Module Binary32.

Definition prec : Z := 24.
Definition emax : Z := 128.

Definition of_bits (x : Z) : spec_float :=
  let s := Z.testbit x 31 in
  let e := Z.land (Z.shiftr x 23) 255 in
  let m := Z.land x (2 ^ 23 - 1) in
  if e =? 0 then
    if m =? 0 then S754_zero s else S754_finite s (Z.to_pos m) (-149)
  else if e =? 255 then
    if m =? 0 then S754_infinity s else S754_nan
  else S754_finite s (Z.to_pos (m + 2 ^ 23)) (e - 150).

Definition to_bits (f : spec_float) : Z :=
  let sign (s : bool) := if s then 2 ^ 31 else 0 in
  match f with
  | S754_zero s => sign s
  | S754_infinity s => sign s + 255 * 2 ^ 23
  | S754_nan => 0x7FC00000
  | S754_finite s m e =>
      if Zpos m <? 2 ^ 23 then sign s + Zpos m
      else sign s + (e + 150) * 2 ^ 23 + (Zpos m - 2 ^ 23)
  end.

Definition div (a b : float) : float :=
  to_bits (SFdiv prec emax (of_bits a) (of_bits b)).

Definition of_u32 (n : Z) : float :=
  to_bits (binary_normalize prec emax n 0 false).

Definition ops : FloatOps := mk_FloatOps of_u32 div.

End Binary32.

(* ------------------------------------------------------------------ *)
(** ** Cache orchestration: the constructor [Mesh::Mesh(path, ...)] *)

Module Orchestrator.

(** How a load ends for the caller of [Mesh::load]. *)
Inductive LoadOutcome : Type :=
| MeshReady (m : Mesh) (file : CacheFile)   (* the constructor returned *)
| LoadFailed                                (* an exception left the
                                               constructor *)
| Undefined.                                (* no defined behaviour *)

Section Ctor.

Variable F : FloatOps.
Variable P : Packer.
Variable uninit : nat -> Z.
Variable store : Request -> bool.

(** The constructor after [load_from_disk] has filled the mesh [m], up to
    the call of [create_gpu_objects]; [file] is the file at
    [get_lightmap_cache_path(path)].  Nothing catches what
    [load_lightmap_cache] throws. *)
Definition Mesh_ctor (m : Mesh) (generate_lightmap_uv : bool)
    (file : CacheFile) : LoadOutcome :=
  if generate_lightmap_uv then
    let mesh_hash := compute_mesh_hash m in
    let '(m1, status) := load_lightmap_cache uninit store file mesh_hash m in
    match status with
    | CacheLoaded => MeshReady m1 file
    | ThrewBadAlloc => LoadFailed
    | UndefinedBehaviour => Undefined
    | NotOpen | ReadErrorHeader | InvalidMagic | VersionMismatch
    | HashMismatch | ReadErrorData =>
        match generate_lightmap_uvs F P m1 with
        | None => Undefined
        | Some (m2, true) =>
            let '(file', _) := save_lightmap_cache file m2 mesh_hash in
            MeshReady m2 file'
        | Some (m2, false) => MeshReady m2 file
        end
    end
  else MeshReady m file.

End Ctor.

End Orchestrator.
Import Orchestrator.

(* ------------------------------------------------------------------ *)
(** ** Worked examples (the scenarios of section 8 of the specification) *)

Module Examples.

Import String.StringSyntax.
Local Open Scope string_scope.

(** Bit patterns of the floats used below. *)
Definition f0 : float := 0.              (* 0.0f *)
Definition f1 : float := 0x3F800000.     (* 1.0f *)
Definition f4 : float := 0x40800000.     (* 4.0f *)
Definition f8 : float := 0x41000000.     (* 8.0f *)
Definition f12 : float := 0x41400000.    (* 12.0f *)
Definition f_quarter : float := 0x3E800000.         (* 0.25f *)
Definition f_half : float := 0x3F000000.            (* 0.5f *)
Definition f_three_quarters : float := 0x3F400000.  (* 0.75f *)

Definition up : vec4 := mk_vec4 f0 f0 f1 f0.
Definition down : vec4 := mk_vec4 f0 f0 0xBF800000 f0.
Definition none : vec4 := mk_vec4 f0 f0 f0 f0.

(** A vertex at [(x, y, 0)] with normal [n], primary UV [(x, y)] and no
    lightmap UV yet. *)
Definition vertex_at (x y : float) (n : vec4) : Vertex :=
  mk_Vertex (mk_vec4 x y f0 f0) (mk_vec4 x y f0 f0) none n none none.

(** Scenario A: 3 vertices, 3 indices, 1 submesh. *)
Definition triangle : Mesh :=
  mk_Mesh [vertex_at f0 f0 up; vertex_at f1 f0 up; vertex_at f0 f1 up]
          [0; 1; 2]
          [mk_SubMesh "tri" 0 3 0 0 3 (mk_vec3 f1 f1 f0) (mk_vec3 f0 f0 f0)]
          0 0 false.

(** The same triangle with the normals turned over and the submesh renamed:
    positions, indices and index ranges are those of [triangle]. *)
Definition triangle_flipped : Mesh :=
  mk_Mesh [vertex_at f0 f0 down; vertex_at f1 f0 down; vertex_at f0 f1 down]
          [0; 1; 2]
          [mk_SubMesh "flipped" 7 3 0 0 3 (mk_vec3 f1 f1 f0) (mk_vec3 f0 f0 f0)]
          0 0 false.

(** Nothing at the cache path yet, the directory writable. *)
Definition no_file : CacheFile := mk_CacheFile None true.

(** Content of the variables declared without an initialiser. *)
Definition stack (k : nat) : Z := 0.

(** A free store that grants what a file of up to 1 GiB would fill. *)
Definition roomy (r : Request) : bool := file_bytes r <=? 2 ^ 30.


(** Scenario E: the packer splits vertex 0 of the triangle along a seam, so
    its output has 4 vertices; the atlas is 16 by 16 pixels. *)
Definition seam_atlas : xatlas_Atlas :=
  mk_xatlas_Atlas
    [mk_xatlas_Mesh
       [mk_xatlas_Vertex 0 f4 f4; mk_xatlas_Vertex 1 f12 f4;
        mk_xatlas_Vertex 2 f4 f12; mk_xatlas_Vertex 0 f8 f8]
       [3; 1; 2]]
    16 16.

Definition seam_packer : Packer :=
  mk_Packer (fun _ => Success) (fun _ => seam_atlas).

(** Scenario D: the packer reports an atlas of width 0. *)
Definition failing_packer : Packer :=
  mk_Packer (fun _ => Success) (fun _ => mk_xatlas_Atlas [] 0 0).

(** A packer that breaks its contract: two output meshes for one input. *)
Definition two_mesh_packer : Packer :=
  mk_Packer (fun _ => Success)
    (fun _ => mk_xatlas_Atlas
                [mk_xatlas_Mesh [] []; mk_xatlas_Mesh [] []] 16 16).

(** A packer that breaks its contract the other way: six indices for the
    three it was given. *)
Definition six_index_packer : Packer :=
  mk_Packer (fun _ => Success)
    (fun _ => mk_xatlas_Atlas
                [mk_xatlas_Mesh
                   [mk_xatlas_Vertex 0 f4 f4; mk_xatlas_Vertex 1 f12 f4;
                    mk_xatlas_Vertex 2 f4 f12]
                   [0; 1; 2; 0; 1; 2]]
                16 16).

(** The triangle after consolidation with [seam_packer]. *)
Definition triangle_atlas : Mesh :=
  match generate_lightmap_uvs Binary32.ops seam_packer triangle with
  | Some (m, _) => m
  | None => triangle
  end.

End Examples.

(* ------------------------------------------------------------------ *)
(** ** The units the hash is folded over *)

Module HashInput.

(** Everything [compute_mesh_hash] feeds to FNV-1a, in order. *)
Definition hash_units (m : Mesh) : list Z :=
  position_units (m_vertices m) ++ index_units (m_indices m)
    ++ submesh_units (m_sub_meshes m).

(** The inverse of [FNV_PRIME] modulo 2^64. *)
Definition FNV_PRIME_INV : Z := 14886173955864302971.

(** [m] with [m_sub_meshes] replaced. *)
Definition with_sub_meshes (m : Mesh) (sub_meshes : list SubMesh) : Mesh :=
  mk_Mesh (m_vertices m) (m_indices m) sub_meshes
          (m_lightmap_width m) (m_lightmap_height m) (m_has_lightmap_uvs m).

End HashInput.
Import HashInput.

(* ------------------------------------------------------------------ *)
(** ** Sizes of the binary layout *)

Module LayoutSize.

(** Bytes of one submesh record: the length field, the name, five
    [uint32_t] members and two [glm::vec3]. *)
Definition submesh_record_size (sm : SubMesh) : Z :=
  4 + size (bytes_of_name (name sm)) + 5 * 4 + 12 + 12.

(** Bytes of a whole record. *)
Definition record_size (m : Mesh) : Z :=
  36 + sizeof_Vertex * size (m_vertices m)
  + sizeof_uint32_t * size (m_indices m)
  + fold_right (fun sm acc => submesh_record_size sm + acc) 0 (m_sub_meshes m).

End LayoutSize.
Import LayoutSize.

(* ------------------------------------------------------------------ *)
(** ** Reading a load outcome *)

Module Outcome.

(** The mesh a load ended with, when it ended. *)
Definition outcome_mesh (o : LoadOutcome) : option Mesh :=
  match o with
  | MeshReady m _ => Some m
  | LoadFailed | Undefined => None
  end.

(** A back-reference that names a pre-atlas vertex. *)
Definition xref_in_range (vertices : list Vertex) (xvert : xatlas_Vertex) : Prop :=
  0 <= xref xvert < size vertices.

(** What consolidation leaves of a submesh apart from its ranges. *)
Definition same_identity (sm sm' : SubMesh) : Prop :=
  name sm' = name sm /\ mat_idx sm' = mat_idx sm
  /\ max_extents sm' = max_extents sm /\ min_extents sm' = min_extents sm.

End Outcome.
Import Outcome.

Module PackerContract.

(** An atlas within the types of xatlas as far as the cache needs it:
    [uint32_t] width, height and indices, and fewer than 2^31 vertices and
    indices in every output mesh. *)
Definition atlas_fits (atlas : xatlas_Atlas) : Prop :=
  is_u32 (width atlas) /\ is_u32 (height atlas)
  /\ Forall (fun xmesh =>
               Forall is_u32 (indexArray xmesh)
               /\ size (vertexArray xmesh) < 2 ^ 31
               /\ size (indexArray xmesh) < 2 ^ 31)
            (meshes atlas).

(** Float operations that answer with a 32 bit pattern. *)
Definition float_ops_fit (F : FloatOps) : Prop :=
  forall a b, is_u32 (fdiv F a b).

End PackerContract.
Import PackerContract.

(* ------------------------------------------------------------------ *)
(** ** Materials of the submeshes: [Mesh::set_submesh_material],
       [Mesh::set_global_material], [assimp_does_material_exist] *)

Module Materials.

Section WithMaterial.

(** [std::shared_ptr<Material>] *)
Variable Material : Type.

(** [sm.mat_idx = idx] *)
Definition with_mat_idx (sm : SubMesh) (idx : Z) : SubMesh :=
  mk_SubMesh (name sm) idx (index_count sm) (base_vertex sm) (base_index sm)
             (vertex_count sm) (max_extents sm) (min_extents sm).

(** [set_submesh_material(std::string name, material)]: the submeshes from
    the loop index on; the result is the submeshes, the materials and the
    returned [bool]. *)
Fixpoint set_submesh_material_by_name (nm : String.string) (material : Material)
    (sub_meshes : list SubMesh) (materials : list Material)
  : list SubMesh * list Material * bool :=
  match sub_meshes with
  | [] => ([], materials, false)
  | sm :: rest =>
      if String.eqb nm (name sm) then
        (with_mat_idx sm (to_u32 (size materials)) :: rest,
         materials ++ [material], true)
      else
        let '(rest', materials', found) :=
          set_submesh_material_by_name nm material rest materials in
        (sm :: rest', materials', found)
  end.

(** [m_sub_meshes[mesh_idx].mat_idx = idx] for an index in range. *)
Fixpoint assign_mat_idx (sub_meshes : list SubMesh) (mesh_idx : nat) (idx : Z)
  : list SubMesh :=
  match sub_meshes, mesh_idx with
  | [], _ => []
  | sm :: rest, O => with_mat_idx sm idx :: rest
  | sm :: rest, S k => sm :: assign_mat_idx rest k idx
  end.

(** [set_submesh_material(uint32_t mesh_idx, material)] *)
Definition set_submesh_material_by_index (mesh_idx : Z) (material : Material)
    (sub_meshes : list SubMesh) (materials : list Material)
  : list SubMesh * list Material * bool :=
  if mesh_idx >=? size sub_meshes then (sub_meshes, materials, false)
  else
    (assign_mat_idx sub_meshes (Z.to_nat mesh_idx) (to_u32 (size materials)),
     materials ++ [material], true).

(** [set_global_material(material)] *)
Definition set_global_material (material : Material)
    (sub_meshes : list SubMesh) (materials : list Material)
  : list SubMesh * list Material :=
  (map (fun sm => with_mat_idx sm (to_u32 (size materials))) sub_meshes,
   materials ++ [material]).

(** The material a submesh points to. *)
Definition material_of (materials : list Material) (sm : SubMesh)
  : option Material :=
  nth_error materials (Z.to_nat (mat_idx sm)).

End WithMaterial.

(** [assimp_does_material_exist(materials, current_material)] *)
Fixpoint assimp_does_material_exist (materials : list Z) (current_material : Z)
  : bool :=
  match materials with
  | [] => false
  | it :: rest =>
      if it =? current_material then true
      else assimp_does_material_exist rest current_material
  end.

End Materials.
Import Materials.

(* ------------------------------------------------------------------ *)
(** ** Importer: the ranges and the index buffer of [Mesh::load_from_disk]

    Of [load_from_disk] this is the bookkeeping of counts, ranges and
    indices: the first loop over the submeshes, the two [resize]s, the copy
    of the faces into [temp_indices] and the last loop that fills
    [m_indices].  The vertex attributes, the extents (float comparisons)
    and the materials are computed by the importer library and by float
    code that is not modelled: the material index and the extents a submesh
    ends with are taken as given with each mesh of the scene, and the
    attribute arrays of a mesh are taken to hold [mNumVertices] entries.
    Of the vertex loop the model keeps which [m_vertices[vertexIndex]] it
    touches. *)

Module Importer.

(** [aiFace] after [aiProcess_Triangulate]: [mIndices[0..2]]. *)
Record aiFace : Type := mk_aiFace { mIndices0 : Z; mIndices1 : Z; mIndices2 : Z }.

(** [aiMesh] as far as the bookkeeping reads it ([mNumFaces] is the length
    of [mFaces]), with what the rest of the loop leaves in the submesh. *)
Record aiMesh : Type := mk_aiMesh {
  mName : String.string;
  mNumVertices : Z;
  mFaces : list aiFace;
  its_mat_idx : Z;
  its_max_extents : vec3;
  its_min_extents : vec3
}.

Definition mNumFaces (am : aiMesh) : Z := size (mFaces am).

(** An [int] used as a subscript: within [0, INT_MAX]. *)
Definition int_subscript (idx : Z) : bool := (0 <=? idx) && (idx <? 2 ^ 31).

(** [v[idx] = x]; no defined behaviour outside the vector. *)
Definition store (v : list Z) (idx : Z) (x : Z) : option (list Z) :=
  if int_subscript idx && (idx <? size v) then
    Some (firstn (Z.to_nat idx) v ++ x :: skipn (S (Z.to_nat idx)) v)
  else None.

(** [v[idx]]; no defined behaviour outside the vector. *)
Definition fetch (v : list Z) (idx : Z) : option Z :=
  if int_subscript idx then nth_error v (Z.to_nat idx) else None.

(** The first loop, from submesh [i] on, with the running [vertex_count]
    and [index_count] ([uint32_t]); it gives the submeshes and the two
    totals. *)
Fixpoint assign_ranges (scene : list aiMesh) (vertex_count index_count : Z)
  : list SubMesh * Z * Z :=
  match scene with
  | [] => ([], vertex_count, index_count)
  | am :: rest =>
      let sm_index_count := to_u32 (mNumFaces am * 3) in
      let sm :=
        mk_SubMesh (mName am) (its_mat_idx am) sm_index_count
                   vertex_count index_count (mNumVertices am)
                   (its_max_extents am) (its_min_extents am) in
      let '(sms, vc, ic) :=
        assign_ranges rest (to_u32 (vertex_count + mNumVertices am))
                      (to_u32 (index_count + sm_index_count)) in
      (sm :: sms, vc, ic)
  end.

(** [for (j < mNumFaces) { temp_indices[idx] = mIndices[0]; idx++; ... }] *)
Fixpoint copy_faces (faces : list aiFace) (temp_indices : list Z) (idx : Z)
  : option (list Z * Z) :=
  match faces with
  | [] => Some (temp_indices, idx)
  | f :: rest =>
      match store temp_indices idx (mIndices0 f) with
      | None => None
      | Some t0 =>
          match store t0 (idx + 1) (mIndices1 f) with
          | None => None
          | Some t1 =>
              match store t1 (idx + 2) (mIndices2 f) with
              | None => None
              | Some t2 => copy_faces rest t2 (idx + 3)
              end
          end
      end
  end.

(** The vertex part of the second loop for one mesh: it reads
    [temp_mesh->mVertices[0]] and writes [m_vertices[vertexIndex]] for
    [mNumVertices] successive values of the [int vertexIndex].  It has
    defined behaviour when the mesh has a vertex, the writes stay inside
    [m_vertices] and [vertexIndex++] stays an [int]. *)
Definition vertex_loop_defined (am : aiMesh) (m_vertices_size vertexIndex : Z)
  : bool :=
  (0 <? mNumVertices am)
  && (vertexIndex + mNumVertices am <=? m_vertices_size)
  && (vertexIndex + mNumVertices am <? 2 ^ 31).

(** The second loop over the submeshes, as far as it fills
    [temp_indices]. *)
Fixpoint copy_scene (scene : list aiMesh) (m_vertices_size : Z)
    (temp_indices : list Z) (idx vertexIndex : Z) : option (list Z * Z) :=
  match scene with
  | [] => Some (temp_indices, idx)
  | am :: rest =>
      if vertex_loop_defined am m_vertices_size vertexIndex then
        match copy_faces (mFaces am) temp_indices idx with
        | None => None
        | Some (t, idx') =>
            copy_scene rest m_vertices_size t idx'
                       (vertexIndex + mNumVertices am)
        end
      else None
  end.

(** [for (int idx = base_index; idx < base_index + index_count; idx++)
       m_indices[count++] = base_vertex + temp_indices[idx];]
    with [n] iterations left. *)
Fixpoint gather (n : nat) (temp_indices m_indices : list Z)
    (base_vertex idx count : Z) : option (list Z * Z) :=
  match n with
  | O => Some (m_indices, count)
  | S k =>
      match fetch temp_indices idx with
      | None => None
      | Some t =>
          match store m_indices count (to_u32 (base_vertex + t)) with
          | None => None
          | Some mi =>
              gather k temp_indices mi base_vertex (idx + 1) (count + 1)
          end
      end
  end.

(** [submesh.base_vertex = 0] *)
Definition with_base_vertex_0 (sm : SubMesh) : SubMesh :=
  mk_SubMesh (name sm) (mat_idx sm) (index_count sm) 0 (base_index sm)
             (vertex_count sm) (max_extents sm) (min_extents sm).

(** How often the body of the inner loop runs: [idx] starts at
    [base_index] and is compared, as [unsigned], with the [uint32_t] sum
    [base_index + index_count]. *)
Definition iterations (sm : SubMesh) : nat :=
  Z.to_nat (to_u32 (base_index sm + index_count sm) - base_index sm).

(** The last loop over the submeshes. *)
Fixpoint fill_indices (sub_meshes : list SubMesh) (temp_indices m_indices : list Z)
    (count : Z) : option (list SubMesh * list Z) :=
  match sub_meshes with
  | [] => Some ([], m_indices)
  | submesh :: rest =>
      match gather (iterations submesh) temp_indices m_indices
              (base_vertex submesh) (base_index submesh) count with
      | None => None
      | Some (mi, count') =>
          match fill_indices rest temp_indices mi count' with
          | None => None
          | Some (rest', mi') => Some (with_base_vertex_0 submesh :: rest', mi')
          end
      end
  end.

(** What [load_from_disk] leaves: the submeshes, the index buffer and the
    size of the vertex buffer; [None] where it has no defined behaviour (a
    subscript outside its vector, or [m_sub_meshes[0]] of a scene without
    meshes). *)
Definition load_from_disk_ranges (scene : list aiMesh)
  : option (list SubMesh * list Z * Z) :=
  let '(sub_meshes, vertex_count, index_count) := assign_ranges scene 0 0 in
  let m_indices := repeat 0 (Z.to_nat index_count) in
  let temp_indices := repeat 0 (Z.to_nat index_count) in
  match copy_scene scene vertex_count temp_indices 0 0 with
  | None => None
  | Some (temp_indices, _) =>
      match fill_indices sub_meshes temp_indices m_indices 0 with
      | None => None
      | Some (sub_meshes, m_indices) =>
          match sub_meshes with
          | [] => None
          | _ :: _ => Some (sub_meshes, m_indices, vertex_count)
          end
      end
  end.

(** *** What the scene should give *)

Definition face_indices (f : aiFace) : list Z :=
  [mIndices0 f; mIndices1 f; mIndices2 f].

(** The indices of one mesh, in face order. *)
Definition mesh_indices (am : aiMesh) : list Z :=
  flat_map face_indices (mFaces am).

(** The index buffer of the whole scene: the indices of every mesh shifted
    by the number of vertices of the meshes before it. *)
Fixpoint scene_indices (scene : list aiMesh) (base_vertex : Z) : list Z :=
  match scene with
  | [] => []
  | am :: rest =>
      map (fun i => base_vertex + i) (mesh_indices am)
      ++ scene_indices rest (base_vertex + mNumVertices am)
  end.

Definition scene_index_count (scene : list aiMesh) : Z :=
  fold_right (fun am acc => 3 * mNumFaces am + acc) 0 scene.

Definition scene_vertex_count (scene : list aiMesh) : Z :=
  fold_right (fun am acc => mNumVertices am + acc) 0 scene.

(** A scene the bookkeeping can hold: at least one mesh, every mesh with
    a vertex and every index below the vertex count of its mesh, fewer
    than 2^31 vertices and fewer than 2^31 indices in all. *)
Definition scene_fits (scene : list aiMesh) : Prop :=
  scene <> []
  /\ Forall (fun am =>
               0 < mNumVertices am
               /\ Forall (fun i => 0 <= i < mNumVertices am) (mesh_indices am))
            scene
  /\ scene_vertex_count scene < 2 ^ 31
  /\ scene_index_count scene < 2 ^ 31.

End Importer.
Import Importer.

Module ImporterSpec.

(** The submeshes of a scene with ranges counted from [vertex_count] and
    [index_count], without wrap-around. *)
Fixpoint ranges_of (scene : list aiMesh) (vertex_count index_count : Z)
  : list SubMesh :=
  match scene with
  | [] => []
  | am :: rest =>
      mk_SubMesh (mName am) (its_mat_idx am) (3 * mNumFaces am)
                 vertex_count index_count (mNumVertices am)
                 (its_max_extents am) (its_min_extents am)
      :: ranges_of rest (vertex_count + mNumVertices am)
                   (index_count + 3 * mNumFaces am)
  end.

(** The indices of the faces of a scene as they come, not yet shifted. *)
Definition local_indices (scene : list aiMesh) : list Z :=
  flat_map mesh_indices scene.

End ImporterSpec.
Import ImporterSpec.

Module ImportedMesh.

(** [submesh.vertex_count = n], the other members as they are. *)
Definition with_vertex_count (n : Z) (sm : SubMesh) : SubMesh :=
  mk_SubMesh (name sm) (mat_idx sm) (index_count sm) (base_vertex sm)
             (base_index sm) n (max_extents sm) (min_extents sm).

(** The part [base_index .. base_index + index_count - 1] of an index
    buffer. *)
Definition index_range (m_indices : list Z) (sm : SubMesh) : list Z :=
  firstn (Z.to_nat (index_count sm))
         (skipn (Z.to_nat (base_index sm)) m_indices).

End ImportedMesh.
Import ImportedMesh.

(* ------------------------------------------------------------------ *)
(** ** Importer: one material per [mMaterialIndex]

    The material part of the first loop of [Mesh::load_from_disk] when
    [load_materials] is set: which [mat_idx] each submesh gets and how many
    materials are made.  What a material is made of (texture paths, colour
    values, [Material::load]) is not modelled. *)

Module ImporterMaterials.

(** [mat_id_mapping] and [local_mat_idx_mapping] get every key together,
    so one association list from [mMaterialIndex] to the place in
    [m_materials] stands for both. *)
Fixpoint find (mapping : list (Z * Z)) (mMaterialIndex : Z) : option Z :=
  match mapping with
  | [] => None
  | (k, idx) :: rest =>
      if k =? mMaterialIndex then Some idx else find rest mMaterialIndex
  end.

(** The loop from submesh [i] on, over the [mMaterialIndex] of the meshes;
    the result is the [mat_idx] of the submeshes, the mapping and
    [m_materials.size()] afterwards. *)
Fixpoint assign_materials (mMaterialIndex : list Z) (mapping : list (Z * Z))
    (m_materials_size : Z) : list Z * list (Z * Z) * Z :=
  match mMaterialIndex with
  | [] => ([], mapping, m_materials_size)
  | k :: rest =>
      match find mapping k with
      | None =>
          let idx := to_u32 m_materials_size in
          let '(idxs, mapping', n) :=
            assign_materials rest ((k, idx) :: mapping)
                             (m_materials_size + 1) in
          (idx :: idxs, mapping', n)
      | Some idx =>
          let '(idxs, mapping', n) :=
            assign_materials rest mapping m_materials_size in
          (idx :: idxs, mapping', n)
      end
  end.

(** The [mat_idx] of the submeshes and the number of materials of a mesh
    loaded with its materials. *)
Definition load_from_disk_materials (mMaterialIndex : list Z) : list Z * Z :=
  let '(idxs, _, n) := assign_materials mMaterialIndex [] 0 in (idxs, n).

End ImporterMaterials.
Import ImporterMaterials.

(* ------------------------------------------------------------------ *)
(** ** Mesh registry: [Mesh::load], [Mesh::is_loaded]

    [m_cache] maps a key to a [std::weak_ptr<Mesh>].  A pointer is the
    place of its [Mesh] among all meshes constructed so far; a mesh is
    [held] while some [std::shared_ptr] owns it, and its [weak_ptr] has
    expired when it is no longer held.  [Mesh::load(path, ...)] is taken
    after the path has been made absolute, and the constructors are taken
    to return. *)

Module Registry.

Import String.StringSyntax.
Local Open Scope string_scope.

(** What a [Mesh] was constructed from. *)
Inductive Origin : Type :=
| FromDisk (absolute_file_path_str : String.string)
           (load_materials is_orca_mesh generate_lightmap_uv : bool)
| FromData (name : String.string).

Record State : Type := mk_State {
  m_cache : String.string -> option nat;
  constructed : list Origin;
  held : nat -> bool
}.

(** Nothing loaded yet. *)
Definition initial : State := mk_State (fun _ => None) [] (fun _ => false).

(** [absolute_file_path_str + (generate_lightmap_uv ? "_lightmap" : "")] *)
Definition cache_key (absolute_file_path_str : String.string)
    (generate_lightmap_uv : bool) : String.string :=
  String.append absolute_file_path_str
    (if generate_lightmap_uv then "_lightmap" else "").

(** [Mesh::Ptr mesh = std::shared_ptr<Mesh>(new Mesh(...));
     m_cache[key] = mesh; return mesh;] *)
Definition construct (st : State) (key : String.string) (origin : Origin)
  : nat * State :=
  let mesh := length (constructed st) in
  (mesh,
   mk_State (fun k => if String.eqb k key then Some mesh else m_cache st k)
            (constructed st ++ [origin])%list
            (fun p => if Nat.eqb p mesh then true else held st p)).

(** [if (m_cache.find(key) == m_cache.end() || m_cache[key].expired())
       { construct } else { return m_cache[key].lock(); }] *)
Definition find_or_construct (st : State) (key : String.string)
    (origin : Origin) : nat * State :=
  match m_cache st key with
  | None => construct st key origin
  | Some ptr => if held st ptr then (ptr, st) else construct st key origin
  end.

(** [Mesh::load(path, load_materials, is_orca_mesh, generate_lightmap_uv)] *)
Definition load (st : State) (absolute_file_path_str : String.string)
    (load_materials is_orca_mesh generate_lightmap_uv : bool) : nat * State :=
  find_or_construct st (cache_key absolute_file_path_str generate_lightmap_uv)
    (FromDisk absolute_file_path_str load_materials is_orca_mesh
              generate_lightmap_uv).

(** [Mesh::load(name, vertices, indices, ...)] *)
Definition load_data (st : State) (name : String.string) : nat * State :=
  find_or_construct st name (FromData name).

(** [Mesh::is_loaded(name)] *)
Definition is_loaded (st : State) (name : String.string) : bool :=
  match m_cache st name with
  | None => false
  | Some _ => true
  end.

(** What happens to the registry, from inside and from outside. *)
Inductive Event : Type :=
| Load (absolute_file_path_str : String.string)
       (load_materials is_orca_mesh generate_lightmap_uv : bool)
| LoadData (name : String.string)
| Release (ptr : nat).           (* the last [shared_ptr] to [ptr] goes *)

Definition step (st : State) (e : Event) : State :=
  match e with
  | Load path load_materials is_orca_mesh generate_lightmap_uv =>
      snd (load st path load_materials is_orca_mesh generate_lightmap_uv)
  | LoadData name => snd (load_data st name)
  | Release ptr =>
      mk_State (m_cache st) (constructed st)
               (fun p => if Nat.eqb p ptr then false else held st p)
  end.

Definition run (st : State) (events : list Event) : State :=
  fold_left step events st.

(** [ptr] is not released by any of the events. *)
Definition keeps (ptr : nat) (events : list Event) : Prop :=
  ~ In (Release ptr) events.

End Registry.

(* ------------------------------------------------------------------ *)
(** ** More concrete inputs *)

Module MoreExamples.

Import String.StringSyntax.
Import Examples.
Local Open Scope string_scope.

(** The triangle with its second index changed from 1 to 2. *)
Definition triangle_reindexed : Mesh :=
  mk_Mesh (m_vertices triangle) [0; 2; 2] (m_sub_meshes triangle) 0 0 false.

(** IEEE single precision as [Binary32.ops], the quotient kept to its 32
    bits. *)
Definition ops32 : FloatOps :=
  mk_FloatOps Binary32.of_u32 (fun a b => to_u32 (Binary32.div a b)).

(** The record of the consolidated triangle cut after 470 of its 483
    bytes, in the extents of its submesh. *)
Definition cut_in_extents : CacheFile :=
  mk_CacheFile
    (Some (firstn 470 (layout triangle_atlas (compute_mesh_hash triangle))))
    true.

(** The same record cut after 100 bytes, in the vertex array. *)
Definition cut_in_vertices : CacheFile :=
  mk_CacheFile
    (Some (firstn 100 (layout triangle_atlas (compute_mesh_hash triangle))))
    true.

(** A header for the triangle that names 4294967295 vertices, and nothing
    behind it. *)
Definition greedy_header : CacheFile :=
  mk_CacheFile
    (Some (bytes_of_u32 LIGHTMAP_CACHE_MAGIC
           ++ bytes_of_u32 LIGHTMAP_CACHE_VERSION
           ++ bytes_of_u64 (compute_mesh_hash triangle)
           ++ bytes_of_u32 4294967295 ++ bytes_of_u32 0 ++ bytes_of_u32 0
           ++ bytes_of_u32 0 ++ bytes_of_u32 0))
    true.

(** A scene of two meshes: a triangle and a quad of two faces. *)
Definition two_mesh_scene : list aiMesh :=
  [mk_aiMesh "tri" 3 [mk_aiFace 0 1 2] 0
     (mk_vec3 f1 f1 f0) (mk_vec3 f0 f0 f0);
   mk_aiMesh "quad" 4 [mk_aiFace 0 1 2; mk_aiFace 0 2 3] 1
     (mk_vec3 f1 f1 f0) (mk_vec3 f0 f0 f0)].

Definition model_a : String.string := "/models/a.obj".

(** Two loads and a mesh let go: the second mesh loaded, not the first. *)
Definition other_events : list Registry.Event :=
  [Registry.Load "/models/b.obj" true false false; Registry.Release 1].

(** What [load_from_disk] leaves for [two_mesh_scene]. *)
Definition two_mesh_sub_meshes : list SubMesh :=
  [mk_SubMesh "tri" 0 3 0 0 3 (mk_vec3 f1 f1 f0) (mk_vec3 f0 f0 f0);
   mk_SubMesh "quad" 1 6 0 3 4 (mk_vec3 f1 f1 f0) (mk_vec3 f0 f0 f0)].

(** The mesh of [two_mesh_scene]: the triangle, then a unit square whose
    first three corners lie on the triangle's. *)
Definition two_mesh : Mesh :=
  mk_Mesh [vertex_at f0 f0 up; vertex_at f1 f0 up; vertex_at f0 f1 up;
           vertex_at f0 f0 up; vertex_at f1 f0 up; vertex_at f1 f1 up;
           vertex_at f0 f1 up]
          [0; 1; 2; 3; 4; 5; 3; 5; 6]
          two_mesh_sub_meshes 0 0 false.

(** A packer that keeps the vertices and the indices of [two_mesh] and
    splits vertex 3 along a seam: 8 vertices, 9 indices. *)
Definition two_mesh_packer_atlas : xatlas_Atlas :=
  mk_xatlas_Atlas
    [mk_xatlas_Mesh
       [mk_xatlas_Vertex 0 f4 f4; mk_xatlas_Vertex 1 f8 f4;
        mk_xatlas_Vertex 2 f4 f8; mk_xatlas_Vertex 3 f8 f8;
        mk_xatlas_Vertex 4 f12 f8; mk_xatlas_Vertex 5 f12 f12;
        mk_xatlas_Vertex 6 f8 f12; mk_xatlas_Vertex 3 f4 f12]
       [0; 1; 2; 3; 4; 5; 7; 5; 6]]
    16 16.

Definition keeping_packer : Packer :=
  mk_Packer (fun _ => Success) (fun _ => two_mesh_packer_atlas).

(** [two_mesh] after consolidation with [keeping_packer]. *)
Definition two_mesh_atlas : Mesh :=
  match generate_lightmap_uvs Binary32.ops keeping_packer two_mesh with
  | Some (m, _) => m
  | None => two_mesh
  end.

(** A scene of one mesh with three vertices and no face (a point cloud). *)
Definition faceless_scene : list aiMesh :=
  [mk_aiMesh "points" 3 [] 0 (mk_vec3 f1 f1 f0) (mk_vec3 f0 f0 f0)].

(** The mesh [load_from_disk] leaves for [faceless_scene]: vertices, no
    index. *)
Definition faceless : Mesh :=
  mk_Mesh [vertex_at f0 f0 up; vertex_at f1 f0 up; vertex_at f0 f1 up]
          []
          [mk_SubMesh "points" 0 0 0 0 3 (mk_vec3 f1 f1 f0) (mk_vec3 f0 f0 f0)]
          0 0 false.

End MoreExamples.
(* ------------------------------------------------------------------ *)
(** * Properties *)

(** ** Raw memory *)

Lemma byte_to_Z_range b : 0 <= byte_to_Z b < 256.
Proof.
  unfold byte_to_Z. pose proof (Byte.to_N_bounded b). lia.
Qed.

Lemma byte_to_Z_of_Z z : byte_to_Z (byte_of_Z z) = z mod 256.
Proof.
  unfold byte_to_Z, byte_of_Z.
  assert (Hr : 0 <= z mod 256 < 256) by (apply Z.mod_pos_bound; lia).
  destruct (Byte.of_N (Z.to_N (z mod 256))) as [b|] eqn:E.
  - apply Byte.to_of_N in E. rewrite E. lia.
  - apply Byte.of_N_None_iff in E. lia.
Qed.

Lemma byte_of_Z_to_Z b : byte_of_Z (byte_to_Z b) = b.
Proof.
  unfold byte_of_Z. pose proof (byte_to_Z_range b) as Hr.
  rewrite Z.mod_small by lia. unfold byte_to_Z.
  rewrite N2Z.id, Byte.of_to_N. reflexivity.
Qed.

Lemma le_bytes_length n z : length (le_bytes n z) = n.
Proof. revert z; induction n; intros; simpl; [reflexivity | now rewrite IHn]. Qed.

Lemma le_value_bytes n z :
  le_value (le_bytes n z) = z mod 256 ^ Z.of_nat n.
Proof.
  revert z; induction n as [|n IH]; intros z.
  - simpl. now rewrite Z.mod_1_r.
  - cbn [le_bytes le_value]. rewrite IH, byte_to_Z_of_Z.
    rewrite Nat2Z.inj_succ, Z.pow_succ_r by lia.
    rewrite Z.rem_mul_r by lia. reflexivity.
Qed.

Lemma le_value_range bs : 0 <= le_value bs < 256 ^ Z.of_nat (length bs).
Proof.
  induction bs as [|b r IH].
  - simpl. lia.
  - cbn [le_value length]. rewrite Nat2Z.inj_succ, Z.pow_succ_r by lia.
    pose proof (byte_to_Z_range b). lia.
Qed.

Lemma le_bytes_value bs : le_bytes (length bs) (le_value bs) = bs.
Proof.
  induction bs as [|b r IH]; [reflexivity|].
  cbn [length le_bytes le_value]. pose proof (byte_to_Z_range b) as Hb.
  assert (Hm : (byte_to_Z b + 256 * le_value r) mod 256 = byte_to_Z b).
  { rewrite (Z.mul_comm 256), Z.mod_add by lia. now apply Z.mod_small. }
  assert (Hd : (byte_to_Z b + 256 * le_value r) / 256 = le_value r).
  { rewrite (Z.mul_comm 256), Z.div_add by lia.
    rewrite Z.div_small by lia. lia. }
  rewrite Hd, IH. f_equal.
  unfold byte_of_Z. rewrite Hm. unfold byte_to_Z.
  now rewrite N2Z.id, Byte.of_to_N.
Qed.

Lemma le_value_bytes_u32 z : is_u32 z -> le_value (le_bytes 4 z) = z.
Proof.
  intros H. rewrite le_value_bytes. apply Z.mod_small.
  unfold is_u32 in H. change (256 ^ Z.of_nat 4) with (2 ^ 32). exact H.
Qed.

Lemma le_value_bytes_u64 z : is_u64 z -> le_value (le_bytes 8 z) = z.
Proof.
  intros H. rewrite le_value_bytes. apply Z.mod_small.
  unfold is_u64 in H. change (256 ^ Z.of_nat 8) with (2 ^ 64). exact H.
Qed.

Lemma overlay_full got old :
  length got = length old -> overlay got old = got.
Proof.
  intros H. unfold overlay. rewrite H, skipn_all. apply app_nil_r.
Qed.

Lemma overlay_length got old :
  (length got <= length old)%nat -> length (overlay got old) = length old.
Proof.
  intros H. unfold overlay. rewrite length_app, length_skipn. lia.
Qed.

Lemma zeros_length n : length (zeros n) = Z.to_nat n.
Proof. apply repeat_length. Qed.


(* ------------------------------------------------------------------ *)
(** ** Geometry hasher *)

Section FoldLemmas.

Context {A B C : Type}.

Lemma fold_left_map (f : A -> C -> A) (g : B -> C) (l : list B) (a : A) :
  fold_left f (map g l) a = fold_left (fun a x => f a (g x)) l a.
Proof.
  revert a; induction l as [|x l IH]; intros a; simpl; [reflexivity | apply IH].
Qed.

Lemma fold_left_flat_map (f : A -> C -> A) (g : B -> list C) (l : list B) (a : A) :
  fold_left f (flat_map g l) a = fold_left (fun a x => fold_left f (g x) a) l a.
Proof.
  revert a; induction l as [|x l IH]; intros a; simpl; [reflexivity|].
  rewrite fold_left_app. apply IH.
Qed.

Lemma fold_left_ext (f g : A -> B -> A) (l : list B) (a : A) :
  (forall a x, f a x = g a x) -> fold_left f l a = fold_left g l a.
Proof.
  intros E. revert a; induction l as [|x l IH]; intros a; simpl;
    [reflexivity | rewrite E; apply IH].
Qed.

End FoldLemmas.

Lemma fnv_step_spec h d : fnv_step h d = fnv1a_step h d.
Proof. reflexivity. Qed.

Lemma fnv_step_range h d : is_u64 (fnv_step h d).
Proof. unfold fnv_step, to_u64, is_u64. apply Z.mod_pos_bound. lia. Qed.

Lemma fold_fnv_step_range (l : list Z) h :
  is_u64 h -> is_u64 (fold_left fnv1a_step l h).
Proof.
  revert h; induction l as [|d l IH]; intros h Hh; simpl; [exact Hh|].
  apply IH. rewrite <- fnv_step_spec. apply fnv_step_range.
Qed.

Lemma hash_data_units h data :
  hash_data h data = fold_left fnv1a_step (map byte_to_Z data) h.
Proof. unfold hash_data. now rewrite fold_left_map. Qed.

Lemma hash_vertices_units h vs :
  hash_vertices h vs = fold_left fnv1a_step (position_units vs) h.
Proof.
  unfold hash_vertices, position_units. rewrite fold_left_flat_map.
  apply fold_left_ext. intros; apply hash_data_units.
Qed.

Lemma hash_indices_units h l :
  hash_indices h l = fold_left fnv1a_step (index_units l) h.
Proof.
  unfold hash_indices, index_units. rewrite fold_left_flat_map.
  apply fold_left_ext. intros; apply hash_data_units.
Qed.

Lemma hash_sub_meshes_units h sms :
  hash_sub_meshes h sms = fold_left fnv1a_step (submesh_units sms) h.
Proof.
  unfold hash_sub_meshes, submesh_units. rewrite fold_left_flat_map.
  apply fold_left_ext. reflexivity.
Qed.

Lemma compute_mesh_hash_spec_hash m :
  compute_mesh_hash m = spec_hash (m_vertices m) (m_indices m) (m_sub_meshes m).
Proof.
  unfold compute_mesh_hash, spec_hash, fnv1a.
  rewrite hash_sub_meshes_units, hash_indices_units, hash_vertices_units.
  now rewrite !fold_left_app.
Qed.

Lemma compute_mesh_hash_range m : is_u64 (compute_mesh_hash m).
Proof.
  rewrite compute_mesh_hash_spec_hash. unfold spec_hash, fnv1a.
  apply fold_fnv_step_range. unfold is_u64. lia.
Qed.

(** The vertex loop only looks at [v.position]. *)
Lemma hash_vertices_positions h vs :
  hash_vertices h vs
  = fold_left (fun h p => hash_data h (bytes_of_vec4 p)) (map position vs) h.
Proof. unfold hash_vertices. now rewrite fold_left_map. Qed.

(** The submesh loop only looks at [sm.index_count] and [sm.base_index]. *)
Lemma hash_sub_meshes_ranges h sms :
  hash_sub_meshes h sms
  = fold_left (fun h r => fnv_step (fnv_step h (fst r)) (snd r))
      (map (fun sm => (index_count sm, base_index sm)) sms) h.
Proof. unfold hash_sub_meshes. now rewrite fold_left_map. Qed.

(** C2. The geometry hash is FNV-1a with offset basis 14695981039346656037
    and prime 1099511628211 folded over the bytes of every vertex position
    in order, then the bytes of every index in order, then [index_count] and
    [base_index] of every submesh in order; it is a 64 bit value and a
    function of these three sequences alone: whatever else the mesh holds
    (atlas dimensions, lightmap flag), equal sequences give the equal
    hash. *)
Theorem compute_mesh_hash_is_fnv1a :
  forall (vs : list Vertex) (l : list Z) (sms : list SubMesh)
         (w h w' h' : Z) (b b' : bool),
    FNV_OFFSET = 14695981039346656037
    /\ FNV_PRIME = 1099511628211
    /\ compute_mesh_hash (mk_Mesh vs l sms w h b)
       = fnv1a (position_units vs ++ index_units l ++ submesh_units sms)
    /\ 0 <= compute_mesh_hash (mk_Mesh vs l sms w h b) < 2 ^ 64
    /\ compute_mesh_hash (mk_Mesh vs l sms w h b)
       = compute_mesh_hash (mk_Mesh vs l sms w' h' b').
Proof.
  intros. repeat split; try reflexivity.
  - apply (compute_mesh_hash_spec_hash (mk_Mesh vs l sms w h b)).
  - apply (compute_mesh_hash_range (mk_Mesh vs l sms w h b)).
  - apply (compute_mesh_hash_range (mk_Mesh vs l sms w h b)).
Qed.

(** C8. Two geometry snapshots with the same vertex positions, the same
    indices and the same [index_count] and [base_index] in every submesh
    have the same hash, however their normals, tangents, bitangents,
    primary UVs and lightmap UVs (and the other submesh members) differ. *)
Theorem compute_mesh_hash_reads_positions_only :
  forall m1 m2 : Mesh,
    same_hash_input m1 m2 -> compute_mesh_hash m1 = compute_mesh_hash m2.
Proof.
  intros m1 m2 (Hv & Hi & Hs). unfold compute_mesh_hash.
  rewrite !hash_sub_meshes_ranges, !hash_vertices_positions.
  now rewrite Hv, Hi, Hs.
Qed.

(* ------------------------------------------------------------------ *)
(** ** Objects and their bytes *)

Lemma bytes_of_u32_length z : length (bytes_of_u32 z) = 4%nat.
Proof. apply le_bytes_length. Qed.

Lemma bytes_of_u64_length z : length (bytes_of_u64 z) = 8%nat.
Proof. apply le_bytes_length. Qed.

Lemma bytes_of_vec3_length v : length (bytes_of_vec3 v) = 12%nat.
Proof. unfold bytes_of_vec3. now rewrite !length_app, !bytes_of_u32_length. Qed.

Lemma bytes_of_vec4_length v : length (bytes_of_vec4 v) = 16%nat.
Proof. unfold bytes_of_vec4. now rewrite !length_app, !bytes_of_u32_length. Qed.

Lemma bytes_of_Vertex_length v : length (bytes_of_Vertex v) = 96%nat.
Proof. unfold bytes_of_Vertex. now rewrite !length_app, !bytes_of_vec4_length. Qed.

Lemma bytes_of_vertices_length vs :
  length (bytes_of_vertices vs) = (96 * length vs)%nat.
Proof.
  induction vs as [|v vs IH]; [reflexivity|].
  cbn [bytes_of_vertices flat_map length]. fold (bytes_of_vertices vs).
  rewrite length_app, bytes_of_Vertex_length, IH. lia.
Qed.

Lemma bytes_of_indices_length l :
  length (bytes_of_indices l) = (4 * length l)%nat.
Proof.
  induction l as [|i l IH]; [reflexivity|].
  cbn [bytes_of_indices flat_map length]. fold (bytes_of_indices l).
  rewrite length_app, bytes_of_u32_length, IH. lia.
Qed.

Lemma firstn_app_exact {A} (l r : list A) n :
  n = length l -> firstn n (l ++ r) = l.
Proof.
  intros ->. rewrite firstn_app, Nat.sub_diag, firstn_all. cbn. apply app_nil_r.
Qed.

Lemma skipn_app_exact {A} (l r : list A) n :
  n = length l -> skipn n (l ++ r) = r.
Proof.
  intros ->. rewrite skipn_app, Nat.sub_diag, skipn_all. reflexivity.
Qed.

Lemma get_u32_bytes z r : is_u32 z -> get_u32 (bytes_of_u32 z ++ r) = (z, r).
Proof.
  intros H. unfold get_u32.
  rewrite firstn_app_exact, skipn_app_exact by (symmetry; apply bytes_of_u32_length).
  unfold bytes_of_u32. now rewrite le_value_bytes_u32.
Qed.

Lemma get_vec3_bytes v r : wf_vec3 v -> get_vec3 (bytes_of_vec3 v ++ r) = (v, r).
Proof.
  intros (Hx & Hy & Hz). unfold get_vec3, bytes_of_vec3.
  rewrite <- !app_assoc. rewrite !get_u32_bytes by assumption.
  now destruct v.
Qed.

Lemma get_vec4_bytes v r : wf_vec4 v -> get_vec4 (bytes_of_vec4 v ++ r) = (v, r).
Proof.
  intros (Hx & Hy & Hz & Hw). unfold get_vec4, bytes_of_vec4.
  rewrite <- !app_assoc. rewrite !get_u32_bytes by assumption.
  now destruct v.
Qed.

Lemma get_Vertex_bytes v r :
  wf_Vertex v -> get_Vertex (bytes_of_Vertex v ++ r) = (v, r).
Proof.
  intros (H1 & H2 & H3 & H4 & H5 & H6). unfold get_Vertex, bytes_of_Vertex.
  rewrite <- !app_assoc. rewrite !get_vec4_bytes by assumption.
  now destruct v.
Qed.

Lemma vertices_of_bytes_of_vertices vs r :
  Forall wf_Vertex vs ->
  vertices_of_bytes (length vs) (bytes_of_vertices vs ++ r) = vs.
Proof.
  induction 1 as [|v vs Hv _ IH]; [reflexivity|].
  cbn [length vertices_of_bytes bytes_of_vertices flat_map].
  fold (bytes_of_vertices vs).
  rewrite <- app_assoc, get_Vertex_bytes by assumption. now rewrite IH.
Qed.

Lemma indices_of_bytes_of_indices l r :
  Forall is_u32 l ->
  indices_of_bytes (length l) (bytes_of_indices l ++ r) = l.
Proof.
  induction 1 as [|i l Hi _ IH]; [reflexivity|].
  cbn [length indices_of_bytes bytes_of_indices flat_map].
  fold (bytes_of_indices l).
  rewrite <- app_assoc, get_u32_bytes by assumption. now rewrite IH.
Qed.

Lemma array_bytes_small count elem_size :
  0 <= count < 2 ^ 31 -> 0 <= elem_size <= 96 ->
  array_bytes count elem_size = count * elem_size.
Proof.
  intros Hc He. unfold array_bytes, to_i64, to_u64, to_i32.
  rewrite (Z.mod_small count) by lia.
  destruct (count <? 2 ^ 31) eqn:E; [|apply Z.ltb_ge in E; lia].
  rewrite (Z.mod_small count) by lia.
  assert (0 <= count * elem_size < 2 ^ 63) by nia.
  rewrite !(Z.mod_small (count * elem_size)) by lia.
  destruct (count * elem_size <? 2 ^ 63) eqn:E'; [reflexivity|].
  apply Z.ltb_ge in E'. lia.
Qed.

(** From 2^31 elements on, [static_cast<int32_t>] makes the byte count of
    an array negative: this is why [cacheable] bounds the two arrays by
    2^31 and not by what [uint32_t] can hold. *)
Lemma array_bytes_int32_wraps count elem_size :
  2 ^ 31 <= count < 2 ^ 32 -> 0 < elem_size <= 96 ->
  array_bytes count elem_size = (count - 2 ^ 32) * elem_size
  /\ array_bytes count elem_size < 0.
Proof.
  intros Hc He. unfold array_bytes, to_i64, to_u64, to_i32.
  rewrite (Z.mod_small count) by lia.
  destruct (count <? 2 ^ 31) eqn:E; [apply Z.ltb_lt in E; lia|].
  replace ((count - 2 ^ 32) mod 2 ^ 64) with (count - 2 ^ 32 + 2 ^ 64).
  2:{ apply Z.mod_unique_pos with (q := -1); lia. }
  replace (((count - 2 ^ 32 + 2 ^ 64) * elem_size) mod 2 ^ 64)
    with ((count - 2 ^ 32) * elem_size + 2 ^ 64).
  2:{ apply Z.mod_unique_pos with (q := elem_size - 1); nia. }
  rewrite Z.mod_small by nia.
  destruct ((count - 2 ^ 32) * elem_size + 2 ^ 64 <? 2 ^ 63) eqn:E';
    [apply Z.ltb_lt in E'; nia|].
  split; [lia | nia].
Qed.

(* ------------------------------------------------------------------ *)
(** ** Writing: the stream after [save_lightmap_cache] holds the layout *)

Lemma ofs_write_all src b n :
  n = Z.of_nat (length src) ->
  ofs_write n src (mk_ofstream b false) = mk_ofstream (b ++ src) false.
Proof.
  intros ->. unfold ofs_write. cbn [out_fail out_bytes].
  destruct (Z.of_nat (length src) <? 0) eqn:E; [apply Z.ltb_lt in E; lia|].
  now rewrite Nat2Z.id, firstn_all.
Qed.

Lemma write_u32_ok z b :
  write_u32 z (mk_ofstream b false) = mk_ofstream (b ++ bytes_of_u32 z) false.
Proof. apply ofs_write_all. now rewrite bytes_of_u32_length. Qed.

Lemma write_u64_ok z b :
  write_u64 z (mk_ofstream b false) = mk_ofstream (b ++ bytes_of_u64 z) false.
Proof. apply ofs_write_all. now rewrite bytes_of_u64_length. Qed.

Lemma write_vec3_ok v b :
  write_vec3 v (mk_ofstream b false) = mk_ofstream (b ++ bytes_of_vec3 v) false.
Proof. apply ofs_write_all. now rewrite bytes_of_vec3_length. Qed.

Lemma to_u32_small z : is_u32 z -> to_u32 z = z.
Proof. intros H. apply Z.mod_small. exact H. Qed.

Lemma size_nonneg {A} (l : list A) : 0 <= size l.
Proof. unfold size. lia. Qed.

Lemma write_submesh_ok sm b :
  size (bytes_of_name (name sm)) < 2 ^ 32 ->
  write_submesh sm (mk_ofstream b false)
  = mk_ofstream (b ++ layout_submesh sm) false.
Proof.
  intros Hn. unfold write_submesh, layout_submesh.
  rewrite to_u32_small by (split; [apply size_nonneg | exact Hn]).
  rewrite write_u32_ok.
  rewrite (ofs_write_all (bytes_of_name (name sm))) by reflexivity.
  rewrite !write_u32_ok, !write_vec3_ok.
  now rewrite <- !app_assoc.
Qed.

Lemma write_submeshes_ok sms b :
  Forall (fun sm => size (bytes_of_name (name sm)) < 2 ^ 32) sms ->
  fold_left (fun f sm => write_submesh sm f) sms (mk_ofstream b false)
  = mk_ofstream (b ++ flat_map layout_submesh sms) false.
Proof.
  intros H. revert b. induction H as [|sm sms Hsm _ IH]; intros b.
  - cbn. now rewrite app_nil_r.
  - cbn [fold_left flat_map]. rewrite write_submesh_ok by exact Hsm.
    rewrite IH. now rewrite <- app_assoc.
Qed.

Lemma write_cache_layout m mesh_hash :
  cacheable m ->
  write_cache m mesh_hash (mk_ofstream [] false)
  = mk_ofstream (layout m mesh_hash) false.
Proof.
  intros (_ & Hv & Hi & Hs & Hn). unfold write_cache.
  rewrite !to_u32_small by (split; [apply size_nonneg | lia]).
  rewrite !write_u32_ok, write_u64_ok, !write_u32_ok.
  rewrite !array_bytes_small
    by (unfold sizeof_Vertex, sizeof_uint32_t;
        first [ split; [apply size_nonneg | assumption] | lia ]).
  rewrite (ofs_write_all (bytes_of_vertices (m_vertices m)))
    by (rewrite bytes_of_vertices_length; unfold size, sizeof_Vertex; lia).
  rewrite (ofs_write_all (bytes_of_indices (m_indices m)))
    by (rewrite bytes_of_indices_length; unfold size, sizeof_uint32_t; lia).
  rewrite write_submeshes_ok by exact Hn.
  unfold layout, layout_header, layout_data. cbn [app].
  now rewrite <- !app_assoc.
Qed.

(** *** When writing fails *)

Lemma ofs_write_failed n src f :
  out_fail f = true -> out_fail (ofs_write n src f) = true.
Proof. intros H. unfold ofs_write. now rewrite H. Qed.

Lemma ofs_write_negative n src f :
  n < 0 -> out_fail (ofs_write n src f) = true.
Proof.
  intros H. unfold ofs_write. destruct (out_fail f) eqn:E; [exact E|].
  apply Z.ltb_lt in H. now rewrite H.
Qed.

Lemma write_submesh_failed sm f :
  out_fail f = true -> out_fail (write_submesh sm f) = true.
Proof.
  intros H. unfold write_submesh, write_u32, write_vec3.
  repeat apply ofs_write_failed. exact H.
Qed.

Lemma write_submeshes_failed sms f :
  out_fail f = true ->
  out_fail (fold_left (fun f sm => write_submesh sm f) sms f) = true.
Proof.
  revert f. induction sms as [|sm sms IH]; intros f H; cbn [fold_left].
  - exact H.
  - apply IH. now apply write_submesh_failed.
Qed.

(** A stream that took all of a record saw counts below 2^31. *)
Lemma write_cache_ok_counts m mesh_hash :
  representable m ->
  out_fail (write_cache m mesh_hash (mk_ofstream [] false)) = false ->
  size (m_vertices m) < 2 ^ 31 /\ size (m_indices m) < 2 ^ 31.
Proof.
  intros (_ & Hv & Hi & _ & _) Hok. unfold write_cache in Hok.
  rewrite !to_u32_small in Hok by (split; [apply size_nonneg | lia]).
  rewrite !write_u32_ok, write_u64_ok, !write_u32_ok in Hok.
  destruct (Z.lt_ge_cases (size (m_vertices m)) (2 ^ 31)) as [Hvs | Hvl].
  - split; [exact Hvs|].
    destruct (Z.lt_ge_cases (size (m_indices m)) (2 ^ 31)) as [His | Hil];
      [exact His|].
    rewrite write_submeshes_failed in Hok; [discriminate Hok|].
    apply ofs_write_negative.
    apply array_bytes_int32_wraps; unfold sizeof_uint32_t; lia.
  - rewrite write_submeshes_failed in Hok; [discriminate Hok|].
    apply ofs_write_failed, ofs_write_negative.
    apply array_bytes_int32_wraps; unfold sizeof_Vertex; lia.
Qed.

Lemma representable_cacheable m :
  representable m ->
  size (m_vertices m) < 2 ^ 31 -> size (m_indices m) < 2 ^ 31 ->
  cacheable m.
Proof.
  intros (Hwf & _ & _ & Hs & Hn) Hv Hi.
  exact (conj Hwf (conj Hv (conj Hi (conj Hs Hn)))).
Qed.

Lemma cacheable_representable m : cacheable m -> representable m.
Proof.
  intros (Hwf & Hv & Hi & Hs & Hn).
  refine (conj Hwf (conj _ (conj _ (conj Hs Hn)))); lia.
Qed.

(* ------------------------------------------------------------------ *)
(** ** Reading back what was written, whatever follows it *)

Lemma bind_run {A B} (c : IS A) (k : A -> IS B) f a f' :
  c f = (a, f') -> bind c k f = k a f'.
Proof. intros H. unfold bind. now rewrite H. Qed.

Lemma ifs_read_app bs rest old n :
  n = Z.of_nat (length bs) -> length old = length bs ->
  ifs_read n old (mk_ifstream (bs ++ rest) false) = (bs, mk_ifstream rest false).
Proof.
  intros -> Hl. unfold ifs_read. cbn [in_fail in_rest].
  destruct (Z.of_nat (length bs) <? 0) eqn:E; [apply Z.ltb_lt in E; lia|].
  destruct (Z.of_nat (length bs) <=? Z.of_nat (length (bs ++ rest))) eqn:E'.
  - rewrite Nat2Z.id, firstn_app_exact, skipn_app_exact by reflexivity.
    now rewrite overlay_full by (symmetry; exact Hl).
  - apply Z.leb_gt in E'. rewrite length_app in E'. lia.
Qed.

Lemma read_u32_app z old rest :
  is_u32 z ->
  read_u32 old (mk_ifstream (bytes_of_u32 z ++ rest) false)
  = (z, mk_ifstream rest false).
Proof.
  intros H. unfold read_u32.
  erewrite bind_run
    by (apply ifs_read_app; rewrite !bytes_of_u32_length; reflexivity).
  unfold ret, bytes_of_u32. now rewrite le_value_bytes_u32.
Qed.

Lemma read_u64_app z old rest :
  is_u64 z ->
  read_u64 old (mk_ifstream (bytes_of_u64 z ++ rest) false)
  = (z, mk_ifstream rest false).
Proof.
  intros H. unfold read_u64.
  erewrite bind_run
    by (apply ifs_read_app; rewrite !bytes_of_u64_length; reflexivity).
  unfold ret, bytes_of_u64. now rewrite le_value_bytes_u64.
Qed.

Lemma read_vec3_app v old rest :
  wf_vec3 v ->
  read_vec3 old (mk_ifstream (bytes_of_vec3 v ++ rest) false)
  = (v, mk_ifstream rest false).
Proof.
  intros H. unfold read_vec3.
  erewrite bind_run
    by (apply ifs_read_app; rewrite !bytes_of_vec3_length; reflexivity).
  unfold ret. rewrite <- (app_nil_r (bytes_of_vec3 v)).
  now rewrite get_vec3_bytes.
Qed.

Section ReadBack.

Variable uninit : nat -> Z.

Ltac read_next :=
  first
    [ erewrite bind_run by (apply read_u32_app; assumption)
    | erewrite bind_run by (apply read_u64_app; assumption)
    | erewrite bind_run by (apply read_vec3_app; assumption) ].

Lemma read_header_app m mesh_hash rest :
  cacheable m -> is_u64 mesh_hash ->
  read_header uninit (mk_ifstream (layout_header m mesh_hash ++ rest) false)
  = (mk_Header LIGHTMAP_CACHE_MAGIC LIGHTMAP_CACHE_VERSION mesh_hash
       (size (m_vertices m)) (size (m_indices m)) (size (m_sub_meshes m))
       (m_lightmap_width m) (m_lightmap_height m),
     mk_ifstream rest false).
Proof.
  intros ((_ & _ & _ & Hw & Hh) & Hv & Hi & Hs & _) Hhash.
  assert (is_u32 LIGHTMAP_CACHE_MAGIC) by (unfold is_u32, LIGHTMAP_CACHE_MAGIC; lia).
  assert (is_u32 LIGHTMAP_CACHE_VERSION) by (unfold is_u32, LIGHTMAP_CACHE_VERSION; lia).
  assert (is_u32 (size (m_vertices m))) by (split; [apply size_nonneg | lia]).
  assert (is_u32 (size (m_indices m))) by (split; [apply size_nonneg | lia]).
  assert (is_u32 (size (m_sub_meshes m))) by (split; [apply size_nonneg | lia]).
  unfold read_header, layout_header. rewrite <- !app_assoc.
  repeat read_next. reflexivity.
Qed.

Lemma read_vertex_array_app vs rest :
  Forall wf_Vertex vs -> size vs < 2 ^ 31 ->
  read_vertex_array (size vs) (mk_ifstream (bytes_of_vertices vs ++ rest) false)
  = (vs, mk_ifstream rest false).
Proof.
  intros Hwf Hn. unfold read_vertex_array.
  rewrite array_bytes_small
    by (unfold sizeof_Vertex; first [split; [apply size_nonneg | assumption] | lia]).
  erewrite bind_run.
  2:{ apply ifs_read_app.
      - rewrite bytes_of_vertices_length. unfold size, sizeof_Vertex. lia.
      - rewrite zeros_length, bytes_of_vertices_length.
        unfold size, sizeof_Vertex. lia. }
  unfold ret, size. rewrite Nat2Z.id.
  rewrite <- (app_nil_r (bytes_of_vertices vs)).
  now rewrite vertices_of_bytes_of_vertices.
Qed.

Lemma read_index_array_app l rest :
  Forall is_u32 l -> size l < 2 ^ 31 ->
  read_index_array (size l) (mk_ifstream (bytes_of_indices l ++ rest) false)
  = (l, mk_ifstream rest false).
Proof.
  intros Hwf Hn. unfold read_index_array.
  rewrite array_bytes_small
    by (unfold sizeof_uint32_t; first [split; [apply size_nonneg | assumption] | lia]).
  erewrite bind_run.
  2:{ apply ifs_read_app.
      - rewrite bytes_of_indices_length. unfold size, sizeof_uint32_t. lia.
      - rewrite zeros_length, bytes_of_indices_length.
        unfold size, sizeof_uint32_t. lia. }
  unfold ret, size. rewrite Nat2Z.id.
  rewrite <- (app_nil_r (bytes_of_indices l)).
  now rewrite indices_of_bytes_of_indices.
Qed.

(** The record of a submesh behind its length field. *)
Lemma read_submesh_fields_app sm rest :
  wf_SubMesh sm ->
  read_submesh_fields (size (bytes_of_name (name sm)))
    (mk_ifstream
       (bytes_of_name (name sm)
        ++ bytes_of_u32 (mat_idx sm) ++ bytes_of_u32 (index_count sm)
        ++ bytes_of_u32 (base_vertex sm) ++ bytes_of_u32 (base_index sm)
        ++ bytes_of_u32 (vertex_count sm)
        ++ bytes_of_vec3 (max_extents sm) ++ bytes_of_vec3 (min_extents sm)
        ++ rest) false)
  = (sm, mk_ifstream rest false).
Proof.
  intros (H1 & H2 & H3 & H4 & H5 & H6 & H7).
  unfold read_submesh_fields.
  erewrite bind_run.
  2:{ apply ifs_read_app; [reflexivity|].
      rewrite zeros_length. unfold size. apply Nat2Z.id. }
  repeat read_next. unfold ret, bytes_of_name.
  rewrite String.string_of_list_byte_of_string. now destruct sm.
Qed.

(** *** Statements that may end early *)

Lemma bindx_run {A B} (c : ISX A) (k : A -> ISX B) f a f' :
  c f = (Normal a, f') -> bindx c k f = k a f'.
Proof. intros H. unfold bindx. now rewrite H. Qed.

Lemma lift_run {A} (c : IS A) f a f' :
  c f = (a, f') -> lift c f = (Normal a, f').
Proof. intros H. unfold lift. now rewrite H. Qed.

Variable store : Request -> bool.

(** What the rest of the file can fill is granted. *)
Lemma allocate_filled r rest b :
  file_bytes r <= Z.of_nat (length rest) ->
  allocate store r (mk_ifstream rest b) = (Normal tt, mk_ifstream rest b).
Proof.
  intros H. unfold allocate. cbn [in_rest].
  apply Z.leb_le in H. now rewrite H.
Qed.

Lemma read_vertices_app vs rest :
  Forall wf_Vertex vs -> size vs < 2 ^ 31 ->
  read_vertices store (size vs)
    (mk_ifstream (bytes_of_vertices vs ++ rest) false)
  = (Normal vs, mk_ifstream rest false).
Proof.
  intros Hwf Hn. unfold read_vertices.
  erewrite bindx_run.
  2:{ apply allocate_filled. cbn [file_bytes].
      rewrite length_app, bytes_of_vertices_length.
      unfold size, sizeof_Vertex. lia. }
  apply lift_run. now apply read_vertex_array_app.
Qed.

Lemma read_indices_app l rest :
  Forall is_u32 l -> size l < 2 ^ 31 ->
  read_indices store (size l)
    (mk_ifstream (bytes_of_indices l ++ rest) false)
  = (Normal l, mk_ifstream rest false).
Proof.
  intros Hwf Hn. unfold read_indices.
  erewrite bindx_run.
  2:{ apply allocate_filled. cbn [file_bytes].
      rewrite length_app, bytes_of_indices_length.
      unfold size, sizeof_uint32_t. lia. }
  apply lift_run. now apply read_index_array_app.
Qed.

Lemma read_name_len_app z rest :
  is_u32 z ->
  read_name_len (mk_ifstream (bytes_of_u32 z ++ rest) false)
  = (Normal z, mk_ifstream rest false).
Proof.
  intros H. unfold read_name_len. now rewrite read_u32_app.
Qed.

Lemma read_submesh_app sm rest :
  wf_SubMesh sm -> size (bytes_of_name (name sm)) < 2 ^ 32 ->
  read_submesh store (mk_ifstream (layout_submesh sm ++ rest) false)
  = (Normal sm, mk_ifstream rest false).
Proof.
  intros Hwf Hn.
  assert (is_u32 (size (bytes_of_name (name sm))))
    by (split; [apply size_nonneg | lia]).
  unfold read_submesh, layout_submesh. rewrite <- !app_assoc.
  erewrite bindx_run by (apply read_name_len_app; assumption).
  erewrite bindx_run.
  2:{ apply allocate_filled. cbn [file_bytes]. rewrite length_app.
      unfold size. lia. }
  apply lift_run. now apply read_submesh_fields_app.
Qed.

Lemma layout_submesh_least sm : 48 <= Z.of_nat (length (layout_submesh sm)).
Proof.
  unfold layout_submesh.
  rewrite !length_app, !bytes_of_u32_length, !bytes_of_vec3_length. lia.
Qed.

Lemma layout_submeshes_least sms :
  size sms * 48 <= Z.of_nat (length (flat_map layout_submesh sms)).
Proof.
  induction sms as [|sm sms IH]; [reflexivity|].
  cbn [flat_map]. rewrite length_app.
  pose proof (layout_submesh_least sm).
  unfold size in *. cbn [length]. lia.
Qed.

Lemma read_submeshes_app sms rest :
  Forall wf_SubMesh sms ->
  Forall (fun sm => size (bytes_of_name (name sm)) < 2 ^ 32) sms ->
  read_submeshes store (length sms)
    (mk_ifstream (flat_map layout_submesh sms ++ rest) false)
  = (Normal sms, mk_ifstream rest false).
Proof.
  intros Hwf. induction Hwf as [|sm sms Hsm _ IH]; intros Hn.
  - reflexivity.
  - inversion Hn as [|? ? Hn1 Hn2]; subst.
    cbn [length read_submeshes flat_map]. rewrite <- app_assoc.
    erewrite bindx_run by (apply read_submesh_app; assumption).
    erewrite bindx_run by (apply IH; assumption).
    reflexivity.
Qed.

Lemma read_data_app m mesh_hash w h rest :
  cacheable m ->
  read_data store
    (mk_Header LIGHTMAP_CACHE_MAGIC LIGHTMAP_CACHE_VERSION mesh_hash
       (size (m_vertices m)) (size (m_indices m)) (size (m_sub_meshes m)) w h)
    (mk_ifstream (layout_data m ++ rest) false)
  = (Normal (m_vertices m, m_indices m, m_sub_meshes m),
     mk_ifstream rest false).
Proof.
  intros ((Hv & Hi & Hs & _) & Hnv & Hni & Hns & Hnames).
  unfold read_data, layout_data. cbn [h_vertex_count h_index_count h_submesh_count].
  rewrite <- !app_assoc.
  erewrite bindx_run by (apply read_vertices_app; assumption).
  erewrite bindx_run by (apply read_indices_app; assumption).
  erewrite bindx_run.
  2:{ apply allocate_filled. cbn [file_bytes]. rewrite length_app.
      pose proof (layout_submeshes_least (m_sub_meshes m)). lia. }
  unfold size at 1. rewrite Nat2Z.id.
  erewrite bindx_run by (apply read_submeshes_app; assumption).
  reflexivity.
Qed.

(** A record written for [m] and [mesh_hash], followed by anything, is a
    cache hit for [mesh_hash] that adopts [m]. *)
Lemma load_layout_app m mesh_hash extra c m0 :
  cacheable m -> is_u64 mesh_hash ->
  load_lightmap_cache uninit store
    (mk_CacheFile (Some (layout m mesh_hash ++ extra)) c) mesh_hash m0
  = (adopted m, CacheLoaded).
Proof.
  intros Hc Hh. unfold load_lightmap_cache, layout. cbn [content].
  rewrite <- app_assoc, read_header_app by assumption.
  cbn [in_fail h_magic h_version h_stored_hash h_lightmap_width h_lightmap_height].
  rewrite !Z.eqb_refl. cbn [negb].
  rewrite read_data_app by assumption. reflexivity.
Qed.

End ReadBack.

(* ------------------------------------------------------------------ *)
(** ** Reading from a file that ends early

    Two facts about every reader of the codec: a stream that has failed
    stays failed ([sticky]); and a reader that gets through on [r ++ suf]
    either fails on [r] alone or does on [r] exactly what it did on
    [r ++ suf], leaving [suf] unread ([prefix_safe]). *)

Lemma sticky_ret {A} (a : A) : sticky (ret a).
Proof. intros f H. exact H. Qed.

Lemma sticky_bind {A B} (c : IS A) (k : A -> IS B) :
  sticky c -> (forall a, sticky (k a)) -> sticky (bind c k).
Proof.
  intros Hc Hk f Hf. unfold bind. specialize (Hc f Hf).
  destruct (c f) as [a f']. apply Hk. exact Hc.
Qed.

Lemma sticky_ifs_read n old : sticky (ifs_read n old).
Proof. intros f Hf. unfold ifs_read. rewrite Hf. exact Hf. Qed.

Lemma prefix_safe_ret {A} (a : A) : prefix_safe (ret a).
Proof.
  intros r suf a' r_full H. right. exists r. unfold ret in *.
  inversion H; subst. split; reflexivity.
Qed.

Lemma prefix_safe_bind {A B} (c : IS A) (k : A -> IS B) :
  prefix_safe c -> (forall a, sticky (k a)) -> (forall a, prefix_safe (k a)) ->
  prefix_safe (bind c k).
Proof.
  intros Hc Hs Hk r suf b r_full H. unfold bind in *.
  destruct (c (mk_ifstream (r ++ suf) false)) as [a [r1 b1]] eqn:Ec.
  destruct b1.
  - (* the run on the long input had failed in between *)
    pose proof (Hs a (mk_ifstream r1 true) eq_refl) as Hf.
    rewrite H in Hf. discriminate Hf.
  - destruct (Hc r suf a r1 Ec) as [Hfail | (r' & Er & ->)].
    + left. destruct (c (mk_ifstream r false)) as [a' f']. apply Hs. exact Hfail.
    + rewrite Er. apply Hk. exact H.
Qed.

Lemma prefix_safe_ifs_read n old : prefix_safe (ifs_read n old).
Proof.
  intros r suf a r_full H. unfold ifs_read in *. cbn [in_fail in_rest] in *.
  destruct (n <? 0) eqn:En; [inversion H|].
  apply Z.ltb_ge in En.
  destruct (n <=? Z.of_nat (length (r ++ suf))) eqn:El; [|inversion H].
  inversion H; subst; clear H.
  destruct (n <=? Z.of_nat (length r)) eqn:Er.
  - right. apply Z.leb_le in Er. exists (skipn (Z.to_nat n) r).
    assert (Hz : (Z.to_nat n - length r = 0)%nat) by lia.
    rewrite firstn_app, skipn_app, Hz. cbn [firstn skipn].
    now rewrite app_nil_r.
  - left. reflexivity.
Qed.

Ltac stream_props :=
  repeat (intros; cbv beta;
          first [ apply prefix_safe_bind | apply sticky_bind
                | apply prefix_safe_ret | apply sticky_ret
                | apply prefix_safe_ifs_read | apply sticky_ifs_read ]).

Lemma sticky_read_u32 old : sticky (read_u32 old).
Proof. unfold read_u32. stream_props. Qed.

Lemma sticky_read_u64 old : sticky (read_u64 old).
Proof. unfold read_u64. stream_props. Qed.

Lemma sticky_read_vec3 old : sticky (read_vec3 old).
Proof. unfold read_vec3. stream_props. Qed.

Lemma prefix_safe_read_u32 old : prefix_safe (read_u32 old).
Proof. unfold read_u32. stream_props. Qed.

Lemma prefix_safe_read_u64 old : prefix_safe (read_u64 old).
Proof. unfold read_u64. stream_props. Qed.

Lemma prefix_safe_read_vec3 old : prefix_safe (read_vec3 old).
Proof. unfold read_vec3. stream_props. Qed.

Ltac reader_props :=
  repeat (intros; cbv beta;
          first [ apply prefix_safe_bind | apply sticky_bind
                | apply prefix_safe_ret | apply sticky_ret
                | apply prefix_safe_ifs_read | apply sticky_ifs_read
                | apply prefix_safe_read_u32 | apply sticky_read_u32
                | apply prefix_safe_read_u64 | apply sticky_read_u64
                | apply prefix_safe_read_vec3 | apply sticky_read_vec3 ]).

Section Readers.

Variable uninit : nat -> Z.
Variable store : Request -> bool.

Lemma sticky_read_header : sticky (read_header uninit).
Proof. unfold read_header. reader_props. Qed.

Lemma prefix_safe_read_header : prefix_safe (read_header uninit).
Proof. unfold read_header. reader_props. Qed.

Lemma sticky_read_vertex_array n : sticky (read_vertex_array n).
Proof. unfold read_vertex_array. reader_props. Qed.

Lemma sticky_read_index_array n : sticky (read_index_array n).
Proof. unfold read_index_array. reader_props. Qed.

Lemma sticky_read_submesh_fields n : sticky (read_submesh_fields n).
Proof. unfold read_submesh_fields. reader_props. Qed.

Lemma sticky_lift {A} (c : IS A) : sticky c -> sticky (lift c).
Proof.
  intros Hc f Hf. unfold lift. specialize (Hc f Hf).
  destruct (c f) as [a f']. exact Hc.
Qed.

Lemma sticky_bindx {A B} (c : ISX A) (k : A -> ISX B) :
  sticky c -> (forall a, sticky (k a)) -> sticky (bindx c k).
Proof.
  intros Hc Hk f Hf. unfold bindx. specialize (Hc f Hf).
  destruct (c f) as [[a| |] f']; [apply Hk | |]; exact Hc.
Qed.

Lemma sticky_allocate r : sticky (allocate store r).
Proof.
  intros f Hf. unfold allocate.
  now destruct ((file_bytes r <=? Z.of_nat (length (in_rest f))) || store r).
Qed.

Lemma sticky_read_name_len : sticky read_name_len.
Proof.
  intros f Hf. unfold read_name_len.
  pose proof (sticky_read_u32 0 f Hf) as H.
  destruct (read_u32 0 f) as [v f']. cbn [snd] in H. now rewrite H.
Qed.

Lemma sticky_read_vertices n : sticky (read_vertices store n).
Proof.
  unfold read_vertices. apply sticky_bindx; [apply sticky_allocate|].
  intros _. apply sticky_lift, sticky_read_vertex_array.
Qed.

Lemma sticky_read_indices n : sticky (read_indices store n).
Proof.
  unfold read_indices. apply sticky_bindx; [apply sticky_allocate|].
  intros _. apply sticky_lift, sticky_read_index_array.
Qed.

Lemma sticky_read_submesh : sticky (read_submesh store).
Proof.
  unfold read_submesh. apply sticky_bindx; [apply sticky_read_name_len|].
  intros name_len. apply sticky_bindx; [apply sticky_allocate|].
  intros _. apply sticky_lift, sticky_read_submesh_fields.
Qed.

Lemma sticky_read_submeshes n : sticky (read_submeshes store n).
Proof.
  induction n as [|n IH]; cbn [read_submeshes].
  - apply sticky_lift, sticky_ret.
  - apply sticky_bindx; [apply sticky_read_submesh|]. intros sm.
    apply sticky_bindx; [apply IH|]. intros rest.
    apply sticky_lift, sticky_ret.
Qed.

End Readers.

(* ------------------------------------------------------------------ *)
(** ** The header *)

Lemma ifs_read_enough n old bs :
  (n <= length bs)%nat -> length old = n ->
  ifs_read (Z.of_nat n) old (mk_ifstream bs false)
  = (firstn n bs, mk_ifstream (skipn n bs) false).
Proof.
  intros Hn Ho. unfold ifs_read. cbn [in_fail in_rest].
  destruct (Z.of_nat n <? 0) eqn:E; [apply Z.ltb_lt in E; lia|].
  destruct (Z.of_nat n <=? Z.of_nat (length bs)) eqn:E';
    [|apply Z.leb_gt in E'; lia].
  rewrite Nat2Z.id. rewrite overlay_full; [reflexivity|].
  rewrite length_firstn. lia.
Qed.

Lemma read_u32_enough old bs :
  (4 <= length bs)%nat ->
  read_u32 old (mk_ifstream bs false)
  = (le_value (firstn 4 bs), mk_ifstream (skipn 4 bs) false).
Proof.
  intros H. unfold read_u32.
  erewrite bind_run
    by (apply (ifs_read_enough 4); [exact H | apply bytes_of_u32_length]).
  reflexivity.
Qed.

Lemma read_u64_enough old bs :
  (8 <= length bs)%nat ->
  read_u64 old (mk_ifstream bs false)
  = (le_value (firstn 8 bs), mk_ifstream (skipn 8 bs) false).
Proof.
  intros H. unfold read_u64.
  erewrite bind_run
    by (apply (ifs_read_enough 8); [exact H | apply bytes_of_u64_length]).
  reflexivity.
Qed.

Section HeaderFacts.

Variable uninit : nat -> Z.

(** With 36 bytes or more the header is read whole, each variable from its
    offset. *)
Lemma read_header_complete bytes :
  (36 <= length bytes)%nat ->
  read_header uninit (mk_ifstream bytes false)
  = (mk_Header (file_magic bytes) (file_version bytes) (file_hash bytes)
       (field 16 4 bytes) (field 20 4 bytes) (field 24 4 bytes)
       (field 28 4 bytes) (field 32 4 bytes),
     mk_ifstream (skipn 36 bytes) false).
Proof.
  intros H. unfold read_header, file_magic, file_version, file_hash, field.
  erewrite bind_run by (apply read_u32_enough; lia).
  erewrite bind_run by (apply read_u32_enough; rewrite ?length_skipn; lia).
  erewrite bind_run by (apply read_u64_enough; rewrite ?length_skipn; lia).
  do 5 (erewrite bind_run by (apply read_u32_enough; rewrite ?length_skipn; lia)).
  rewrite !skipn_skipn. reflexivity.
Qed.

(** With fewer than 36 bytes one of the eight reads comes up short. *)
Lemma read_header_short bytes :
  (length bytes < 36)%nat ->
  in_fail (snd (read_header uninit (mk_ifstream bytes false))) = true.
Proof.
  intros H.
  set (pad := repeat x00 (36 - length bytes)).
  assert (Hpad : length (bytes ++ pad) = 36%nat)
    by (unfold pad; rewrite length_app, repeat_length; lia).
  pose proof (read_header_complete (bytes ++ pad) ltac:(lia)) as Hfull.
  rewrite (skipn_all2 (bytes ++ pad)) in Hfull by lia.
  destruct (prefix_safe_read_header uninit _ _ _ _ Hfull)
    as [Hf | (r' & _ & Hr)]; [exact Hf|].
  symmetry in Hr. apply app_eq_nil in Hr. destruct Hr as [_ Hr].
  apply (f_equal (@length byte)) in Hr. unfold pad in Hr.
  rewrite repeat_length in Hr. change (length (@nil byte)) with 0%nat in Hr. lia.
Qed.

End HeaderFacts.

(* ------------------------------------------------------------------ *)
(** ** Decoding: validation, truncation, round trip *)

Section Decode.

Variable uninit : nat -> Z.
Variable store : Request -> bool.

(** Whatever the file, a load that does not end in [CacheLoaded] leaves
    the mesh as it was (as far as the mesh is known, see
    [load_lightmap_cache]). *)
Lemma load_failure_keeps_mesh file expected_hash m :
  load_ok (snd (load_lightmap_cache uninit store file expected_hash m)) = false ->
  fst (load_lightmap_cache uninit store file expected_hash m) = m.
Proof.
  unfold load_lightmap_cache.
  destruct (content file) as [bytes|]; [|reflexivity].
  destruct (read_header uninit (mk_ifstream bytes false)) as [hdr f1].
  destruct (in_fail f1); [reflexivity|].
  destruct (negb (h_magic hdr =? LIGHTMAP_CACHE_MAGIC)); [reflexivity|].
  destruct (negb (h_version hdr =? LIGHTMAP_CACHE_VERSION)); [reflexivity|].
  destruct (negb (h_stored_hash hdr =? expected_hash)); [reflexivity|].
  destruct (read_data store hdr f1) as [[[[vertices indices] submeshes]| |] f2];
    try reflexivity.
  destruct (in_fail f2); [reflexivity|]. cbn. discriminate.
Qed.

Lemma load_short_header bytes c expected_hash m :
  (length bytes < 36)%nat ->
  load_lightmap_cache uninit store (mk_CacheFile (Some bytes) c) expected_hash m
  = (m, ReadErrorHeader).
Proof.
  intros H. unfold load_lightmap_cache. cbn [content].
  pose proof (read_header_short uninit bytes H) as Hf.
  destruct (read_header uninit (mk_ifstream bytes false)) as [hdr f1].
  cbn [snd] in Hf. now rewrite Hf.
Qed.

End Decode.

Lemma save_writes_layout file s mesh_hash :
  cacheable s -> creatable file = true ->
  save_lightmap_cache file s mesh_hash
  = (mk_CacheFile (Some (layout s mesh_hash)) true, true).
Proof.
  intros Hc Hf. unfold save_lightmap_cache. rewrite Hf. cbn [negb].
  now rewrite write_cache_layout.
Qed.


(* ------------------------------------------------------------------ *)
(** ** Atlas consolidator *)

Section ConsolidateFacts.

Variable F : FloatOps.
Variable P : Packer.

(** [new_vertices] grows by one vertex for every vertex of the packer, each
    made from the vertex its back-reference names. *)
Lemma build_new_vertices_spec vertices atlas todo :
  forall new_vertices out,
    build_new_vertices F vertices atlas todo new_vertices = Some out ->
    exists made,
      out = new_vertices ++ made
      /\ Forall2
           (fun xvert nv =>
              exists old,
                nth_error vertices (Z.to_nat (xref xvert)) = Some old
                /\ nv = new_vert_of F old atlas xvert)
           todo made.
Proof.
  induction todo as [|xvert rest IH]; intros new_vertices out H; cbn in H.
  - inversion H; subst. exists []. split; [now rewrite app_nil_r | constructor].
  - destruct (nth_error vertices (Z.to_nat (xref xvert))) as [old|] eqn:E;
      [|discriminate].
    destruct (IH _ _ H) as (made & -> & Hmade).
    exists (new_vert_of F old atlas xvert :: made). split.
    + now rewrite <- app_assoc.
    + constructor; [exists old; split; [exact E | reflexivity] | exact Hmade].
Qed.

Lemma copy_indices_eq xmesh : copy_indices xmesh = indexArray xmesh.
Proof.
  unfold copy_indices.
  assert (G : forall l acc,
             fold_left (fun (new_indices : list Z) i => new_indices ++ [i]) l acc
             = acc ++ l).
  { induction l as [|i l IH]; intros acc; cbn [fold_left].
    - now rewrite app_nil_r.
    - rewrite IH, <- app_assoc. reflexivity. }
  apply G.
Qed.

Lemma rebase_sub_meshes_length sub_meshes :
  forall current_index nv,
    length (rebase_sub_meshes sub_meshes current_index nv) = length sub_meshes.
Proof.
  induction sub_meshes as [|sm rest IH]; intros; cbn; [reflexivity|].
  now rewrite IH.
Qed.

Lemma rebase_sub_meshes_index_total sub_meshes :
  forall current_index nv,
    index_total (rebase_sub_meshes sub_meshes current_index nv)
    = index_total sub_meshes.
Proof.
  induction sub_meshes as [|sm rest IH]; intros; cbn; [reflexivity|].
  unfold index_total in IH. now rewrite IH.
Qed.

(** The [i]-th submesh after the loop started at [current_index]. *)
Lemma rebase_sub_meshes_nth sub_meshes :
  forall i current_index nv sm,
    to_u32 current_index = current_index ->
    nth_error sub_meshes i = Some sm ->
    nth_error (rebase_sub_meshes sub_meshes current_index nv) i
    = Some (mk_SubMesh (name sm) (mat_idx sm) (index_count sm) 0
              (to_u32 (current_index + index_total (firstn i sub_meshes)))
              (to_u32 nv) (max_extents sm) (min_extents sm)).
Proof.
  induction sub_meshes as [|s rest IH]; intros i current_index nv sm Hc Hi.
  - destruct i; discriminate Hi.
  - destruct i as [|i].
    + cbn in Hi. inversion Hi; subst. cbn. now rewrite Z.add_0_r, Hc.
    + cbn [nth_error] in Hi. cbn [rebase_sub_meshes nth_error].
      rewrite (IH i _ nv sm); [|apply Z.mod_mod; lia | exact Hi].
      cbn [firstn index_total fold_right]. fold (index_total (firstn i rest)).
      do 2 f_equal. unfold to_u32.
      rewrite Zplus_mod_idemp_l. f_equal. lia.
Qed.

(** What a successful run went through. *)
Lemma generate_success m m' :
  generate_lightmap_uvs F P m = Some (m', true) ->
  let atlas := xatlas_Generate P (mesh_decl_of m) in
  exists xmesh new_vertices,
    meshes atlas = [xmesh]
    /\ build_new_vertices F (m_vertices m) atlas (vertexArray xmesh) []
       = Some new_vertices
    /\ m' = mk_Mesh new_vertices (indexArray xmesh)
              (rebase_sub_meshes (m_sub_meshes m) 0 (size new_vertices))
              (width atlas) (height atlas) true.
Proof.
  intros H atlas. unfold generate_lightmap_uvs in H. fold atlas in H.
  destruct (empty (m_vertices m) || empty (m_indices m)); [discriminate|].
  destruct (negb (AddMeshError_eqb (xatlas_AddMesh P (mesh_decl_of m)) Success));
    [discriminate|].
  destruct ((width atlas =? 0) || (height atlas =? 0)); [discriminate|].
  destruct (negb (meshCount atlas =? 1)) eqn:Ec; [discriminate|].
  apply negb_false_iff, Z.eqb_eq in Ec. unfold meshCount, size in Ec.
  destruct (meshes atlas) as [|xmesh [|x2 more]] eqn:Em;
    cbn [length] in Ec; try lia.
  cbn [nth_error m_vertices m_sub_meshes m_lightmap_width m_lightmap_height] in H.
  destruct (build_new_vertices F (m_vertices m) atlas (vertexArray xmesh) [])
    as [new_vertices|] eqn:Eb; [|discriminate].
  rewrite copy_indices_eq in H. inversion H; subst.
  exists xmesh, new_vertices. repeat split. exact Eb.
Qed.

(** What a failing run leaves: the mesh itself, or the mesh with the atlas
    dimensions stored. *)
Lemma generate_failure m m' :
  generate_lightmap_uvs F P m = Some (m', false) ->
  let atlas := xatlas_Generate P (mesh_decl_of m) in
  m' = m
  \/ (meshCount atlas <> 1
      /\ m' = mk_Mesh (m_vertices m) (m_indices m) (m_sub_meshes m)
                (width atlas) (height atlas) (m_has_lightmap_uvs m)).
Proof.
  intros H atlas. unfold generate_lightmap_uvs in H. fold atlas in H.
  destruct (empty (m_vertices m) || empty (m_indices m));
    [inversion H; now left|].
  destruct (negb (AddMeshError_eqb (xatlas_AddMesh P (mesh_decl_of m)) Success));
    [inversion H; now left|].
  destruct ((width atlas =? 0) || (height atlas =? 0));
    [inversion H; now left|].
  destruct (negb (meshCount atlas =? 1)) eqn:Ec.
  - inversion H; subst. right. split; [|reflexivity].
    apply negb_true_iff, Z.eqb_neq in Ec. exact Ec.
  - destruct (nth_error (meshes atlas) 0) as [xmesh|]; [|discriminate].
    destruct (build_new_vertices F _ atlas (vertexArray xmesh) []);
      discriminate.
Qed.

End ConsolidateFacts.

(** A save that reports success wrote the layout, and the counts were
    below 2^31. *)
Lemma save_true_layout file file' s mesh_hash :
  representable s ->
  save_lightmap_cache file s mesh_hash = (file', true) ->
  cacheable s /\ file' = mk_CacheFile (Some (layout s mesh_hash)) true.
Proof.
  intros Hr Hsave. unfold save_lightmap_cache in Hsave.
  destruct (creatable file) eqn:Hf; cbn [negb] in Hsave; [|discriminate Hsave].
  destruct (out_fail (write_cache s mesh_hash (mk_ofstream [] false))) eqn:Hok;
    cbn [negb] in Hsave; [discriminate Hsave|].
  destruct (write_cache_ok_counts s mesh_hash Hr Hok) as (Hv & Hi).
  pose proof (representable_cacheable s Hr Hv Hi) as Hc.
  rewrite (write_cache_layout s mesh_hash Hc) in Hsave. cbn [out_bytes] in Hsave.
  injection Hsave as Hfile. now split.
Qed.

Lemma layout_header_length m mesh_hash :
  length (layout_header m mesh_hash) = 36%nat.
Proof.
  unfold layout_header.
  now rewrite !length_app, !bytes_of_u32_length, bytes_of_u64_length.
Qed.

Lemma file_hash_layout (uninit : nat -> Z) m mesh_hash :
  cacheable m -> is_u64 mesh_hash -> file_hash (layout m mesh_hash) = mesh_hash.
Proof.
  intros Hc Hh.
  pose proof (read_header_app uninit m mesh_hash (layout_data m) Hc Hh) as H1.
  fold (layout m mesh_hash) in H1.
  rewrite read_header_complete in H1.
  - apply (f_equal (fun r => h_stored_hash (fst r))) in H1. exact H1.
  - unfold layout. rewrite length_app, layout_header_length. lia.
Qed.

(* ------------------------------------------------------------------ *)
(** ** Cache codec: what a file that loads must look like *)

Lemma layout_submesh_length sm :
  Z.of_nat (length (layout_submesh sm)) = submesh_record_size sm.
Proof.
  unfold layout_submesh, submesh_record_size, size.
  rewrite !length_app, !bytes_of_u32_length, !bytes_of_vec3_length. lia.
Qed.

Lemma layout_length m mesh_hash :
  Z.of_nat (length (layout m mesh_hash)) = record_size m.
Proof.
  unfold layout, layout_data, record_size, size, sizeof_Vertex, sizeof_uint32_t.
  rewrite !length_app, layout_header_length, bytes_of_vertices_length,
    bytes_of_indices_length.
  assert (H : Z.of_nat (length (flat_map layout_submesh (m_sub_meshes m)))
              = fold_right (fun sm acc => submesh_record_size sm + acc) 0
                  (m_sub_meshes m)).
  { induction (m_sub_meshes m) as [|sm sms IH]; [reflexivity|].
    cbn [flat_map fold_right]. rewrite length_app, Nat2Z.inj_add, IH.
    now rewrite layout_submesh_length. }
  lia.
Qed.

(** Going back from a reader that got through to what it read. *)
Lemma bind_inv {A B} (c : IS A) (k : A -> IS B) r b r2 :
  (forall a, sticky (k a)) ->
  bind c k (mk_ifstream r false) = (b, mk_ifstream r2 false) ->
  exists a r1,
    c (mk_ifstream r false) = (a, mk_ifstream r1 false)
    /\ k a (mk_ifstream r1 false) = (b, mk_ifstream r2 false).
Proof.
  intros Hs H. unfold bind in H.
  destruct (c (mk_ifstream r false)) as [a [r1 b1]] eqn:Ec.
  destruct b1.
  - pose proof (Hs a (mk_ifstream r1 true) eq_refl) as Hf.
    rewrite H in Hf. discriminate Hf.
  - now exists a, r1.
Qed.

Lemma ifs_read_inv n old r a r' :
  ifs_read n old (mk_ifstream r false) = (a, mk_ifstream r' false) ->
  0 <= n <= Z.of_nat (length r)
  /\ a = overlay (firstn (Z.to_nat n) r) old
  /\ r' = skipn (Z.to_nat n) r.
Proof.
  unfold ifs_read. cbn [in_fail in_rest].
  destruct (n <? 0) eqn:En; [intros H; inversion H|].
  destruct (n <=? Z.of_nat (length r)) eqn:El; [|intros H; inversion H].
  apply Z.ltb_ge in En. apply Z.leb_le in El.
  intros H. inversion H; subst. repeat split; assumption.
Qed.

(** A read of exactly the size of its destination. *)
Lemma ifs_read_inv_exact n old r a r' :
  n = Z.of_nat (length old) ->
  ifs_read n old (mk_ifstream r false) = (a, mk_ifstream r' false) ->
  r = a ++ r' /\ length a = length old.
Proof.
  intros Hn H. apply ifs_read_inv in H. destruct H as (Hr & -> & ->).
  subst n. rewrite Nat2Z.id in *.
  assert (Hl : length (firstn (length old) r) = length old)
    by (rewrite length_firstn; lia).
  rewrite overlay_full by exact Hl.
  split; [symmetry; apply firstn_skipn | exact Hl].
Qed.

Lemma le_value_u32 bs : length bs = 4%nat -> is_u32 (le_value bs).
Proof.
  intros H. pose proof (le_value_range bs) as Hr. rewrite H in Hr.
  exact Hr.
Qed.

Lemma read_u32_inv old r v r' :
  read_u32 old (mk_ifstream r false) = (v, mk_ifstream r' false) ->
  r = bytes_of_u32 v ++ r' /\ is_u32 v.
Proof.
  unfold read_u32. intros H.
  apply bind_inv in H; [|intros; apply sticky_ret].
  destruct H as (buf & r1 & Hread & Hret). unfold ret in Hret.
  inversion Hret; subst.
  apply ifs_read_inv_exact in Hread; [|now rewrite bytes_of_u32_length].
  destruct Hread as (-> & Hl). rewrite bytes_of_u32_length in Hl.
  split; [|now apply le_value_u32].
  unfold bytes_of_u32. rewrite <- Hl at 1. now rewrite le_bytes_value.
Qed.

Lemma read_u64_inv old r v r' :
  read_u64 old (mk_ifstream r false) = (v, mk_ifstream r' false) ->
  r = bytes_of_u64 v ++ r' /\ is_u64 v.
Proof.
  unfold read_u64. intros H.
  apply bind_inv in H; [|intros; apply sticky_ret].
  destruct H as (buf & r1 & Hread & Hret). unfold ret in Hret.
  inversion Hret; subst.
  apply ifs_read_inv_exact in Hread; [|now rewrite bytes_of_u64_length].
  destruct Hread as (-> & Hl). rewrite bytes_of_u64_length in Hl.
  split.
  - unfold bytes_of_u64. rewrite <- Hl at 1. now rewrite le_bytes_value.
  - pose proof (le_value_range buf) as Hr. rewrite Hl in Hr. exact Hr.
Qed.

(** Memory read as an object, and the object as memory again. *)
Lemma get_u32_inv bs :
  (4 <= length bs)%nat ->
  bytes_of_u32 (fst (get_u32 bs)) ++ snd (get_u32 bs) = bs
  /\ is_u32 (fst (get_u32 bs))
  /\ length (snd (get_u32 bs)) = (length bs - 4)%nat.
Proof.
  intros H. unfold get_u32. cbn [fst snd].
  assert (Hl : length (firstn 4 bs) = 4%nat) by (rewrite length_firstn; lia).
  split; [|split].
  - unfold bytes_of_u32. rewrite <- Hl at 1.
    rewrite le_bytes_value. apply firstn_skipn.
  - now apply le_value_u32.
  - apply length_skipn.
Qed.

Lemma get_vec3_inv bs :
  (12 <= length bs)%nat ->
  bytes_of_vec3 (fst (get_vec3 bs)) ++ snd (get_vec3 bs) = bs
  /\ wf_vec3 (fst (get_vec3 bs))
  /\ length (snd (get_vec3 bs)) = (length bs - 12)%nat.
Proof.
  intros H. unfold get_vec3.
  destruct (get_u32 bs) as [a b1] eqn:E1.
  destruct (get_u32_inv bs ltac:(lia)) as (A1 & A2 & A3). rewrite E1 in *.
  cbn [fst snd] in *.
  destruct (get_u32 b1) as [b b2] eqn:E2.
  destruct (get_u32_inv b1 ltac:(lia)) as (B1 & B2 & B3). rewrite E2 in *.
  cbn [fst snd] in *.
  destruct (get_u32 b2) as [c b3] eqn:E3.
  destruct (get_u32_inv b2 ltac:(lia)) as (C1 & C2 & C3). rewrite E3 in *.
  cbn [fst snd] in *.
  unfold bytes_of_vec3, wf_vec3. cbn [x3 y3 z3].
  split; [|split; [exact (conj A2 (conj B2 C2)) | lia]].
  rewrite <- !app_assoc, C1, B1, A1. reflexivity.
Qed.

Lemma get_vec4_inv bs :
  (16 <= length bs)%nat ->
  bytes_of_vec4 (fst (get_vec4 bs)) ++ snd (get_vec4 bs) = bs
  /\ wf_vec4 (fst (get_vec4 bs))
  /\ length (snd (get_vec4 bs)) = (length bs - 16)%nat.
Proof.
  intros H. unfold get_vec4.
  destruct (get_u32 bs) as [a b1] eqn:E1.
  destruct (get_u32_inv bs ltac:(lia)) as (A1 & A2 & A3). rewrite E1 in *.
  cbn [fst snd] in *.
  destruct (get_u32 b1) as [b b2] eqn:E2.
  destruct (get_u32_inv b1 ltac:(lia)) as (B1 & B2 & B3). rewrite E2 in *.
  cbn [fst snd] in *.
  destruct (get_u32 b2) as [c b3] eqn:E3.
  destruct (get_u32_inv b2 ltac:(lia)) as (C1 & C2 & C3). rewrite E3 in *.
  cbn [fst snd] in *.
  destruct (get_u32 b3) as [d b4] eqn:E4.
  destruct (get_u32_inv b3 ltac:(lia)) as (D1 & D2 & D3). rewrite E4 in *.
  cbn [fst snd] in *.
  unfold bytes_of_vec4, wf_vec4. cbn [vx vy vz vw].
  split; [|split; [exact (conj A2 (conj B2 (conj C2 D2))) | lia]].
  rewrite <- !app_assoc, D1, C1, B1, A1. reflexivity.
Qed.

Lemma get_Vertex_inv bs :
  (96 <= length bs)%nat ->
  bytes_of_Vertex (fst (get_Vertex bs)) ++ snd (get_Vertex bs) = bs
  /\ wf_Vertex (fst (get_Vertex bs))
  /\ length (snd (get_Vertex bs)) = (length bs - 96)%nat.
Proof.
  intros H. unfold get_Vertex.
  destruct (get_vec4 bs) as [p b1] eqn:E1.
  destruct (get_vec4_inv bs ltac:(lia)) as (P1 & P2 & P3). rewrite E1 in *.
  cbn [fst snd] in *.
  destruct (get_vec4 b1) as [t b2] eqn:E2.
  destruct (get_vec4_inv b1 ltac:(lia)) as (T1 & T2 & T3). rewrite E2 in *.
  cbn [fst snd] in *.
  destruct (get_vec4 b2) as [l b3] eqn:E3.
  destruct (get_vec4_inv b2 ltac:(lia)) as (L1 & L2 & L3). rewrite E3 in *.
  cbn [fst snd] in *.
  destruct (get_vec4 b3) as [n b4] eqn:E4.
  destruct (get_vec4_inv b3 ltac:(lia)) as (N1 & N2 & N3). rewrite E4 in *.
  cbn [fst snd] in *.
  destruct (get_vec4 b4) as [tg b5] eqn:E5.
  destruct (get_vec4_inv b4 ltac:(lia)) as (G1 & G2 & G3). rewrite E5 in *.
  cbn [fst snd] in *.
  destruct (get_vec4 b5) as [bt b6] eqn:E6.
  destruct (get_vec4_inv b5 ltac:(lia)) as (B1 & B2 & B3). rewrite E6 in *.
  cbn [fst snd] in *.
  unfold bytes_of_Vertex, wf_Vertex.
  cbn [position tex_coord lightmap_tex_coord normal tangent bitangent].
  split; [|split; [exact (conj P2 (conj T2 (conj L2 (conj N2 (conj G2 B2))))) | lia]].
  rewrite <- !app_assoc, B1, G1, N1, L1, T1, P1. reflexivity.
Qed.

Lemma vertices_of_bytes_inv n :
  forall bs,
    length bs = (96 * n)%nat ->
    bytes_of_vertices (vertices_of_bytes n bs) = bs
    /\ Forall wf_Vertex (vertices_of_bytes n bs)
    /\ length (vertices_of_bytes n bs) = n.
Proof.
  induction n as [|n IH]; intros bs Hl.
  - destruct bs; [|discriminate Hl]. cbn. repeat split. constructor.
  - cbn [vertices_of_bytes].
    destruct (get_Vertex_inv bs ltac:(lia)) as (E & W & L).
    destruct (get_Vertex bs) as [v r]. cbn [fst snd] in *.
    destruct (IH r ltac:(lia)) as (E' & W' & L').
    cbn [bytes_of_vertices flat_map length].
    fold (bytes_of_vertices (vertices_of_bytes n r)).
    rewrite E', E, L'. repeat split. now constructor.
Qed.

Lemma indices_of_bytes_inv n :
  forall bs,
    length bs = (4 * n)%nat ->
    bytes_of_indices (indices_of_bytes n bs) = bs
    /\ Forall is_u32 (indices_of_bytes n bs)
    /\ length (indices_of_bytes n bs) = n.
Proof.
  induction n as [|n IH]; intros bs Hl.
  - destruct bs; [|discriminate Hl]. cbn. repeat split. constructor.
  - cbn [indices_of_bytes].
    destruct (get_u32_inv bs ltac:(lia)) as (E & W & L).
    destruct (get_u32 bs) as [v r]. cbn [fst snd] in *.
    destruct (IH r ltac:(lia)) as (E' & W' & L').
    cbn [bytes_of_indices flat_map length].
    fold (bytes_of_indices (indices_of_bytes n r)).
    rewrite E', E, L'. split; [reflexivity | split; [now constructor | reflexivity]].
Qed.

Lemma ret_inv {A} (a b : A) f f' : ret a f = (b, f') -> a = b /\ f = f'.
Proof.
  unfold ret. intros H. split; [exact (f_equal fst H) | exact (f_equal snd H)].
Qed.

Lemma read_vec3_inv old r v r' :
  read_vec3 old (mk_ifstream r false) = (v, mk_ifstream r' false) ->
  r = bytes_of_vec3 v ++ r' /\ wf_vec3 v.
Proof.
  unfold read_vec3. intros H.
  apply bind_inv in H; [|intros; apply sticky_ret].
  destruct H as (buf & r1 & Hread & Hret).
  apply ret_inv in Hret. destruct Hret as [<- Hf]. injection Hf as <-.
  apply ifs_read_inv_exact in Hread; [|now rewrite bytes_of_vec3_length].
  destruct Hread as (-> & Hl). rewrite bytes_of_vec3_length in Hl.
  destruct (get_vec3_inv buf ltac:(lia)) as (E & W & L).
  split; [|exact W].
  assert (Hnil : snd (get_vec3 buf) = [])
    by (apply length_zero_iff_nil; lia).
  rewrite Hnil, app_nil_r in E. now rewrite E.
Qed.

Lemma array_bytes_nonneg_inv count elem_size :
  is_u32 count -> 0 < elem_size <= 96 ->
  0 <= array_bytes count elem_size ->
  count < 2 ^ 31 /\ array_bytes count elem_size = count * elem_size.
Proof.
  intros Hc He Hn. destruct (Z.lt_ge_cases count (2 ^ 31)) as [Hs | Hl].
  - split; [exact Hs|]. apply array_bytes_small; unfold is_u32 in Hc; lia.
  - unfold is_u32 in Hc.
    destruct (array_bytes_int32_wraps count elem_size ltac:(lia) He). lia.
Qed.

Lemma bindx_inv {A B} (c : ISX A) (k : A -> ISX B) r b r2 :
  (forall a, sticky (k a)) ->
  bindx c k (mk_ifstream r false) = (Normal b, mk_ifstream r2 false) ->
  exists a r1,
    c (mk_ifstream r false) = (Normal a, mk_ifstream r1 false)
    /\ k a (mk_ifstream r1 false) = (Normal b, mk_ifstream r2 false).
Proof.
  intros Hs H. unfold bindx in H.
  destruct (c (mk_ifstream r false)) as [[a| |] [r1 b1]] eqn:Ec;
    try discriminate H.
  destruct b1.
  - pose proof (Hs a (mk_ifstream r1 true) eq_refl) as Hf.
    rewrite H in Hf. discriminate Hf.
  - now exists a, r1.
Qed.

Lemma lift_inv {A} (c : IS A) f a f' :
  lift c f = (Normal a, f') -> c f = (a, f').
Proof.
  unfold lift. destruct (c f) as [a0 f0]. intros H.
  injection H as <- <-. reflexivity.
Qed.

Section ReadInversion.

Variable uninit : nat -> Z.
Variable store : Request -> bool.

Lemma allocate_inv r f u f' :
  allocate store r f = (Normal u, f') -> f' = f.
Proof.
  unfold allocate.
  destruct ((file_bytes r <=? Z.of_nat (length (in_rest f))) || store r);
    intros H; [now injection H | discriminate H].
Qed.

Lemma read_name_len_inv r v r' :
  read_name_len (mk_ifstream r false) = (Normal v, mk_ifstream r' false) ->
  r = bytes_of_u32 v ++ r' /\ is_u32 v.
Proof.
  unfold read_name_len. intros H.
  destruct (read_u32 0 (mk_ifstream r false)) as [v0 [r0 b0]] eqn:E.
  cbn [in_fail] in H. destruct b0; [discriminate H|].
  injection H as <- <-. now apply read_u32_inv in E.
Qed.

Lemma read_vertex_array_inv vertex_count r vs r' :
  is_u32 vertex_count ->
  read_vertex_array vertex_count (mk_ifstream r false)
  = (vs, mk_ifstream r' false) ->
  r = bytes_of_vertices vs ++ r'
  /\ Forall wf_Vertex vs /\ size vs = vertex_count /\ vertex_count < 2 ^ 31.
Proof.
  intros Hc H. unfold read_vertex_array in H.
  apply bind_inv in H; [|intros; apply sticky_ret].
  destruct H as (buf & r1 & Hread & Hret).
  apply ret_inv in Hret. destruct Hret as [<- Hf]. injection Hf as <-.
  pose proof (ifs_read_inv _ _ _ _ _ Hread) as (Hn & _ & _).
  destruct (array_bytes_nonneg_inv vertex_count sizeof_Vertex Hc
              ltac:(unfold sizeof_Vertex; lia) ltac:(lia)) as (Hlt & Hb).
  rewrite Hb in Hread.
  apply ifs_read_inv_exact in Hread;
    [|rewrite zeros_length; unfold is_u32, sizeof_Vertex in *; lia].
  destruct Hread as (-> & Hl). rewrite zeros_length in Hl.
  destruct (vertices_of_bytes_inv (Z.to_nat vertex_count) buf) as (E & W & L).
  { rewrite Hl. unfold is_u32, sizeof_Vertex in *. lia. }
  rewrite E. repeat split; try assumption.
  unfold size. rewrite L. unfold is_u32 in Hc. lia.
Qed.

Lemma read_index_array_inv index_count r l r' :
  is_u32 index_count ->
  read_index_array index_count (mk_ifstream r false)
  = (l, mk_ifstream r' false) ->
  r = bytes_of_indices l ++ r'
  /\ Forall is_u32 l /\ size l = index_count /\ index_count < 2 ^ 31.
Proof.
  intros Hc H. unfold read_index_array in H.
  apply bind_inv in H; [|intros; apply sticky_ret].
  destruct H as (buf & r1 & Hread & Hret).
  apply ret_inv in Hret. destruct Hret as [<- Hf]. injection Hf as <-.
  pose proof (ifs_read_inv _ _ _ _ _ Hread) as (Hn & _ & _).
  destruct (array_bytes_nonneg_inv index_count sizeof_uint32_t Hc
              ltac:(unfold sizeof_uint32_t; lia) ltac:(lia)) as (Hlt & Hb).
  rewrite Hb in Hread.
  apply ifs_read_inv_exact in Hread;
    [|rewrite zeros_length; unfold is_u32, sizeof_uint32_t in *; lia].
  destruct Hread as (-> & Hl). rewrite zeros_length in Hl.
  destruct (indices_of_bytes_inv (Z.to_nat index_count) buf) as (E & W & L).
  { rewrite Hl. unfold is_u32, sizeof_uint32_t in *. lia. }
  rewrite E. repeat split; try assumption.
  unfold size. rewrite L. unfold is_u32 in Hc. lia.
Qed.

Ltac sticky_props :=
  repeat (intros; cbv beta;
          first [ apply sticky_read_submeshes | apply sticky_read_submesh
                | apply sticky_read_vertices | apply sticky_read_indices
                | apply sticky_allocate | apply sticky_read_name_len
                | apply sticky_bindx | apply sticky_lift
                | apply sticky_read_submesh_fields
                | apply sticky_read_vertex_array
                | apply sticky_read_index_array
                | apply sticky_bind
                | apply sticky_ret | apply sticky_ifs_read
                | apply sticky_read_u32 | apply sticky_read_u64
                | apply sticky_read_vec3 ]).

Ltac open_bind H x r1 Hx :=
  apply bind_inv in H;
  [ destruct H as (x & r1 & Hx & H) | solve [sticky_props] ].

Ltac open_bindx H x r1 Hx :=
  apply bindx_inv in H;
  [ destruct H as (x & r1 & Hx & H) | solve [sticky_props] ].

Lemma read_vertices_inv vertex_count r vs r' :
  is_u32 vertex_count ->
  read_vertices store vertex_count (mk_ifstream r false)
  = (Normal vs, mk_ifstream r' false) ->
  r = bytes_of_vertices vs ++ r'
  /\ Forall wf_Vertex vs /\ size vs = vertex_count /\ vertex_count < 2 ^ 31.
Proof.
  intros Hc H. unfold read_vertices in H.
  open_bindx H u r1 Ha. apply allocate_inv in Ha. injection Ha as <-.
  apply lift_inv in H. now apply read_vertex_array_inv in H.
Qed.

Lemma read_indices_inv index_count r l r' :
  is_u32 index_count ->
  read_indices store index_count (mk_ifstream r false)
  = (Normal l, mk_ifstream r' false) ->
  r = bytes_of_indices l ++ r'
  /\ Forall is_u32 l /\ size l = index_count /\ index_count < 2 ^ 31.
Proof.
  intros Hc H. unfold read_indices in H.
  open_bindx H u r1 Ha. apply allocate_inv in Ha. injection Ha as <-.
  apply lift_inv in H. now apply read_index_array_inv in H.
Qed.

Lemma read_submesh_inv r sm r' :
  read_submesh store (mk_ifstream r false) = (Normal sm, mk_ifstream r' false) ->
  r = layout_submesh sm ++ r'
  /\ wf_SubMesh sm
  /\ size (bytes_of_name (name sm)) < 2 ^ 32.
Proof.
  unfold read_submesh. intros H.
  open_bindx H name_len r1 H1. open_bindx H u r1' Ha.
  apply allocate_inv in Ha. injection Ha as <-.
  apply lift_inv in H. unfold read_submesh_fields in H.
  open_bind H nm r2 H2.
  open_bind H mat r3 H3. open_bind H ic r4 H4. open_bind H bv r5 H5.
  open_bind H bi r6 H6. open_bind H vc r7 H7.
  open_bind H mx r8 H8. open_bind H mn r9 H9.
  apply ret_inv in H. destruct H as [<- Hf]. injection Hf as <-.
  apply read_name_len_inv in H1.
  apply read_u32_inv in H3, H4, H5, H6, H7.
  apply read_vec3_inv in H8, H9.
  destruct H1 as (-> & U1). destruct H3 as (-> & U3). destruct H4 as (-> & U4).
  destruct H5 as (-> & U5). destruct H6 as (-> & U6). destruct H7 as (-> & U7).
  destruct H8 as (-> & U8). destruct H9 as (-> & U9).
  apply ifs_read_inv_exact in H2;
    [|rewrite zeros_length; unfold is_u32 in U1; lia].
  destruct H2 as (-> & Hl). rewrite zeros_length in Hl.
  assert (Hname : bytes_of_name (String.string_of_list_byte nm) = nm)
    by apply String.list_byte_of_string_of_list_byte.
  assert (Hsize : size (bytes_of_name (String.string_of_list_byte nm)) = name_len)
    by (rewrite Hname; unfold size; rewrite Hl; unfold is_u32 in U1; lia).
  unfold layout_submesh, wf_SubMesh.
  cbn [name mat_idx index_count base_vertex base_index vertex_count
       max_extents min_extents].
  rewrite Hsize, Hname. split; [|split].
  - now rewrite <- !app_assoc.
  - exact (conj U3 (conj U4 (conj U5 (conj U6 (conj U7 (conj U8 U9)))))).
  - apply U1.
Qed.

Lemma read_submeshes_inv n :
  forall r sms r',
    read_submeshes store n (mk_ifstream r false)
    = (Normal sms, mk_ifstream r' false) ->
    r = flat_map layout_submesh sms ++ r'
    /\ Forall wf_SubMesh sms
    /\ Forall (fun sm => size (bytes_of_name (name sm)) < 2 ^ 32) sms
    /\ length sms = n.
Proof.
  induction n as [|n IH]; intros r sms r' H; cbn [read_submeshes] in H.
  - apply lift_inv, ret_inv in H. destruct H as [<- Hf]. injection Hf as <-.
    repeat split; constructor.
  - open_bindx H sm r1 H1. open_bindx H rest r2 H2.
    apply lift_inv, ret_inv in H. destruct H as [<- Hf]. injection Hf as <-.
    apply read_submesh_inv in H1. destruct H1 as (-> & W & N).
    apply IH in H2. destruct H2 as (-> & Ws & Ns & L).
    cbn [flat_map length]. rewrite <- app_assoc.
    split; [reflexivity|]. split; [now constructor|].
    split; [now constructor | now rewrite L].
Qed.

Lemma read_header_inv r hdr r' :
  read_header uninit (mk_ifstream r false) = (hdr, mk_ifstream r' false) ->
  r = bytes_of_u32 (h_magic hdr) ++ bytes_of_u32 (h_version hdr)
      ++ bytes_of_u64 (h_stored_hash hdr)
      ++ bytes_of_u32 (h_vertex_count hdr) ++ bytes_of_u32 (h_index_count hdr)
      ++ bytes_of_u32 (h_submesh_count hdr)
      ++ bytes_of_u32 (h_lightmap_width hdr)
      ++ bytes_of_u32 (h_lightmap_height hdr) ++ r'
  /\ is_u64 (h_stored_hash hdr)
  /\ is_u32 (h_vertex_count hdr) /\ is_u32 (h_index_count hdr)
  /\ is_u32 (h_submesh_count hdr)
  /\ is_u32 (h_lightmap_width hdr) /\ is_u32 (h_lightmap_height hdr).
Proof.
  unfold read_header. intros H.
  open_bind H magic r1 H1. open_bind H version r2 H2.
  open_bind H stored r3 H3. open_bind H vc r4 H4. open_bind H ic r5 H5.
  open_bind H sc r6 H6. open_bind H w r7 H7. open_bind H h r8 H8.
  apply ret_inv in H. destruct H as [<- Hf]. injection Hf as <-.
  apply read_u32_inv in H1, H2, H4, H5, H6, H7, H8.
  apply read_u64_inv in H3.
  destruct H1 as (-> & _). destruct H2 as (-> & _). destruct H3 as (-> & U3).
  destruct H4 as (-> & U4). destruct H5 as (-> & U5). destruct H6 as (-> & U6).
  destruct H7 as (-> & U7). destruct H8 as (-> & U8).
  cbn [h_magic h_version h_stored_hash h_vertex_count h_index_count
       h_submesh_count h_lightmap_width h_lightmap_height].
  split; [reflexivity|].
  exact (conj U3 (conj U4 (conj U5 (conj U6 (conj U7 U8))))).
Qed.

Lemma read_data_inv hdr r vs l sms r' :
  is_u32 (h_vertex_count hdr) -> is_u32 (h_index_count hdr) ->
  is_u32 (h_submesh_count hdr) ->
  read_data store hdr (mk_ifstream r false)
  = (Normal (vs, l, sms), mk_ifstream r' false) ->
  r = bytes_of_vertices vs ++ bytes_of_indices l
      ++ flat_map layout_submesh sms ++ r'
  /\ Forall wf_Vertex vs /\ Forall is_u32 l /\ Forall wf_SubMesh sms
  /\ Forall (fun sm => size (bytes_of_name (name sm)) < 2 ^ 32) sms
  /\ size vs = h_vertex_count hdr /\ size l = h_index_count hdr
  /\ size sms = h_submesh_count hdr
  /\ size vs < 2 ^ 31 /\ size l < 2 ^ 31.
Proof.
  intros Uv Ui Us H. unfold read_data in H.
  open_bindx H vs0 r1 H1. open_bindx H l0 r2 H2.
  open_bindx H u r2' Ha. apply allocate_inv in Ha. injection Ha as <-.
  open_bindx H sms0 r3 H3.
  apply lift_inv, ret_inv in H. destruct H as [Hv Hf]. injection Hf as <-.
  injection Hv as <- <- <-.
  apply read_vertices_inv in H1; [|exact Uv].
  apply read_indices_inv in H2; [|exact Ui].
  apply read_submeshes_inv in H3.
  destruct H1 as (-> & Wv & Sv & Lv). destruct H2 as (-> & Wi & Si & Li).
  destruct H3 as (-> & Ws & Ns & Ls).
  assert (Hs : size sms0 = h_submesh_count hdr)
    by (unfold size; rewrite Ls; unfold is_u32 in Us; lia).
  repeat (split; [first [reflexivity | assumption | lia]|]). lia.
Qed.

(** What was read can be written again: a file that is a cache hit begins
    with the layout of the mesh it gives, and that mesh fits the casts of
    the codec. *)
Lemma load_hit_layout bytes c expected_hash m m' :
  load_lightmap_cache uninit store (mk_CacheFile (Some bytes) c)
    expected_hash m
  = (m', CacheLoaded) ->
  cacheable m' /\ m_has_lightmap_uvs m' = true /\ is_u64 expected_hash
  /\ exists rest, bytes = layout m' expected_hash ++ rest.
Proof.
  unfold load_lightmap_cache. cbn [content].
  destruct (read_header uninit (mk_ifstream bytes false)) as [hdr [r1 b1]] eqn:Eh.
  cbn [in_fail]. destruct b1; [discriminate|].
  destruct (h_magic hdr =? LIGHTMAP_CACHE_MAGIC) eqn:Em; [|discriminate].
  destruct (h_version hdr =? LIGHTMAP_CACHE_VERSION) eqn:Ev; [|discriminate].
  destruct (h_stored_hash hdr =? expected_hash) eqn:Es; [|discriminate].
  cbn [negb].
  destruct (read_data store hdr (mk_ifstream r1 false))
    as [[[[vs l] sms]| |] [r2 b2]] eqn:Ed; try discriminate.
  cbn [in_fail]. destruct b2; [discriminate|].
  intros H. injection H as <-.
  apply Z.eqb_eq in Em, Ev, Es.
  apply read_header_inv in Eh.
  destruct Eh as (-> & Uhash & Uv & Ui & Us & Uw & Uh).
  apply read_data_inv in Ed; try assumption.
  destruct Ed as (-> & Wv & Wi & Ws & Ns & Sv & Si & Ss & Lv & Li).
  split; [|split; [reflexivity|split; [now rewrite <- Es|]]].
  - unfold cacheable, wf_Mesh.
    cbn [m_vertices m_indices m_sub_meshes m_lightmap_width m_lightmap_height].
    unfold is_u32 in Us.
    refine (conj (conj Wv (conj Wi (conj Ws (conj Uw Uh))))
                 (conj Lv (conj Li (conj _ Ns)))). lia.
  - exists r2. unfold layout, layout_header, layout_data.
    cbn [m_vertices m_indices m_sub_meshes m_lightmap_width m_lightmap_height].
    rewrite Sv, Si, Ss, Em, Ev, Es. now rewrite <- !app_assoc.
Qed.

(** A hit stays the same hit with more bytes behind the file. *)
Lemma load_hit_extend bytes extra c c' expected_hash m m' :
  load_lightmap_cache uninit store (mk_CacheFile (Some bytes) c)
    expected_hash m
  = (m', CacheLoaded) ->
  load_lightmap_cache uninit store (mk_CacheFile (Some (bytes ++ extra)) c')
    expected_hash m
  = (m', CacheLoaded).
Proof.
  intros H. destruct (load_hit_layout _ _ _ _ _ H) as (Hc & Hflag & Hh & rest & ->).
  rewrite <- app_assoc, load_layout_app by assumption.
  unfold adopted. rewrite <- Hflag. now destruct m'.
Qed.

(** A record cut short is never taken for a record. *)
Lemma load_truncated_not_hit s mesh_hash n c m :
  cacheable s -> is_u64 mesh_hash ->
  (n < length (layout s mesh_hash))%nat ->
  load_ok (snd (load_lightmap_cache uninit store
                  (mk_CacheFile (Some (firstn n (layout s mesh_hash))) c)
                  mesh_hash m))
  = false.
Proof.
  intros Hc Hh Hn.
  destruct (load_lightmap_cache uninit store
              (mk_CacheFile (Some (firstn n (layout s mesh_hash))) c)
              mesh_hash m) as [m' status] eqn:E.
  cbn [snd]. destruct status; try reflexivity. exfalso.
  pose proof (load_hit_extend _ (skipn n (layout s mesh_hash)) _ true _ _ _ E)
    as Hfull.
  rewrite firstn_skipn in Hfull.
  rewrite <- (app_nil_r (layout s mesh_hash)) in Hfull at 1.
  rewrite load_layout_app in Hfull by assumption.
  injection Hfull as Hm.
  destruct (load_hit_layout _ _ _ _ _ E) as (_ & _ & _ & rest & Hp).
  assert (Hl : layout m' mesh_hash = layout s mesh_hash).
  { rewrite <- Hm. unfold layout, layout_header, layout_data, adopted.
    reflexivity. }
  apply (f_equal (@length byte)) in Hp.
  rewrite length_firstn, length_app, Hl in Hp. lia.
Qed.

Lemma size_cons_pos {A} (x : A) (l : list A) :
  Z.to_nat (size (x :: l)) = S (length l).
Proof. unfold size. apply Nat2Z.id. Qed.

(** *** Where a record cut short leaves the reads *)

Lemma firstn_app_past {A} (l1 l2 : list A) n :
  (length l1 <= n)%nat -> firstn n (l1 ++ l2) = l1 ++ firstn (n - length l1) l2.
Proof.
  intros H. rewrite firstn_app. now rewrite firstn_all2 by exact H.
Qed.

Lemma read_header_cut s mesh_hash n :
  cacheable s -> is_u64 mesh_hash -> (36 <= n)%nat ->
  read_header uninit (mk_ifstream (firstn n (layout s mesh_hash)) false)
  = (mk_Header LIGHTMAP_CACHE_MAGIC LIGHTMAP_CACHE_VERSION mesh_hash
       (size (m_vertices s)) (size (m_indices s)) (size (m_sub_meshes s))
       (m_lightmap_width s) (m_lightmap_height s),
     mk_ifstream (firstn (n - 36) (layout_data s)) false).
Proof.
  intros Hc Hh Hn. unfold layout.
  rewrite firstn_app_past by (rewrite layout_header_length; exact Hn).
  rewrite layout_header_length. now apply read_header_app.
Qed.

(** Cut in the data, a record ends in the second read error, in
    [std::bad_alloc], or without defined behaviour. *)
Lemma load_truncated_data s mesh_hash n c m :
  cacheable s -> is_u64 mesh_hash ->
  (36 <= n < length (layout s mesh_hash))%nat ->
  In (load_lightmap_cache uninit store
        (mk_CacheFile (Some (firstn n (layout s mesh_hash))) c) mesh_hash m)
     [(m, ReadErrorData); (m, ThrewBadAlloc); (m, UndefinedBehaviour)].
Proof.
  intros Hc Hh Hn.
  pose proof (load_truncated_not_hit s mesh_hash n c m Hc Hh ltac:(lia)) as Hno.
  unfold load_lightmap_cache in *. cbn [content] in *.
  rewrite read_header_cut in * by (assumption || lia).
  cbn [in_fail h_magic h_version h_stored_hash h_lightmap_width
       h_lightmap_height] in *.
  rewrite !Z.eqb_refl in *. cbn [negb] in *.
  destruct (read_data store _ _) as [[[[vs l] sms]| |] f2].
  - destruct (in_fail f2); [now left | discriminate Hno].
  - right. now left.
  - right. right. now left.
Qed.

Lemma block_read_cut n old k block rest :
  n = Z.of_nat (length block) ->
  in_fail (snd (ifs_read n old (mk_ifstream (firstn k (block ++ rest)) false)))
  = true
  \/ ((length block <= k)%nat
      /\ snd (ifs_read n old (mk_ifstream (firstn k (block ++ rest)) false))
         = mk_ifstream (firstn (k - length block) rest) false).
Proof.
  intros ->. unfold ifs_read. cbn [in_fail in_rest].
  destruct (Z.of_nat (length block) <? 0) eqn:E; [apply Z.ltb_lt in E; lia|].
  destruct (Z.of_nat (length block)
            <=? Z.of_nat (length (firstn k (block ++ rest)))) eqn:El.
  - right. apply Z.leb_le in El. rewrite length_firstn in El.
    assert (Hk : (length block <= k)%nat) by lia.
    split; [exact Hk|]. cbn [snd]. rewrite Nat2Z.id.
    rewrite firstn_app_past by exact Hk.
    now rewrite skipn_app_exact by reflexivity.
  - left. reflexivity.
Qed.

Lemma read_vertex_array_stream n f :
  snd (read_vertex_array n f)
  = snd (ifs_read (array_bytes n sizeof_Vertex) (zeros (n * sizeof_Vertex)) f).
Proof.
  unfold read_vertex_array, bind, ret. now destruct (ifs_read _ _ f).
Qed.

Lemma read_index_array_stream n f :
  snd (read_index_array n f)
  = snd (ifs_read (array_bytes n sizeof_uint32_t)
           (zeros (n * sizeof_uint32_t)) f).
Proof.
  unfold read_index_array, bind, ret. now destruct (ifs_read _ _ f).
Qed.

Lemma allocate_granted r f :
  store r = true -> allocate store r f = (Normal tt, f).
Proof. intros H. unfold allocate. now rewrite H, orb_true_r. Qed.

Lemma read_vertices_granted n f :
  store (Vertices n) = true ->
  read_vertices store n f
  = (Normal (fst (read_vertex_array n f)), snd (read_vertex_array n f)).
Proof.
  intros H. unfold read_vertices, bindx. rewrite allocate_granted by exact H.
  unfold lift. now destruct (read_vertex_array n f).
Qed.

Lemma read_indices_granted n f :
  store (Indices n) = true ->
  read_indices store n f
  = (Normal (fst (read_index_array n f)), snd (read_index_array n f)).
Proof.
  intros H. unfold read_indices, bindx. rewrite allocate_granted by exact H.
  unfold lift. now destruct (read_index_array n f).
Qed.

(** A stream that has failed, or has fewer than four bytes left, gives
    [name_len] no value. *)
Lemma read_name_len_indeterminate f :
  in_fail f = true \/ (length (in_rest f) < 4)%nat ->
  fst (read_name_len f) = Indeterminate.
Proof.
  intros H. unfold read_name_len.
  assert (Hf : in_fail (snd (read_u32 0 f)) = true).
  { destruct H as [H | H]; [now apply sticky_read_u32|].
    destruct f as [r b]. destruct b; [now apply sticky_read_u32|].
    cbn [in_rest] in H.
    unfold read_u32, bind, ret, ifs_read, sizeof_uint32_t.
    cbn [in_fail in_rest].
    destruct (4 <=? Z.of_nat (length r)) eqn:E; [apply Z.leb_le in E; lia|].
    reflexivity. }
  destruct (read_u32 0 f) as [v f']. cbn [snd] in Hf. now rewrite Hf.
Qed.

Lemma read_submeshes_indeterminate n f :
  in_fail f = true \/ (length (in_rest f) < 4)%nat ->
  fst (read_submeshes store (S n) f) = Indeterminate.
Proof.
  intros H. cbn [read_submeshes]. unfold bindx at 1.
  unfold read_submesh, bindx at 1.
  pose proof (read_name_len_indeterminate f H) as Hn.
  destruct (read_name_len f) as [o f']. cbn [fst] in Hn. now subst o.
Qed.

(** The data of a record with a submesh, cut before the length field of
    the first name is complete. *)
Lemma read_data_cut s mesh_hash w h k :
  cacheable s -> m_sub_meshes s <> [] ->
  store (Vertices (size (m_vertices s))) = true ->
  store (Indices (size (m_indices s))) = true ->
  store (SubMeshes (size (m_sub_meshes s))) = true ->
  Z.of_nat k < 96 * size (m_vertices s) + 4 * size (m_indices s) + 4 ->
  fst (read_data store
         (mk_Header LIGHTMAP_CACHE_MAGIC LIGHTMAP_CACHE_VERSION mesh_hash
            (size (m_vertices s)) (size (m_indices s))
            (size (m_sub_meshes s)) w h)
         (mk_ifstream (firstn k (layout_data s)) false))
  = Indeterminate.
Proof.
  intros (_ & Hnv & Hni & _ & _) Hsm Hgv Hgi Hgs Hk.
  unfold read_data. cbn [h_vertex_count h_index_count h_submesh_count].
  unfold bindx at 1. rewrite read_vertices_granted by exact Hgv.
  unfold bindx at 1. rewrite read_indices_granted by exact Hgi.
  unfold bindx at 1. rewrite allocate_granted by exact Hgs.
  set (f0 := mk_ifstream (firstn k (layout_data s)) false).
  set (f1 := snd (read_vertex_array (size (m_vertices s)) f0)).
  set (f2 := snd (read_index_array (size (m_indices s)) f1)).
  assert (Hf2 : in_fail f2 = true \/ (length (in_rest f2) < 4)%nat).
  { pose proof (size_nonneg (m_vertices s)) as Hv0.
    pose proof (size_nonneg (m_indices s)) as Hi0.
    assert (H1 : in_fail f1 = true
                 \/ ((length (bytes_of_vertices (m_vertices s)) <= k)%nat
                     /\ f1 = mk_ifstream
                               (firstn (k - length (bytes_of_vertices (m_vertices s)))
                                  (bytes_of_indices (m_indices s)
                                   ++ flat_map layout_submesh (m_sub_meshes s)))
                               false)).
    { unfold f1, f0, layout_data. rewrite read_vertex_array_stream.
      apply block_read_cut.
      rewrite array_bytes_small by (unfold sizeof_Vertex; lia).
      rewrite bytes_of_vertices_length. unfold size, sizeof_Vertex. lia. }
    destruct H1 as [H1 | (Hkv & H1)].
    - left. unfold f2. now apply sticky_read_index_array.
    - assert (H2 : in_fail f2 = true
                   \/ ((length (bytes_of_indices (m_indices s))
                        <= k - length (bytes_of_vertices (m_vertices s)))%nat
                       /\ f2 = mk_ifstream
                                 (firstn
                                    (k - length (bytes_of_vertices (m_vertices s))
                                     - length (bytes_of_indices (m_indices s)))
                                    (flat_map layout_submesh (m_sub_meshes s)))
                                 false)).
      { unfold f2. rewrite H1, read_index_array_stream.
        apply block_read_cut.
        rewrite array_bytes_small by (unfold sizeof_uint32_t; lia).
        rewrite bytes_of_indices_length. unfold size, sizeof_uint32_t. lia. }
      destruct H2 as [H2 | (Hki & H2)]; [now left|].
      right. rewrite H2. cbn [in_rest]. rewrite length_firstn.
      rewrite bytes_of_vertices_length, bytes_of_indices_length in *.
      unfold size in Hk. lia. }
  destruct (m_sub_meshes s) as [|sm sms] eqn:Es; [contradiction|].
  rewrite size_cons_pos.
  pose proof (read_submeshes_indeterminate (length sms) f2 Hf2) as Hn.
  unfold bindx at 1.
  destruct (read_submeshes store (S (length sms)) f2) as [o f3].
  cbn [fst] in Hn. now subst o.
Qed.

End ReadInversion.

(* ------------------------------------------------------------------ *)
(** * The properties of the specification *)

(** ** Cache codec *)

(** C1. Round trip of the cache codec: for every consolidated snapshot [s]
    that fits the types of the cache, every 64 bit hash and every atlas
    width and height, whenever [save_lightmap_cache] reports success the
    file it leaves carries the hash, and [load_lightmap_cache] with the same
    expected hash is a cache hit after which the mesh holds exactly the
    vertices, the indices, the submeshes (every member of each) and the
    atlas dimensions of [s], with the lightmap flag set: it is [s] itself
    when [s] had the flag set.  [save_lightmap_cache] does report success
    when the file can be created and the vertex and index counts are below
    2^31. *)
Theorem save_then_load_roundtrip :
  forall (uninit : nat -> Z) (store : Request -> bool) (s : Mesh)
         (mesh_hash : Z) (file : CacheFile) (m : Mesh),
    representable s -> is_u64 mesh_hash ->
    (creatable file = true ->
     size (m_vertices s) < 2 ^ 31 -> size (m_indices s) < 2 ^ 31 ->
     snd (save_lightmap_cache file s mesh_hash) = true)
    /\ (forall file',
          save_lightmap_cache file s mesh_hash = (file', true) ->
          (exists bytes,
              content file' = Some bytes /\ file_hash bytes = mesh_hash)
          /\ load_lightmap_cache uninit store file' mesh_hash m
             = (mk_Mesh (m_vertices s) (m_indices s) (m_sub_meshes s)
                  (m_lightmap_width s) (m_lightmap_height s) true,
                CacheLoaded)
          /\ (m_has_lightmap_uvs s = true ->
              fst (load_lightmap_cache uninit store file' mesh_hash m) = s)).
Proof.
  intros uninit store s mesh_hash file m Hr Hh. split.
  - intros Hf Hv Hi.
    rewrite (save_writes_layout file s mesh_hash); [reflexivity | | exact Hf].
    now apply representable_cacheable.
  - intros file' Hsave.
    destruct (save_true_layout file file' s mesh_hash Hr Hsave) as (Hc & ->).
    assert (Hload :
              load_lightmap_cache uninit store
                (mk_CacheFile (Some (layout s mesh_hash)) true) mesh_hash m
              = (adopted s, CacheLoaded)).
    { rewrite <- (app_nil_r (layout s mesh_hash)).
      now apply load_layout_app. }
    repeat apply conj.
    + exists (layout s mesh_hash). split; [reflexivity|].
      now apply (file_hash_layout uninit).
    + exact Hload.
    + intros Hflag. rewrite Hload. cbn [fst]. unfold adopted.
      rewrite <- Hflag. now destruct s.
Qed.

(** C3. Validation on decode: the fixed header of 36 bytes is read first
    (a shorter file is a read error); then, in this order, a magic other
    than the format's is [InvalidMagic], a version other than the one
    recognised is [VersionMismatch], and a stored hash other than the
    expected one is [HashMismatch]; each is a cache miss that leaves the
    mesh as it was, and a cache hit needs the three checks to pass. *)
Theorem load_lightmap_cache_validates_header :
  forall (uninit : nat -> Z) (store : Request -> bool) (bytes : list byte)
         (c : bool) (expected_hash : Z) (m : Mesh),
    let r := load_lightmap_cache uninit store (mk_CacheFile (Some bytes) c)
               expected_hash m in
    ((length bytes < 36)%nat -> r = (m, ReadErrorHeader))
    /\ ((36 <= length bytes)%nat ->
        file_magic bytes <> LIGHTMAP_CACHE_MAGIC -> r = (m, InvalidMagic))
    /\ ((36 <= length bytes)%nat ->
        file_magic bytes = LIGHTMAP_CACHE_MAGIC ->
        file_version bytes <> LIGHTMAP_CACHE_VERSION ->
        r = (m, VersionMismatch))
    /\ ((36 <= length bytes)%nat ->
        file_magic bytes = LIGHTMAP_CACHE_MAGIC ->
        file_version bytes = LIGHTMAP_CACHE_VERSION ->
        file_hash bytes <> expected_hash ->
        r = (m, HashMismatch))
    /\ (load_ok (snd r) = true ->
        (36 <= length bytes)%nat
        /\ file_magic bytes = LIGHTMAP_CACHE_MAGIC
        /\ file_version bytes = LIGHTMAP_CACHE_VERSION
        /\ file_hash bytes = expected_hash)
    /\ (load_ok (snd r) = false -> fst r = m).
Proof.
  intros uninit store bytes c expected_hash m r.
  assert (Hlong :
            (36 <= length bytes)%nat ->
            r = (if negb (file_magic bytes =? LIGHTMAP_CACHE_MAGIC)
                 then (m, InvalidMagic)
                 else if negb (file_version bytes =? LIGHTMAP_CACHE_VERSION)
                 then (m, VersionMismatch)
                 else if negb (file_hash bytes =? expected_hash)
                 then (m, HashMismatch)
                 else r)).
  { intros H.
    destruct (negb (file_magic bytes =? LIGHTMAP_CACHE_MAGIC)) eqn:E1;
      [|destruct (negb (file_version bytes =? LIGHTMAP_CACHE_VERSION)) eqn:E2;
        [|destruct (negb (file_hash bytes =? expected_hash)) eqn:E3;
          [|reflexivity]]];
      unfold r, load_lightmap_cache; cbn [content];
      rewrite (read_header_complete uninit bytes H);
      cbn [in_fail h_magic h_version h_stored_hash];
      rewrite ?E1, ?E2, ?E3; reflexivity. }
  repeat apply conj.
  - intros H. now apply load_short_header.
  - intros H Hm. rewrite (Hlong H).
    apply Z.eqb_neq in Hm. now rewrite Hm.
  - intros H Hm Hv. rewrite (Hlong H).
    apply Z.eqb_eq in Hm. apply Z.eqb_neq in Hv. now rewrite Hm, Hv.
  - intros H Hm Hv Hs. rewrite (Hlong H).
    apply Z.eqb_eq in Hm, Hv. apply Z.eqb_neq in Hs. now rewrite Hm, Hv, Hs.
  - intros Hok.
    destruct (Nat.lt_ge_cases (length bytes) 36) as [Hs | Hl].
    + unfold r in Hok. rewrite load_short_header in Hok by exact Hs.
      discriminate Hok.
    + split; [exact Hl|]. rewrite (Hlong Hl) in Hok.
      destruct (file_magic bytes =? LIGHTMAP_CACHE_MAGIC) eqn:E1;
        [|discriminate Hok].
      destruct (file_version bytes =? LIGHTMAP_CACHE_VERSION) eqn:E2;
        [|discriminate Hok].
      destruct (file_hash bytes =? expected_hash) eqn:E3;
        [|discriminate Hok].
      apply Z.eqb_eq in E1, E2, E3. now repeat split.
  - apply load_failure_keeps_mesh.
Qed.

(** C10. Bytes after the record are ignored: [load_lightmap_cache] never
    looks whether the file ends where the record ends, so a file that is a
    cache hit (magic, version and expected hash match and all of the record
    is there) is the same cache hit, adopting the same geometry, with any
    bytes appended to it. *)
Theorem load_ignores_trailing_bytes :
  forall (uninit : nat -> Z) (store : Request -> bool)
         (bytes extra : list byte) (c c' : bool)
         (expected_hash : Z) (m m' : Mesh),
    load_lightmap_cache uninit store (mk_CacheFile (Some bytes) c)
      expected_hash m
    = (m', CacheLoaded) ->
    load_lightmap_cache uninit store (mk_CacheFile (Some (bytes ++ extra)) c')
      expected_hash m
    = (m', CacheLoaded).
Proof.
  intros uninit store bytes extra c c' expected_hash m m'.
  apply load_hit_extend.
Qed.

(** ** Atlas consolidator *)

Lemma Forall2_nth_error_left {A B} (R : A -> B -> Prop) l1 l2 :
  Forall2 R l1 l2 ->
  forall i a, nth_error l1 i = Some a ->
              exists b, nth_error l2 i = Some b /\ R a b.
Proof.
  induction 1 as [|a0 b0 l1 l2 HR _ IH]; intros i a Hi.
  - destruct i; discriminate Hi.
  - destruct i as [|i]; cbn in *.
    + inversion Hi; subst. now exists b0.
    + now apply IH.
Qed.

Lemma index_total_nonneg sub_meshes :
  Forall wf_SubMesh sub_meshes -> 0 <= index_total sub_meshes.
Proof.
  induction 1 as [|sm rest (_ & (Hlo & _) & _) _ IH]; cbn; [lia|].
  unfold index_total in IH. lia.
Qed.

Lemma index_total_firstn_le sub_meshes i :
  Forall wf_SubMesh sub_meshes ->
  0 <= index_total (firstn i sub_meshes) <= index_total sub_meshes.
Proof.
  intros H. revert i. induction H as [|sm rest Hsm Hrest IH]; intros i.
  - destruct i; cbn; lia.
  - destruct i as [|i]; cbn [firstn index_total fold_right].
    + pose proof (index_total_nonneg (sm :: rest) (Forall_cons _ Hsm Hrest)) as Hn.
      cbn in Hn. lia.
    + specialize (IH i). destruct Hsm as (_ & (Hlo & _) & _).
      unfold index_total in IH. lia.
Qed.

Lemma to_u32_range z : is_u32 (to_u32 z).
Proof. unfold is_u32, to_u32. apply Z.mod_pos_bound. lia. Qed.

Lemma rebase_sub_meshes_wf sub_meshes :
  Forall wf_SubMesh sub_meshes ->
  forall current_index nv,
    is_u32 current_index ->
    Forall wf_SubMesh (rebase_sub_meshes sub_meshes current_index nv).
Proof.
  induction 1 as [|sm rest (H1 & H2 & _ & _ & _ & H6 & H7) _ IH];
    intros current_index nv Hc; cbn [rebase_sub_meshes]; constructor.
  - unfold wf_SubMesh.
    cbn [mat_idx index_count base_vertex base_index vertex_count
         max_extents min_extents].
    pose proof (to_u32_range nv) as Hnv.
    unfold wf_vec3, is_u32 in *. repeat apply conj; lia.
  - apply IH. apply to_u32_range.
Qed.

(** Consolidation keeps every member within its C++ type, when the packer
    and the float operations answer within theirs. *)
Lemma generate_lightmap_uvs_wf (F : FloatOps) (P : Packer) m m' :
  generate_lightmap_uvs F P m = Some (m', true) ->
  wf_Mesh m ->
  (forall a b, is_u32 (fdiv F a b)) ->
  is_u32 (width (xatlas_Generate P (mesh_decl_of m))) ->
  is_u32 (height (xatlas_Generate P (mesh_decl_of m))) ->
  Forall (fun xmesh => Forall is_u32 (indexArray xmesh))
         (meshes (xatlas_Generate P (mesh_decl_of m))) ->
  wf_Mesh m'.
Proof.
  intros Hgen (Hv & Hi & Hs & _ & _) Hdiv Hw Hh Hidx.
  destruct (generate_success F P m m' Hgen) as (xmesh & nv & Hm & Hb & ->).
  destruct (build_new_vertices_spec F _ _ _ _ _ Hb) as (made & -> & Hmade).
  rewrite Hm in Hidx. inversion Hidx as [|? ? Hx _]; subst.
  unfold wf_Mesh. cbn [app m_vertices m_indices m_sub_meshes
                         m_lightmap_width m_lightmap_height].
  split; [|split; [exact Hx|split; [|split; assumption]]].
  - clear Hb Hgen.
    induction Hmade as [|xv nvert todo made' (old & Ho & ->) _ IH];
      [constructor|]. constructor; [|exact IH].
    apply nth_error_In in Ho. rewrite Forall_forall in Hv.
    destruct (Hv old Ho) as (P1 & P2 & _ & P4 & P5 & P6).
    unfold wf_Vertex, new_vert_of, set_lightmap_tex_coord.
    cbn [position tex_coord lightmap_tex_coord normal tangent bitangent].
    pose proof (Hdiv (uv0 xv) (float_of_u32 F (width (xatlas_Generate P (mesh_decl_of m))))) as D0.
    pose proof (Hdiv (uv1 xv) (float_of_u32 F (height (xatlas_Generate P (mesh_decl_of m))))) as D1.
    unfold wf_vec4, float_zero, is_u32 in *. cbn [vx vy vz vw].
    repeat apply conj; lia.
  - apply rebase_sub_meshes_wf; [exact Hs | unfold is_u32; lia].
Qed.

(** C5 (as amended). Submeshes after a successful consolidation, for a
    mesh whose submesh members fit [uint32_t] with index counts that add up
    to less than 2^32, and a packer that reports a [uint32_t] number of
    vertices: every submesh keeps its [index_count], its [base_index] is
    the sum of the [index_count]s of the submeshes before it, its
    [base_vertex] is 0 and its [vertex_count] is the new number of
    vertices; the [index_count]s add up to what they added up to before.
    So where they added up to the length of the index buffer before, they
    do so afterwards exactly when the packer handed back as many indices as
    it was given, which the code does not check. *)
Theorem generate_lightmap_uvs_rebases_submeshes :
  forall (F : FloatOps) (P : Packer) (m m' : Mesh),
    generate_lightmap_uvs F P m = Some (m', true) ->
    Forall wf_SubMesh (m_sub_meshes m) ->
    index_total (m_sub_meshes m) < 2 ^ 32 ->
    size (m_vertices m') < 2 ^ 32 ->
    length (m_sub_meshes m') = length (m_sub_meshes m)
    /\ (forall i sm,
          nth_error (m_sub_meshes m) i = Some sm ->
          exists sm',
            nth_error (m_sub_meshes m') i = Some sm'
            /\ index_count sm' = index_count sm
            /\ base_index sm' = index_total (firstn i (m_sub_meshes m))
            /\ base_vertex sm' = 0
            /\ vertex_count sm' = size (m_vertices m'))
    /\ index_total (m_sub_meshes m') = index_total (m_sub_meshes m)
    /\ (index_total (m_sub_meshes m) = size (m_indices m) ->
        (index_total (m_sub_meshes m') = size (m_indices m')
         <-> size (m_indices m') = size (m_indices m))).
Proof.
  intros F P m m' Hgen Hwf Hfit Hnv.
  destruct (generate_success F P m m' Hgen) as (xmesh & nv & _ & _ & ->).
  cbn [m_sub_meshes m_vertices m_indices] in *.
  repeat apply conj.
  - apply rebase_sub_meshes_length.
  - intros i sm Hi. eexists. split.
    + apply rebase_sub_meshes_nth; [reflexivity | exact Hi].
    + cbn [index_count base_index base_vertex vertex_count].
      repeat apply conj; try reflexivity.
      * pose proof (index_total_firstn_le (m_sub_meshes m) i Hwf).
        rewrite Z.add_0_l. apply Z.mod_small. lia.
      * apply Z.mod_small. split; [apply size_nonneg | exact Hnv].
  - apply rebase_sub_meshes_index_total.
  - intros Hinv. rewrite rebase_sub_meshes_index_total. lia.
Qed.

(** C6. Vertices after a successful consolidation: there is one vertex
    for every vertex of the packer, in the packer's order; it is the
    pre-atlas vertex that the back-reference names with position, primary
    UV, normal, tangent and bitangent copied and the lightmap UV set to
    (atlas x / width, atlas y / height, 0, 0).  Several output vertices may
    name the same pre-atlas vertex: they then agree on everything but the
    lightmap UV; and when the back-references are those of all pre-atlas
    vertices with one of them doubled (one seam vertex split in two), the
    new buffer is one vertex longer than the old one. *)
Theorem generate_lightmap_uvs_vertex_rule :
  forall (F : FloatOps) (P : Packer) (m m' : Mesh),
    generate_lightmap_uvs F P m = Some (m', true) ->
    let atlas := xatlas_Generate P (mesh_decl_of m) in
    exists xmesh,
      meshes atlas = [xmesh]
      /\ length (m_vertices m') = length (vertexArray xmesh)
      /\ (forall v xvert,
            nth_error (vertexArray xmesh) v = Some xvert ->
            exists old,
              nth_error (m_vertices m) (Z.to_nat (xref xvert)) = Some old
              /\ nth_error (m_vertices m') v
                 = Some (mk_Vertex (position old) (tex_coord old)
                           (mk_vec4
                              (fdiv F (uv0 xvert) (float_of_u32 F (width atlas)))
                              (fdiv F (uv1 xvert) (float_of_u32 F (height atlas)))
                              0 0)
                           (normal old) (tangent old) (bitangent old)))
      /\ (forall v1 v2 x1 x2 n1 n2,
            nth_error (vertexArray xmesh) v1 = Some x1 ->
            nth_error (vertexArray xmesh) v2 = Some x2 ->
            xref x1 = xref x2 ->
            nth_error (m_vertices m') v1 = Some n1 ->
            nth_error (m_vertices m') v2 = Some n2 ->
            position n1 = position n2 /\ normal n1 = normal n2
            /\ tex_coord n1 = tex_coord n2 /\ tangent n1 = tangent n2
            /\ bitangent n1 = bitangent n2)
      /\ (forall k,
            Permutation (map xref (vertexArray xmesh))
              (k :: map Z.of_nat (seq 0 (length (m_vertices m)))) ->
            size (m_vertices m') = size (m_vertices m) + 1).
Proof.
  intros F P m m' Hgen atlas.
  destruct (generate_success F P m m' Hgen) as (xmesh & nv & Hm & Hb & ->).
  fold atlas in Hm, Hb |- *.
  destruct (build_new_vertices_spec F _ _ _ _ _ Hb) as (made & -> & Hmade).
  cbn [app m_vertices].
  assert (Hlen : length made = length (vertexArray xmesh))
    by (symmetry; eapply Forall2_length; exact Hmade).
  assert (Hrule : forall v xvert,
             nth_error (vertexArray xmesh) v = Some xvert ->
             exists old,
               nth_error (m_vertices m) (Z.to_nat (xref xvert)) = Some old
               /\ nth_error made v = Some (new_vert_of F old atlas xvert)).
  { intros v xvert Hv.
    destruct (Forall2_nth_error_left _ _ _ Hmade v xvert Hv)
      as (nvert & Hn & old & Ho & ->).
    exists old. now split. }
  exists xmesh. repeat apply conj.
  - exact Hm.
  - exact Hlen.
  - intros v xvert Hv. destruct (Hrule v xvert Hv) as (old & Ho & Hn).
    exists old. split; [exact Ho | exact Hn].
  - intros v1 v2 x1 x2 n1 n2 H1 H2 Hx Hn1 Hn2.
    destruct (Hrule v1 x1 H1) as (o1 & Ho1 & Hm1).
    destruct (Hrule v2 x2 H2) as (o2 & Ho2 & Hm2).
    rewrite Hx in Ho1. rewrite Ho1 in Ho2. inversion Ho2; subst o2.
    rewrite Hm1 in Hn1. rewrite Hm2 in Hn2.
    inversion Hn1; inversion Hn2; subst. cbn. now repeat split.
  - intros k Hperm. apply Permutation_length in Hperm.
    rewrite length_map in Hperm. cbn [length] in Hperm.
    rewrite length_map, length_seq in Hperm. unfold size. lia.
Qed.

(** C7 (as amended). A failing [generate_lightmap_uvs] leaves the
    vertices, the indices, the submeshes and the lightmap flag of the mesh
    untouched.  It fails when the vertex or the index sequence is empty and
    when the packer reports a width or height of zero, and then the whole
    mesh is untouched; it also fails when the packer reports a mesh count
    other than one. *)
Theorem generate_lightmap_uvs_failure_frame :
  forall (F : FloatOps) (P : Packer) (m : Mesh),
    let atlas := xatlas_Generate P (mesh_decl_of m) in
    let has_geometry := negb (empty (m_vertices m) || empty (m_indices m)) in
    let added := AddMeshError_eqb (xatlas_AddMesh P (mesh_decl_of m)) Success in
    let packed := negb ((width atlas =? 0) || (height atlas =? 0)) in
    (has_geometry = false -> generate_lightmap_uvs F P m = Some (m, false))
    /\ (has_geometry = true -> added = true -> packed = false ->
        generate_lightmap_uvs F P m = Some (m, false))
    /\ (has_geometry = true -> added = true -> packed = true ->
        meshCount atlas <> 1 ->
        exists m', generate_lightmap_uvs F P m = Some (m', false))
    /\ (forall m',
          generate_lightmap_uvs F P m = Some (m', false) ->
          m_vertices m' = m_vertices m /\ m_indices m' = m_indices m
          /\ m_sub_meshes m' = m_sub_meshes m
          /\ m_has_lightmap_uvs m' = m_has_lightmap_uvs m).
Proof.
  intros F P m atlas has_geometry added packed. repeat apply conj.
  - unfold has_geometry, generate_lightmap_uvs. intros H.
    apply negb_false_iff in H. now rewrite H.
  - unfold has_geometry, added, packed, generate_lightmap_uvs.
    intros H1 H2 H3. apply negb_true_iff in H1. apply negb_false_iff in H3.
    fold atlas. now rewrite H1, H2, H3.
  - unfold has_geometry, added, packed, generate_lightmap_uvs.
    intros H1 H2 H3 H4. apply negb_true_iff in H1, H3.
    apply Z.eqb_neq in H4. fold atlas. rewrite H1, H2, H3, H4. cbn [negb].
    eexists. reflexivity.
  - intros m' H.
    destruct (generate_failure F P m m' H) as [-> | (_ & ->)];
      now repeat split.
Qed.

(** ** Cache orchestration *)

(** C9 (as amended). When lightmap generation is requested and the
    pre-atlas geometry is empty (no vertex or no index),
    [generate_lightmap_uvs] fails and changes nothing; when the cache
    lookup misses, the constructor writes no cache file and does not
    abandon the load: it goes on with the mesh as [load_from_disk] left
    it, without lightmap UVs; and when the lookup hits it goes on with
    what the cache holds. *)
Theorem Mesh_ctor_empty_geometry_degrades :
  forall (F : FloatOps) (P : Packer) (uninit : nat -> Z)
         (store : Request -> bool) (m : Mesh) (file : CacheFile),
    empty (m_vertices m) || empty (m_indices m) = true ->
    let lookup :=
      load_lightmap_cache uninit store file (compute_mesh_hash m) m in
    generate_lightmap_uvs F P m = Some (m, false)
    /\ (load_missed (snd lookup) = true ->
        Mesh_ctor F P uninit store m true file = MeshReady m file)
    /\ (load_ok (snd lookup) = true ->
        Mesh_ctor F P uninit store m true file = MeshReady (fst lookup) file).
Proof.
  intros F P uninit store m file He lookup.
  assert (Hgen : generate_lightmap_uvs F P m = Some (m, false))
    by (unfold generate_lightmap_uvs; now rewrite He).
  split; [exact Hgen|].
  pose proof (load_failure_keeps_mesh uninit store file (compute_mesh_hash m) m)
    as Hk.
  fold lookup in Hk. unfold Mesh_ctor. fold lookup.
  destruct lookup as [m1 status]. cbn [fst snd] in *.
  split; intros Hs; destruct status; try discriminate Hs;
    try (rewrite (Hk eq_refl), Hgen); reflexivity.
Qed.

(* ------------------------------------------------------------------ *)
(** * Worked instances *)

Import Examples.
Import MoreExamples.

Ltac range_leaf :=
  match goal with
  | |- is_u32 _ =>
      unfold is_u32; split; vm_compute; first [discriminate | reflexivity]
  | |- is_u64 _ =>
      unfold is_u64; split; vm_compute; first [discriminate | reflexivity]
  | |- (_ < _)%Z => vm_compute; reflexivity
  | |- (_ <= _)%Z => vm_compute; discriminate
  | |- @eq _ _ _ => vm_compute; reflexivity
  end.

Ltac by_computation :=
  repeat first
    [ range_leaf
    | progress unfold cacheable, wf_Mesh, wf_Vertex, wf_SubMesh, wf_vec3, wf_vec4
    | split
    | constructor ].

Lemma triangle_atlas_generated :
  generate_lightmap_uvs Binary32.ops seam_packer triangle
  = Some (triangle_atlas, true).
Proof. vm_compute. reflexivity. Defined.

Lemma cacheable_triangle_atlas : cacheable triangle_atlas.
Proof. by_computation. Defined.

Lemma is_u64_triangle_hash : is_u64 (compute_mesh_hash triangle).
Proof. by_computation. Defined.

Lemma representable_triangle_atlas : representable triangle_atlas.
Proof. apply cacheable_representable, cacheable_triangle_atlas. Defined.

Lemma triangle_atlas_saved :
  save_lightmap_cache no_file triangle_atlas (compute_mesh_hash triangle)
  = (mk_CacheFile
       (Some (layout triangle_atlas (compute_mesh_hash triangle))) true,
     true).
Proof. vm_compute. reflexivity. Defined.

(** C4 (the code at the failing input). Scenario C: the record of the
    consolidated triangle (483 bytes: 36 of header, 384 of vertices, 12 of
    indices, 51 of the submesh) cut after 100 bytes, in the vertex array.
    The reads of the vertices and of the indices come up short and the
    submesh loop still runs: [name_len] is used although no read gave it
    a value, so the call has no defined behaviour where the claim has it
    return [false].  The same for a cut after 434 bytes, inside the length
    field of the name.  Cut after 20 bytes, in the header, the record is
    the read error the claim describes. *)
Theorem load_lightmap_cache_truncated_uses_name_len :
  let record := layout triangle_atlas (compute_mesh_hash triangle) in
  save_lightmap_cache no_file triangle_atlas (compute_mesh_hash triangle)
  = (mk_CacheFile (Some record) true, true)
  /\ size record = 483
  /\ load_lightmap_cache stack roomy
       (mk_CacheFile (Some (firstn 100 record)) true)
       (compute_mesh_hash triangle) triangle
     = (triangle, UndefinedBehaviour)
  /\ load_lightmap_cache stack roomy
       (mk_CacheFile (Some (firstn 434 record)) true)
       (compute_mesh_hash triangle) triangle
     = (triangle, UndefinedBehaviour)
  /\ load_lightmap_cache stack roomy
       (mk_CacheFile (Some (firstn 20 record)) true)
       (compute_mesh_hash triangle) triangle
     = (triangle, ReadErrorHeader).
Proof.
  intros record. split; [exact triangle_atlas_saved|].
  repeat split; vm_compute; reflexivity.
Qed.

(** Scenario A, after consolidation: the record written for the
    consolidated triangle under the hash of the pre-atlas triangle is read
    back as that very mesh. *)
Lemma save_then_load_roundtrip_ex :
  representable triangle_atlas
  /\ is_u64 (compute_mesh_hash triangle)
  /\ exists file',
       save_lightmap_cache no_file triangle_atlas (compute_mesh_hash triangle)
       = (file', true)
       /\ load_lightmap_cache stack roomy file' (compute_mesh_hash triangle) triangle
          = (triangle_atlas, CacheLoaded).
Proof.
  split; [exact representable_triangle_atlas|].
  split; [exact is_u64_triangle_hash|].
  exists (mk_CacheFile
            (Some (layout triangle_atlas (compute_mesh_hash triangle))) true).
  pose proof triangle_atlas_saved as Hsave.
  split; [exact Hsave|].
  destruct (save_then_load_roundtrip stack roomy triangle_atlas
              (compute_mesh_hash triangle) no_file triangle
              representable_triangle_atlas is_u64_triangle_hash)
    as (_ & Hback).
  destruct (Hback _ Hsave) as (_ & Hload & _). exact Hload.
Defined.


(** The record of the consolidated triangle with two bytes behind it. *)
Lemma load_ignores_trailing_bytes_ex :
  load_lightmap_cache stack roomy
    (mk_CacheFile (Some (layout triangle_atlas (compute_mesh_hash triangle))) true)
    (compute_mesh_hash triangle) triangle
  = (triangle_atlas, CacheLoaded)
  /\ load_lightmap_cache stack roomy
       (mk_CacheFile
          (Some (layout triangle_atlas (compute_mesh_hash triangle) ++ [xde; xad]))
          true)
       (compute_mesh_hash triangle) triangle
     = (triangle_atlas, CacheLoaded).
Proof.
  assert (H : load_lightmap_cache stack roomy
                (mk_CacheFile
                   (Some (layout triangle_atlas (compute_mesh_hash triangle)))
                   true)
                (compute_mesh_hash triangle) triangle
              = (triangle_atlas, CacheLoaded))
    by (vm_compute; reflexivity).
  split; [exact H|].
  apply (load_ignores_trailing_bytes stack roomy _ [xde; xad] true true _ _ _ H).
Defined.

Lemma two_mesh_atlas_generated :
  generate_lightmap_uvs Binary32.ops keeping_packer two_mesh
  = Some (two_mesh_atlas, true).
Proof. vm_compute. reflexivity. Defined.

Lemma two_mesh_sub_meshes_wf : Forall wf_SubMesh (m_sub_meshes two_mesh).
Proof. by_computation. Defined.

(** The mesh of a triangle and a square after a packer that splits one
    vertex: the second submesh starts behind the three indices of the
    first, and both span the eight vertices there are now (they had three
    and four). *)
Lemma generate_lightmap_uvs_rebases_submeshes_ex :
  generate_lightmap_uvs Binary32.ops keeping_packer two_mesh
  = Some (two_mesh_atlas, true)
  /\ map vertex_count (m_sub_meshes two_mesh) = [3; 4]
  /\ length (m_sub_meshes two_mesh_atlas) = 2%nat
  /\ (exists sm',
        nth_error (m_sub_meshes two_mesh_atlas) 1 = Some sm'
        /\ index_count sm' = 6
        /\ base_index sm' = 3
        /\ base_vertex sm' = 0
        /\ vertex_count sm' = 8)
  /\ index_total (m_sub_meshes two_mesh_atlas) = 9
  /\ (index_total (m_sub_meshes two_mesh_atlas)
      = size (m_indices two_mesh_atlas)
      <-> size (m_indices two_mesh_atlas) = size (m_indices two_mesh)).
Proof.
  split; [exact two_mesh_atlas_generated|]. split; [reflexivity|].
  destruct (generate_lightmap_uvs_rebases_submeshes Binary32.ops
              keeping_packer two_mesh two_mesh_atlas two_mesh_atlas_generated
              two_mesh_sub_meshes_wf)
    as (Hlen & Hnth & Htotal & Hiff).
  - vm_compute. reflexivity.
  - vm_compute. reflexivity.
  - split; [exact Hlen|]. split.
    + destruct (Hnth 1%nat _ eq_refl) as (sm' & Hsm & Hic & Hbi & Hbv & Hvc).
      exists sm'. split; [exact Hsm|].
      split; [exact Hic|]. split; [exact Hbi|]. split; [exact Hbv|].
      rewrite Hvc. reflexivity.
    + split; [exact Htotal|]. apply Hiff. reflexivity.
Defined.

Lemma generate_lightmap_uvs_vertex_rule_ex :
  generate_lightmap_uvs Binary32.ops seam_packer triangle
  = Some (triangle_atlas, true)
  /\ size (m_vertices triangle_atlas) = size (m_vertices triangle) + 1
  /\ map lightmap_tex_coord (m_vertices triangle_atlas)
     = [mk_vec4 f_quarter f_quarter 0 0; mk_vec4 f_three_quarters f_quarter 0 0;
        mk_vec4 f_quarter f_three_quarters 0 0; mk_vec4 f_half f_half 0 0].
Proof.
  split; [exact triangle_atlas_generated|].
  destruct (generate_lightmap_uvs_vertex_rule Binary32.ops seam_packer
              triangle triangle_atlas triangle_atlas_generated)
    as (xmesh & Hm & _ & _ & _ & Hseam).
  split.
  - apply (Hseam 0). vm_compute in Hm. inversion Hm; subst xmesh.
    apply Permutation_sym. exact (Permutation_middle [0; 1; 2] [] 0).
  - vm_compute. reflexivity.
Defined.

Lemma compute_mesh_hash_reads_positions_only_ex :
  same_hash_input triangle triangle_flipped
  /\ m_vertices triangle <> m_vertices triangle_flipped
  /\ compute_mesh_hash triangle = compute_mesh_hash triangle_flipped.
Proof.
  assert (H : same_hash_input triangle triangle_flipped)
    by (repeat split; reflexivity).
  split; [exact H|]. split; [discriminate|].
  apply (compute_mesh_hash_reads_positions_only _ _ H).
Defined.

Lemma faceless_loaded :
  load_from_disk_ranges faceless_scene
  = Some (m_sub_meshes faceless, m_indices faceless,
          size (m_vertices faceless)).
Proof. vm_compute. reflexivity. Defined.

(** The mesh of a scene of three vertices and no face, nothing at the
    cache path. *)
Lemma Mesh_ctor_empty_geometry_degrades_ex :
  load_from_disk_ranges faceless_scene
  = Some (m_sub_meshes faceless, m_indices faceless,
          size (m_vertices faceless))
  /\ empty (m_vertices faceless) || empty (m_indices faceless) = true
  /\ load_lightmap_cache stack roomy no_file (compute_mesh_hash faceless)
       faceless
     = (faceless, NotOpen)
  /\ generate_lightmap_uvs Binary32.ops seam_packer faceless
     = Some (faceless, false)
  /\ Mesh_ctor Binary32.ops seam_packer stack roomy faceless true no_file
     = MeshReady faceless no_file.
Proof.
  split; [exact faceless_loaded|]. split; [reflexivity|].
  split; [reflexivity|].
  destruct (Mesh_ctor_empty_geometry_degrades Binary32.ops seam_packer stack
              roomy faceless no_file eq_refl) as (Hgen & Hmiss & _).
  split; [exact Hgen | exact (Hmiss eq_refl)].
Defined.

(** *** Where the code departs from the wording of C5, C7 and C9 *)

(** Against C7 as worded: when the packer reports two meshes the call
    fails, yet the mesh comes back with the atlas dimensions 16 x 16 stored
    where it had 0 x 0. *)
Lemma generate_lightmap_uvs_unexpected_count_stores_dimensions :
  generate_lightmap_uvs Binary32.ops two_mesh_packer triangle
  = Some (mk_Mesh (m_vertices triangle) (m_indices triangle)
            (m_sub_meshes triangle) 16 16 false,
          false)
  /\ m_lightmap_width triangle = 0
  /\ m_lightmap_height triangle = 0.
Proof. vm_compute. repeat split; reflexivity. Qed.

(** Against C5 as worded: a packer that hands back six indices for the
    three of the triangle is taken without complaint; the [index_count]s,
    which added up to the length of the index buffer before, add up to 3
    over a buffer of 6 indices afterwards. *)
Lemma generate_lightmap_uvs_index_total_not_kept :
  exists m',
    generate_lightmap_uvs Binary32.ops six_index_packer triangle
    = Some (m', true)
    /\ index_total (m_sub_meshes triangle) = size (m_indices triangle)
    /\ index_total (m_sub_meshes m') = 3
    /\ size (m_indices m') = 6
    /\ index_total (m_sub_meshes m') <> size (m_indices m').
Proof.
  eexists. split; [vm_compute; reflexivity|].
  split; [reflexivity|]. split; [reflexivity|]. split; [reflexivity|].
  vm_compute. discriminate.
Qed.

(** Against C9 as worded: for the mesh that [load_from_disk] leaves for a
    scene of three vertices and no face, the index buffer is empty, the
    consolidator fails, and yet the constructor goes on to the GPU objects
    with that mesh; the load is not abandoned. *)
Lemma Mesh_ctor_empty_geometry_returns :
  load_from_disk_ranges faceless_scene
  = Some (m_sub_meshes faceless, m_indices faceless,
          size (m_vertices faceless))
  /\ empty (m_indices faceless) = true
  /\ generate_lightmap_uvs Binary32.ops seam_packer faceless
     = Some (faceless, false)
  /\ Mesh_ctor Binary32.ops seam_packer stack roomy faceless true no_file
     = MeshReady faceless no_file
  /\ Mesh_ctor Binary32.ops seam_packer stack roomy faceless true no_file
     <> LoadFailed.
Proof.
  split; [vm_compute; reflexivity|]. split; [reflexivity|].
  split; [vm_compute; reflexivity|].
  assert (H : Mesh_ctor Binary32.ops seam_packer stack roomy faceless true
                no_file = MeshReady faceless no_file)
    by (vm_compute; reflexivity).
  split; [exact H|]. rewrite H. discriminate.
Qed.

(** Scenario B: the record of the consolidated triangle looked up with
    another hash is stale; the mesh stays as it was. *)
Example stale_cache_is_a_miss :
  load_lightmap_cache stack roomy
    (mk_CacheFile (Some (layout triangle_atlas (compute_mesh_hash triangle))) true)
    (compute_mesh_hash triangle + 1) triangle
  = (triangle, HashMismatch).
Proof. vm_compute. reflexivity. Qed.

(** Scenario D: the packer reports width 0; the mesh keeps its geometry and
    no cache file is written. *)
Example packing_failure_degrades :
  generate_lightmap_uvs Binary32.ops failing_packer triangle
  = Some (triangle, false)
  /\ Mesh_ctor Binary32.ops failing_packer stack roomy triangle true no_file
     = MeshReady triangle no_file.
Proof. vm_compute. split; reflexivity. Qed.

(** A first load consolidates and writes the cache; a second load of the
    same file hits the cache, ends with the same mesh and leaves the file
    as it is. *)
Example second_load_hits_the_cache :
  exists file,
    Mesh_ctor Binary32.ops seam_packer stack roomy triangle true no_file
    = MeshReady triangle_atlas file
    /\ Mesh_ctor Binary32.ops failing_packer stack roomy triangle true file
       = MeshReady triangle_atlas file.
Proof.
  exists (mk_CacheFile
            (Some (layout triangle_atlas (compute_mesh_hash triangle))) true).
  vm_compute. split; reflexivity.
Qed.

(* ------------------------------------------------------------------ *)
(** * Further properties of the code *)

(** ** Geometry hasher: what a change of the input does to the hash *)

Lemma lxor_u64 a b : is_u64 a -> is_u64 b -> is_u64 (Z.lxor a b).
Proof.
  unfold is_u64. intros [Ha Ha'] [Hb Hb'].
  assert (Hn : 0 <= Z.lxor a b) by (apply Z.lxor_nonneg; tauto).
  split; [exact Hn|].
  destruct (Z.eq_dec (Z.lxor a b) 0) as [-> | Hz]; [lia|].
  apply Z.log2_lt_pow2; [lia|].
  pose proof (Z.log2_lxor a b Ha Hb) as Hl.
  assert (La : Z.log2 a < 64).
  { destruct (Z.eq_dec a 0) as [-> | ?]; [cbn; lia|].
    apply Z.log2_lt_pow2; lia. }
  assert (Lb : Z.log2 b < 64).
  { destruct (Z.eq_dec b 0) as [-> | ?]; [cbn; lia|].
    apply Z.log2_lt_pow2; lia. }
  lia.
Qed.

Lemma lxor_cancel_l h a b : Z.lxor h a = Z.lxor h b -> a = b.
Proof.
  intros H. apply (f_equal (Z.lxor h)) in H.
  now rewrite <- !Z.lxor_assoc, Z.lxor_nilpotent, !Z.lxor_0_l in H.
Qed.

Lemma lxor_cancel_r a b d : Z.lxor a d = Z.lxor b d -> a = b.
Proof. rewrite !(Z.lxor_comm _ d). apply lxor_cancel_l. Qed.

(** Multiplying by the FNV prime is one-to-one on 64 bit values: the prime
    is odd, so it has an inverse modulo 2^64. *)
Lemma mul_FNV_PRIME_inj a b :
  is_u64 a -> is_u64 b ->
  to_u64 (a * FNV_PRIME) = to_u64 (b * FNV_PRIME) -> a = b.
Proof.
  unfold is_u64, to_u64. intros Ha Hb H.
  assert (Hinv : forall x, 0 <= x < 2 ^ 64 ->
             x = ((x * FNV_PRIME) mod 2 ^ 64 * FNV_PRIME_INV) mod 2 ^ 64).
  { intros x Hx. rewrite Z.mul_mod_idemp_l by lia.
    rewrite <- Z.mul_assoc, <- Z.mul_mod_idemp_r by lia.
    change ((FNV_PRIME * FNV_PRIME_INV) mod 2 ^ 64) with 1.
    rewrite Z.mul_1_r. symmetry. now apply Z.mod_small. }
  rewrite (Hinv a Ha), (Hinv b Hb), H. reflexivity.
Qed.

Lemma fnv1a_step_inj_unit h a b :
  is_u64 h -> is_u64 a -> is_u64 b ->
  fnv1a_step h a = fnv1a_step h b -> a = b.
Proof.
  intros Hh Ha Hb H. apply (lxor_cancel_l h).
  apply mul_FNV_PRIME_inj; [now apply lxor_u64 | now apply lxor_u64 | exact H].
Qed.

Lemma fnv1a_step_inj_state h1 h2 d :
  is_u64 h1 -> is_u64 h2 -> is_u64 d ->
  fnv1a_step h1 d = fnv1a_step h2 d -> h1 = h2.
Proof.
  intros H1 H2 Hd H. apply (lxor_cancel_r _ _ d).
  apply mul_FNV_PRIME_inj; [now apply lxor_u64 | now apply lxor_u64 | exact H].
Qed.

Lemma fnv1a_step_u64 h d : is_u64 (fnv1a_step h d).
Proof. unfold fnv1a_step, is_u64. apply Z.mod_pos_bound. lia. Qed.

Lemma fold_fnv1a_inj_state units :
  Forall is_u64 units ->
  forall h1 h2,
    is_u64 h1 -> is_u64 h2 ->
    fold_left fnv1a_step units h1 = fold_left fnv1a_step units h2 ->
    h1 = h2.
Proof.
  induction 1 as [|d units Hd _ IH]; intros h1 h2 H1 H2 H; cbn in H.
  - exact H.
  - apply (fnv1a_step_inj_state h1 h2 d); try assumption.
    apply IH; [apply fnv1a_step_u64 | apply fnv1a_step_u64 | exact H].
Qed.

Lemma FNV_OFFSET_u64 : is_u64 14695981039346656037.
Proof. unfold is_u64. lia. Qed.

Lemma compute_mesh_hash_units m :
  compute_mesh_hash m = fnv1a (hash_units m).
Proof. apply compute_mesh_hash_spec_hash. Qed.

Lemma byte_units_u64 (bs : list byte) : Forall is_u64 (map byte_to_Z bs).
Proof.
  apply Forall_forall. intros z Hz. apply in_map_iff in Hz.
  destruct Hz as (b & <- & _). pose proof (byte_to_Z_range b).
  unfold is_u64. lia.
Qed.

Lemma hash_units_u64 m :
  Forall wf_SubMesh (m_sub_meshes m) -> Forall is_u64 (hash_units m).
Proof.
  intros Hs. unfold hash_units, position_units, index_units, submesh_units.
  repeat (apply Forall_app; split).
  - apply Forall_flat_map, Forall_forall. intros v _. apply byte_units_u64.
  - apply Forall_flat_map, Forall_forall. intros i _. apply byte_units_u64.
  - apply Forall_flat_map.
    eapply Forall_impl; [|exact Hs]. intros sm (_ & H1 & _ & H2 & _).
    unfold is_u32, is_u64 in *. repeat constructor; lia.
Qed.

(** X1. One changed unit always changes the hash: when the units hashed
    for two meshes (position bytes, index bytes, [index_count] and
    [base_index] of the submeshes, all within [uint32_t]) are the same
    sequence except at one place, the two hashes differ. *)
Theorem compute_mesh_hash_single_unit_change :
  forall (m1 m2 : Mesh) (before after : list Z) (a b : Z),
    Forall wf_SubMesh (m_sub_meshes m1) ->
    Forall wf_SubMesh (m_sub_meshes m2) ->
    hash_units m1 = before ++ a :: after ->
    hash_units m2 = before ++ b :: after ->
    a <> b ->
    compute_mesh_hash m1 <> compute_mesh_hash m2.
Proof.
  intros m1 m2 before after a b W1 W2 E1 E2 Hab Hh.
  rewrite !compute_mesh_hash_units, E1, E2 in Hh. unfold fnv1a in Hh.
  pose proof (hash_units_u64 m1 W1) as U1. rewrite E1 in U1.
  pose proof (hash_units_u64 m2 W2) as U2. rewrite E2 in U2.
  apply Forall_app in U1. destruct U1 as [Ub U1].
  apply Forall_app in U2. destruct U2 as [_ U2].
  inversion U1 as [|? ? Ha Hafter]; subst.
  inversion U2 as [|? ? Hb _]; subst.
  rewrite !fold_left_app in Hh. cbn [fold_left] in Hh.
  apply fold_fnv1a_inj_state in Hh;
    [|assumption | apply fnv1a_step_u64 | apply fnv1a_step_u64].
  apply fnv1a_step_inj_unit in Hh; try assumption; [contradiction|].
  apply fold_fnv_step_range. exact FNV_OFFSET_u64.
Qed.

(* ------------------------------------------------------------------ *)
(** ** Cache codec: the file format and what a hit gives back *)

(** X2. The file format: for a snapshot that fits the casts of the codec
    and a file that can be created, [save_lightmap_cache] succeeds and
    leaves exactly the layout (the header of 36 bytes, the vertex records,
    the indices, then one record for each submesh); its length is 36 + 96
    for every vertex + 4 for every index + 48 and the length of the name
    for every submesh. *)
Theorem save_lightmap_cache_layout :
  forall (file : CacheFile) (s : Mesh) (mesh_hash : Z),
    cacheable s -> creatable file = true ->
    save_lightmap_cache file s mesh_hash
    = (mk_CacheFile (Some (layout s mesh_hash)) true, true)
    /\ size (layout s mesh_hash) = record_size s.
Proof.
  intros file s mesh_hash Hc Hf. split.
  - now apply save_writes_layout.
  - apply layout_length.
Qed.

(** X3. Writing back what was read: when a file is a cache hit, the mesh
    it gives fits the casts of the codec, the file is at least as long as
    the record of that mesh, and saving that mesh under the same hash
    writes the bytes the file begins with, all of the file apart from what
    trailed the record. *)
Theorem load_then_save_roundtrip :
  forall (uninit : nat -> Z) (store : Request -> bool) (bytes : list byte)
         (c : bool) (expected_hash : Z) (m m' : Mesh) (file : CacheFile),
    load_lightmap_cache uninit store (mk_CacheFile (Some bytes) c)
      expected_hash m
    = (m', CacheLoaded) ->
    creatable file = true ->
    cacheable m'
    /\ record_size m' <= size bytes
    /\ exists record rest,
         bytes = record ++ rest
         /\ save_lightmap_cache file m' expected_hash
            = (mk_CacheFile (Some record) true, true).
Proof.
  intros uninit store bytes c expected_hash m m' file Hload Hf.
  destruct (load_hit_layout uninit store _ _ _ _ _ Hload)
    as (Hc & _ & _ & rest & ->).
  split; [exact Hc|]. split.
  - unfold size. rewrite length_app, Nat2Z.inj_add, layout_length. lia.
  - exists (layout m' expected_hash), rest. split; [reflexivity|].
    now apply save_writes_layout.
Qed.

(** X4. A stale record is always told apart: a record written for one 64
    bit hash and looked up with any other is a hash mismatch, and the mesh
    stays as it was. *)
Theorem load_lightmap_cache_stale :
  forall (uninit : nat -> Z) (store : Request -> bool) (s : Mesh)
         (mesh_hash expected_hash : Z) (extra : list byte) (c : bool)
         (m : Mesh),
    cacheable s -> is_u64 mesh_hash ->
    expected_hash <> mesh_hash ->
    load_lightmap_cache uninit store
      (mk_CacheFile (Some (layout s mesh_hash ++ extra)) c) expected_hash m
    = (m, HashMismatch).
Proof.
  intros uninit store s mesh_hash expected_hash extra c m Hc Hh Hne.
  unfold load_lightmap_cache, layout. cbn [content].
  rewrite <- app_assoc, read_header_app by assumption.
  cbn [in_fail h_magic h_version h_stored_hash]. rewrite !Z.eqb_refl.
  cbn [negb].
  destruct (mesh_hash =? expected_hash) eqn:E; [|reflexivity].
  apply Z.eqb_eq in E. congruence.
Qed.

(** X23. A record cut short is never adopted: for every proper prefix of
    a record that [save_lightmap_cache] wrote with success the lookup is
    no hit, and the mesh is as it was whenever the lookup returns or
    throws; cut in the header it is the first read error; cut behind the
    header it is the second read error, or [std::bad_alloc], or the use of
    [name_len] without a value. *)
Theorem load_lightmap_cache_truncated_never_adopts :
  forall (uninit : nat -> Z) (store : Request -> bool) (s : Mesh)
         (mesh_hash : Z) (file file' : CacheFile),
    representable s -> is_u64 mesh_hash ->
    save_lightmap_cache file s mesh_hash = (file', true) ->
    exists record,
      content file' = Some record
      /\ forall (n : nat) (c : bool) (m : Mesh),
           (n < length record)%nat ->
           let r := load_lightmap_cache uninit store
                      (mk_CacheFile (Some (firstn n record)) c) mesh_hash m in
           load_ok (snd r) = false
           /\ (snd r <> UndefinedBehaviour -> fst r = m)
           /\ ((n < 36)%nat -> snd r = ReadErrorHeader)
           /\ ((36 <= n)%nat ->
               snd r = ReadErrorData \/ snd r = ThrewBadAlloc
               \/ snd r = UndefinedBehaviour).
Proof.
  intros uninit store s mesh_hash file file' Hr Hh Hsave.
  destruct (save_true_layout file file' s mesh_hash Hr Hsave) as (Hc & ->).
  exists (layout s mesh_hash). split; [reflexivity|].
  intros n c m Hn r.
  assert (Hno : load_ok (snd r) = false)
    by (apply load_truncated_not_hit; assumption).
  split; [exact Hno|].
  split; [intros _; now apply load_failure_keeps_mesh|].
  split.
  - intros Hs. unfold r. rewrite load_short_header; [reflexivity|].
    rewrite length_firstn. lia.
  - intros Hl.
    pose proof (load_truncated_data uninit store s mesh_hash n c m Hc Hh
                  ltac:(lia)) as Hin.
    fold r in Hin. cbn [In] in Hin.
    destruct Hin as [<- | [<- | [<- | []]]]; cbn [snd]; auto.
Qed.

(** X24. Where the cut makes the lookup undefined: for a record with at
    least one submesh, when the free store grants the three vectors, every
    cut behind the header and before the length field of the first name is
    complete (in the vertices, in the indices, or in that field) ends in
    the use of [name_len] without a value. *)
Theorem load_lightmap_cache_truncated_before_name :
  forall (uninit : nat -> Z) (store : Request -> bool) (s : Mesh)
         (mesh_hash : Z) (n : nat) (c : bool) (m : Mesh),
    cacheable s -> is_u64 mesh_hash ->
    m_sub_meshes s <> [] ->
    store (Vertices (size (m_vertices s))) = true ->
    store (Indices (size (m_indices s))) = true ->
    store (SubMeshes (size (m_sub_meshes s))) = true ->
    36 <= Z.of_nat n
    < 36 + 96 * size (m_vertices s) + 4 * size (m_indices s) + 4 ->
    load_lightmap_cache uninit store
      (mk_CacheFile (Some (firstn n (layout s mesh_hash))) c) mesh_hash m
    = (m, UndefinedBehaviour).
Proof.
  intros uninit store s mesh_hash n c m Hc Hh Hsm Hgv Hgi Hgs Hn.
  unfold load_lightmap_cache. cbn [content].
  rewrite read_header_cut by (assumption || lia).
  cbn [in_fail h_magic h_version h_stored_hash h_lightmap_width
       h_lightmap_height].
  rewrite !Z.eqb_refl. cbn [negb].
  pose proof (read_data_cut store s mesh_hash (m_lightmap_width s)
                (m_lightmap_height s) (n - 36) Hc Hsm Hgv Hgi Hgs
                ltac:(lia)) as Hd.
  destruct (read_data store _ _) as [o f2]. cbn [fst] in Hd. now subst o.
Qed.

(* ------------------------------------------------------------------ *)
(** ** Atlas consolidator: when it is defined and what success leaves *)

Section ConsolidateMore.

Variable F : FloatOps.
Variable P : Packer.

Lemma build_new_vertices_defined vertices atlas todo :
  Forall (xref_in_range vertices) todo ->
  forall acc, exists out,
    build_new_vertices F vertices atlas todo acc = Some out.
Proof.
  induction 1 as [|xvert rest Hx _ IH]; intros acc; cbn [build_new_vertices].
  - now exists acc.
  - destruct (nth_error vertices (Z.to_nat (xref xvert))) as [old|] eqn:E.
    + apply IH.
    + apply nth_error_None in E. unfold xref_in_range, size in Hx. lia.
Qed.

Lemma build_new_vertices_undefined vertices atlas todo :
  forall acc,
    build_new_vertices F vertices atlas todo acc = None ->
    exists xvert,
      In xvert todo /\ (length vertices <= Z.to_nat (xref xvert))%nat.
Proof.
  induction todo as [|xvert rest IH]; intros acc H; cbn [build_new_vertices] in H.
  - discriminate H.
  - destruct (nth_error vertices (Z.to_nat (xref xvert))) as [old|] eqn:E.
    + destruct (IH _ H) as (x & Hin & Hx). exists x. split; [now right | exact Hx].
    + exists xvert. split; [now left | now apply nth_error_None].
Qed.

Lemma rebase_sub_meshes_identity sub_meshes :
  forall current_index nv,
    Forall2 same_identity sub_meshes
      (rebase_sub_meshes sub_meshes current_index nv).
Proof.
  induction sub_meshes as [|sm rest IH]; intros; cbn [rebase_sub_meshes];
    constructor; [now repeat split | apply IH].
Qed.

End ConsolidateMore.

(** X5. [generate_lightmap_uvs] has defined behaviour exactly when the
    back-references it follows name pre-atlas vertices: if every vertex of
    the packer's first output mesh has its back-reference below the number
    of vertices, the call returns; and when it does not return, the packer
    reported one mesh and some back-reference of it is past the end of the
    vertex buffer. *)
Theorem generate_lightmap_uvs_defined :
  forall (F : FloatOps) (P : Packer) (m : Mesh),
    let atlas := xatlas_Generate P (mesh_decl_of m) in
    ((forall xmesh,
         nth_error (meshes atlas) 0 = Some xmesh ->
         Forall (xref_in_range (m_vertices m)) (vertexArray xmesh)) ->
     exists m' ok, generate_lightmap_uvs F P m = Some (m', ok))
    /\ (generate_lightmap_uvs F P m = None ->
        exists xmesh xvert,
          meshes atlas = [xmesh]
          /\ In xvert (vertexArray xmesh)
          /\ (length (m_vertices m) <= Z.to_nat (xref xvert))%nat).
Proof.
  intros F P m atlas. split.
  - intros Hx. unfold generate_lightmap_uvs. fold atlas.
    destruct (empty (m_vertices m) || empty (m_indices m)); [now eexists; eexists|].
    destruct (negb (AddMeshError_eqb (xatlas_AddMesh P (mesh_decl_of m)) Success));
      [now eexists; eexists|].
    destruct ((width atlas =? 0) || (height atlas =? 0)); [now eexists; eexists|].
    destruct (negb (meshCount atlas =? 1)) eqn:Ec; [now eexists; eexists|].
    apply negb_false_iff, Z.eqb_eq in Ec. unfold meshCount, size in Ec.
    destruct (meshes atlas) as [|xmesh more] eqn:Em; [cbn in Ec; lia|].
    cbn [nth_error m_vertices].
    destruct (build_new_vertices_defined F (m_vertices m) atlas
                (vertexArray xmesh) (Hx xmesh eq_refl) []) as (out & ->).
    now eexists; eexists.
  - intros H. unfold generate_lightmap_uvs in H. fold atlas in H.
    destruct (empty (m_vertices m) || empty (m_indices m)); [discriminate|].
    destruct (negb (AddMeshError_eqb (xatlas_AddMesh P (mesh_decl_of m)) Success));
      [discriminate|].
    destruct ((width atlas =? 0) || (height atlas =? 0)); [discriminate|].
    destruct (negb (meshCount atlas =? 1)) eqn:Ec; [discriminate|].
    apply negb_false_iff, Z.eqb_eq in Ec. unfold meshCount, size in Ec.
    destruct (meshes atlas) as [|xmesh [|x2 more]] eqn:Em;
      cbn [length] in Ec; try lia.
    cbn [nth_error m_vertices] in H.
    destruct (build_new_vertices F (m_vertices m) atlas (vertexArray xmesh) [])
      eqn:Eb; [discriminate|].
    destruct (build_new_vertices_undefined F _ _ _ _ Eb) as (xvert & Hin & Hx).
    now exists xmesh, xvert.
Qed.

(** X6. What a successful consolidation leaves besides the vertices and
    the submesh ranges: the mesh had vertices and indices, the packer took
    the mesh and reported one output mesh and an atlas with non-zero width
    and height; afterwards the lightmap flag is set, the atlas dimensions
    are stored, the index buffer is the packer's index array, and every
    submesh keeps its name, material index and extents. *)
Theorem generate_lightmap_uvs_success :
  forall (F : FloatOps) (P : Packer) (m m' : Mesh),
    generate_lightmap_uvs F P m = Some (m', true) ->
    let atlas := xatlas_Generate P (mesh_decl_of m) in
    m_vertices m <> [] /\ m_indices m <> []
    /\ xatlas_AddMesh P (mesh_decl_of m) = Success
    /\ width atlas <> 0 /\ height atlas <> 0
    /\ m_has_lightmap_uvs m' = true
    /\ m_lightmap_width m' = width atlas
    /\ m_lightmap_height m' = height atlas
    /\ (exists xmesh,
          meshes atlas = [xmesh] /\ m_indices m' = indexArray xmesh)
    /\ Forall2 same_identity (m_sub_meshes m) (m_sub_meshes m').
Proof.
  intros F P m m' H atlas.
  destruct (generate_success F P m m' H) as (xmesh & nv & Hm & _ & Hm').
  fold atlas in Hm, Hm'.
  unfold generate_lightmap_uvs in H. fold atlas in H.
  destruct (empty (m_vertices m) || empty (m_indices m)) eqn:Ee; [discriminate|].
  destruct (AddMeshError_eqb (xatlas_AddMesh P (mesh_decl_of m)) Success) eqn:Ea;
    [|discriminate].
  destruct ((width atlas =? 0) || (height atlas =? 0)) eqn:Ew; [discriminate|].
  clear H. apply orb_false_iff in Ee, Ew.
  destruct Ee as [Ev Ei]. destruct Ew as [Ew Eh].
  apply Z.eqb_neq in Ew, Eh. subst m'.
  cbn [m_has_lightmap_uvs m_lightmap_width m_lightmap_height m_indices
       m_sub_meshes].
  repeat split; try assumption.
  - intros E. rewrite E in Ev. discriminate Ev.
  - intros E. rewrite E in Ei. discriminate Ei.
  - now destruct (xatlas_AddMesh P (mesh_decl_of m)).
  - now exists xmesh.
  - apply rebase_sub_meshes_identity.
Qed.

Lemma same_identity_names sms sms' :
  Forall2 same_identity sms sms' ->
  Forall (fun sm => size (bytes_of_name (name sm)) < 2 ^ 32) sms ->
  Forall (fun sm => size (bytes_of_name (name sm)) < 2 ^ 32) sms'.
Proof.
  induction 1 as [|sm sm' sms sms' (Hn & _) _ IH]; intros H; [constructor|].
  inversion H; subst. constructor; [now rewrite Hn | now apply IH].
Qed.

(** X7. What the consolidator produces can be cached: when the mesh fits
    the types of the cache, the float operations answer with 32 bit
    patterns and the atlas is within the types of the packer with fewer
    than 2^31 vertices and indices, the consolidated mesh fits the casts of
    the codec. *)
Theorem generate_lightmap_uvs_cacheable :
  forall (F : FloatOps) (P : Packer) (m m' : Mesh),
    generate_lightmap_uvs F P m = Some (m', true) ->
    representable m ->
    float_ops_fit F ->
    atlas_fits (xatlas_Generate P (mesh_decl_of m)) ->
    cacheable m'.
Proof.
  intros F P m m' Hgen (Hwf & _ & _ & Hs & Hn) HF (Hw & Hh & Hfit).
  assert (Hidx : Forall (fun xmesh => Forall is_u32 (indexArray xmesh))
                   (meshes (xatlas_Generate P (mesh_decl_of m))))
    by (eapply Forall_impl; [|exact Hfit]; intros x (H & _); exact H).
  pose proof (generate_lightmap_uvs_wf F P m m' Hgen Hwf HF Hw Hh Hidx) as Hwf'.
  destruct (generate_success F P m m' Hgen) as (xmesh & nv & Hm & Hb & ->).
  destruct (build_new_vertices_spec F _ _ _ _ _ Hb) as (made & -> & Hmade).
  rewrite Hm in Hfit. inversion Hfit as [|? ? (_ & Hv & Hi) _]; subst.
  apply Forall2_length in Hmade.
  unfold cacheable.
  cbn [app m_vertices m_indices m_sub_meshes] in *.
  refine (conj Hwf' (conj _ (conj Hi (conj _ _)))).
  - unfold size in *. rewrite <- Hmade. exact Hv.
  - unfold size. rewrite rebase_sub_meshes_length. exact Hs.
  - eapply same_identity_names; [apply rebase_sub_meshes_identity | exact Hn].
Qed.

(* ------------------------------------------------------------------ *)
(** ** Cache orchestration: hits, misses and what is written *)

Section CtorMore.

Variable F : FloatOps.
Variable P : Packer.
Variable uninit : nat -> Z.
Variable store : Request -> bool.


Lemma Mesh_ctor_miss m file :
  load_missed
    (snd (load_lightmap_cache uninit store file (compute_mesh_hash m) m))
  = true ->
  Mesh_ctor F P uninit store m true file
  = match generate_lightmap_uvs F P m with
    | None => Undefined
    | Some (m2, true) =>
        MeshReady m2 (fst (save_lightmap_cache file m2 (compute_mesh_hash m)))
    | Some (m2, false) => MeshReady m2 file
    end.
Proof.
  intros H. unfold Mesh_ctor.
  assert (Hk : fst (load_lightmap_cache uninit store file
                      (compute_mesh_hash m) m) = m).
  { apply load_failure_keeps_mesh.
    now destruct (snd (load_lightmap_cache uninit store file
                         (compute_mesh_hash m) m)). }
  destruct (load_lightmap_cache uninit store file (compute_mesh_hash m) m)
    as [m1 st].
  cbn [fst snd] in *. subst m1.
  destruct st; try discriminate H;
    (destruct (generate_lightmap_uvs F P m) as [[m2 [|]]|]; try reflexivity;
     now destruct (save_lightmap_cache file m2 (compute_mesh_hash m))).
Qed.

End CtorMore.


(** X9. What the constructor makes of the cache lookup.  When
    [load_lightmap_cache] returns [false] (no file, short or foreign
    header, other version, other hash, or data that ends early where the
    reads have defined behaviour), the construction ends with the mesh it
    would end with if nothing were at the cache path.  It is not so for a
    file that makes the lookup throw [std::bad_alloc] (counts in the
    header that the free store refuses): nothing catches the exception
    and the load is abandoned; nor for one that makes the lookup use
    [name_len] without a value: the construction then has no defined
    behaviour. *)
Theorem Mesh_ctor_by_cache_lookup :
  forall (F : FloatOps) (P : Packer) (uninit : nat -> Z)
         (store : Request -> bool) (m : Mesh) (file : CacheFile),
    let status :=
      snd (load_lightmap_cache uninit store file (compute_mesh_hash m) m) in
    (load_missed status = true ->
     outcome_mesh (Mesh_ctor F P uninit store m true file)
     = outcome_mesh
         (Mesh_ctor F P uninit store m true
            (mk_CacheFile None (creatable file))))
    /\ (status = ThrewBadAlloc ->
        Mesh_ctor F P uninit store m true file = LoadFailed)
    /\ (status = UndefinedBehaviour ->
        Mesh_ctor F P uninit store m true file = Undefined).
Proof.
  intros F P uninit store m file status.
  split; [|split].
  - intros Hmiss.
    rewrite (Mesh_ctor_miss F P uninit store m file Hmiss).
    rewrite (Mesh_ctor_miss F P uninit store m
               (mk_CacheFile None (creatable file))) by reflexivity.
    now destruct (generate_lightmap_uvs F P m) as [[m2 [|]]|].
  - unfold status, Mesh_ctor.
    destruct (load_lightmap_cache uninit store file (compute_mesh_hash m) m)
      as [m1 st].
    cbn [snd]. now intros ->.
  - unfold status, Mesh_ctor.
    destruct (load_lightmap_cache uninit store file (compute_mesh_hash m) m)
      as [m1 st].
    cbn [snd]. now intros ->.
Qed.

(* ------------------------------------------------------------------ *)
(** ** Materials of the submeshes *)

Section MaterialFacts.

Context {Material : Type}.

Lemma material_of_appended (materials : list Material) material sm idx :
  size materials < 2 ^ 32 ->
  idx = to_u32 (size materials) ->
  material_of Material (materials ++ [material]) (with_mat_idx sm idx)
  = Some material.
Proof.
  intros Hs ->. unfold material_of, with_mat_idx. cbn [mat_idx].
  rewrite to_u32_small by (split; [apply size_nonneg | exact Hs]).
  unfold size. rewrite Nat2Z.id, nth_error_app2, Nat.sub_diag by lia.
  reflexivity.
Qed.

Lemma assign_mat_idx_nth (sub_meshes : list SubMesh) k idx :
  forall i,
    nth_error (assign_mat_idx sub_meshes k idx) i
    = if Nat.eqb i k
      then option_map (fun sm => with_mat_idx sm idx) (nth_error sub_meshes i)
      else nth_error sub_meshes i.
Proof.
  revert k. induction sub_meshes as [|sm rest IH]; intros k i.
  - cbn. destruct i; destruct (Nat.eqb _ k); reflexivity.
  - destruct k as [|k]; destruct i as [|i]; cbn; try reflexivity.
    apply IH.
Qed.

Lemma assign_mat_idx_length (sub_meshes : list SubMesh) k idx :
  length (assign_mat_idx sub_meshes k idx) = length sub_meshes.
Proof.
  revert k. induction sub_meshes as [|sm rest IH]; intros k; [reflexivity|].
  destruct k; cbn; [reflexivity | now rewrite IH].
Qed.

End MaterialFacts.

(** X10. [set_submesh_material] by index checks its bound: an index at or
    past the number of submeshes returns [false] and changes nothing; an
    index in range returns [true], appends the material to the materials
    (none is removed), makes that one submesh point to the new material and
    leaves every other submesh as it was. *)
Theorem set_submesh_material_by_index_spec :
  forall (Material : Type) (mesh_idx : Z) (material : Material)
         (sub_meshes : list SubMesh) (materials : list Material),
    0 <= mesh_idx -> size materials < 2 ^ 32 ->
    let '(sub_meshes', materials', ok) :=
      set_submesh_material_by_index Material mesh_idx material sub_meshes
        materials in
    (ok = false <-> size sub_meshes <= mesh_idx)
    /\ (ok = false -> sub_meshes' = sub_meshes /\ materials' = materials)
    /\ (ok = true ->
        materials' = materials ++ [material]
        /\ length sub_meshes' = length sub_meshes
        /\ (forall i sm,
              nth_error sub_meshes i = Some sm ->
              i <> Z.to_nat mesh_idx ->
              nth_error sub_meshes' i = Some sm)
        /\ (exists sm sm',
              nth_error sub_meshes (Z.to_nat mesh_idx) = Some sm
              /\ nth_error sub_meshes' (Z.to_nat mesh_idx) = Some sm'
              /\ sm' = with_mat_idx sm (size materials)
              /\ material_of Material materials' sm' = Some material)).
Proof.
  intros Material mesh_idx material sub_meshes materials Hi Hs.
  unfold set_submesh_material_by_index.
  destruct (mesh_idx >=? size sub_meshes) eqn:E.
  - apply Z.geb_le in E.
    split; [split; [intros _; exact E | reflexivity]|].
    split; [intros _; split; reflexivity | discriminate].
  - assert (Hlt : mesh_idx < size sub_meshes).
    { destruct (Z.lt_ge_cases mesh_idx (size sub_meshes)) as [H | H];
        [exact H|]. apply Z.geb_le in H. congruence. }
    split; [split; [discriminate | lia]|].
    split; [discriminate|]. intros _.
    split; [reflexivity|]. split; [apply assign_mat_idx_length|]. split.
    + intros i sm Hn Hne. rewrite assign_mat_idx_nth.
      destruct (Nat.eqb i (Z.to_nat mesh_idx)) eqn:En; [|exact Hn].
      apply Nat.eqb_eq in En. contradiction.
    + destruct (nth_error sub_meshes (Z.to_nat mesh_idx)) as [sm|] eqn:En.
      * exists sm, (with_mat_idx sm (size materials)).
        split; [reflexivity|]. split.
        -- rewrite assign_mat_idx_nth, Nat.eqb_refl, En. cbn.
           now rewrite to_u32_small by (split; [apply size_nonneg | exact Hs]).
        -- split; [reflexivity|]. apply material_of_appended; [exact Hs|].
           symmetry. apply to_u32_small. split; [apply size_nonneg | exact Hs].
      * apply nth_error_None in En. unfold size in Hlt. lia.
Qed.

(** X11. [set_submesh_material] by name touches the first submesh of that
    name and no other: it returns [true] exactly when some submesh has the
    name; then the material is appended and the first submesh with the name
    points to it, while the submeshes before and after it (also later ones
    of the same name) are as they were; with no such submesh nothing
    changes. *)
Theorem set_submesh_material_by_name_spec :
  forall (Material : Type) (nm : String.string) (material : Material)
         (sub_meshes : list SubMesh) (materials : list Material),
    let '(sub_meshes', materials', found) :=
      set_submesh_material_by_name Material nm material sub_meshes materials in
    (found = true <-> exists sm, In sm sub_meshes /\ name sm = nm)
    /\ (found = false -> sub_meshes' = sub_meshes /\ materials' = materials)
    /\ (found = true ->
        materials' = materials ++ [material]
        /\ exists before sm after,
             sub_meshes = before ++ sm :: after
             /\ Forall (fun s => name s <> nm) before
             /\ name sm = nm
             /\ sub_meshes'
                = before ++ with_mat_idx sm (to_u32 (size materials)) :: after).
Proof.
  intros Material nm material sub_meshes materials.
  induction sub_meshes as [|sm rest IH]; cbn [set_submesh_material_by_name].
  - split; [split; [discriminate | intros (sm & [] & _)]|].
    split; [now split | discriminate].
  - destruct (String.eqb nm (name sm)) eqn:E.
    + apply String.eqb_eq in E.
      split; [split; [intros _; exists sm; split; [now left | now symmetry]
                     | reflexivity]|].
      split; [discriminate|]. intros _. split; [reflexivity|].
      exists [], sm, rest. cbn [app].
      split; [reflexivity|]. split; [constructor|]. split; [now symmetry | reflexivity].
    + apply String.eqb_neq in E.
      destruct (set_submesh_material_by_name Material nm material rest materials)
        as [[rest' materials'] found].
      destruct IH as (Hiff & Hno & Hyes).
      split; [|split].
      * rewrite Hiff. split.
        -- intros (s & Hin & Hn). exists s. split; [now right | exact Hn].
        -- intros (s & [<- | Hin] & Hn); [congruence|]. now exists s.
      * intros Hf. destruct (Hno Hf) as (-> & ->). now split.
      * intros Hf. destruct (Hyes Hf) as (-> & before & s & after & -> & Hb & Hn & ->).
        split; [reflexivity|].
        exists (sm :: before), s, after. cbn [app].
        split; [reflexivity|]. split; [constructor; [congruence | exact Hb]|].
        split; [exact Hn | reflexivity].
Qed.

(** X12. [set_global_material] makes every submesh point to the material
    it appends: the materials grow by that one material, the submeshes keep
    their number and everything but [mat_idx], and the material of every
    submesh is the new one. *)
Theorem set_global_material_spec :
  forall (Material : Type) (material : Material)
         (sub_meshes : list SubMesh) (materials : list Material),
    size materials < 2 ^ 32 ->
    let '(sub_meshes', materials') :=
      set_global_material Material material sub_meshes materials in
    materials' = materials ++ [material]
    /\ Forall2 (fun sm sm' => sm' = with_mat_idx sm (size materials))
         sub_meshes sub_meshes'
    /\ Forall (fun sm' => material_of Material materials' sm' = Some material)
         sub_meshes'.
Proof.
  intros Material material sub_meshes materials Hs.
  unfold set_global_material.
  rewrite to_u32_small by (split; [apply size_nonneg | exact Hs]).
  split; [reflexivity|]. split.
  - induction sub_meshes as [|sm rest IH]; cbn [map]; constructor;
      [reflexivity | exact IH].
  - apply Forall_forall. intros sm' Hin. apply in_map_iff in Hin.
    destruct Hin as (sm & <- & _). apply material_of_appended; [exact Hs|].
    symmetry. apply to_u32_small. split; [apply size_nonneg | exact Hs].
Qed.

Lemma compute_mesh_hash_with_sub_meshes m sub_meshes :
  map (fun sm => (index_count sm, base_index sm)) sub_meshes
  = map (fun sm => (index_count sm, base_index sm)) (m_sub_meshes m) ->
  compute_mesh_hash (with_sub_meshes m sub_meshes) = compute_mesh_hash m.
Proof.
  intros H. unfold compute_mesh_hash, with_sub_meshes.
  cbn [m_vertices m_indices m_sub_meshes].
  now rewrite !hash_sub_meshes_ranges, H.
Qed.

Lemma assign_mat_idx_ranges sub_meshes :
  forall mesh_idx idx,
    map (fun sm => (index_count sm, base_index sm))
        (assign_mat_idx sub_meshes mesh_idx idx)
    = map (fun sm => (index_count sm, base_index sm)) sub_meshes.
Proof.
  induction sub_meshes as [|sm rest IH]; intros [|k] idx; cbn; try reflexivity.
  now rewrite IH.
Qed.

Lemma set_submesh_material_by_name_ranges Material nm material materials :
  forall sub_meshes,
    map (fun sm => (index_count sm, base_index sm))
        (fst (fst (set_submesh_material_by_name Material nm material
                     sub_meshes materials)))
    = map (fun sm => (index_count sm, base_index sm)) sub_meshes.
Proof.
  induction sub_meshes as [|sm rest IH]; [reflexivity|].
  cbn [set_submesh_material_by_name].
  destruct (String.eqb nm (name sm)); [reflexivity|].
  destruct (set_submesh_material_by_name Material nm material rest materials)
    as [[rest' materials'] found].
  cbn [fst map] in *. now rewrite IH.
Qed.

(** X13. Giving submeshes a material never changes the geometry hash:
    after either [set_submesh_material] or [set_global_material], whatever
    they return, [compute_mesh_hash] gives what it gave before, so a
    lightmap cache written for the mesh stays valid. *)
Theorem set_material_keeps_mesh_hash :
  forall (Material : Type) (m : Mesh) (nm : String.string) (mesh_idx : Z)
         (material : Material) (materials : list Material),
    compute_mesh_hash
      (with_sub_meshes m
         (fst (fst (set_submesh_material_by_name Material nm material
                      (m_sub_meshes m) materials))))
    = compute_mesh_hash m
    /\ compute_mesh_hash
         (with_sub_meshes m
            (fst (fst (set_submesh_material_by_index Material mesh_idx
                         material (m_sub_meshes m) materials))))
       = compute_mesh_hash m
    /\ compute_mesh_hash
         (with_sub_meshes m
            (fst (set_global_material Material material
                    (m_sub_meshes m) materials)))
       = compute_mesh_hash m.
Proof.
  intros Material m nm mesh_idx material materials.
  split; [|split]; apply compute_mesh_hash_with_sub_meshes.
  - apply set_submesh_material_by_name_ranges.
  - unfold set_submesh_material_by_index.
    destruct (mesh_idx >=? size (m_sub_meshes m)); cbn [fst];
      [reflexivity | apply assign_mat_idx_ranges].
  - unfold set_global_material. cbn [fst]. rewrite map_map. reflexivity.
Qed.

(* ------------------------------------------------------------------ *)
(** ** Importer: ranges and index buffer *)

Lemma int_subscript_true idx : 0 <= idx < 2 ^ 31 -> int_subscript idx = true.
Proof.
  intros H. unfold int_subscript. apply andb_true_iff. split.
  - apply Z.leb_le. lia.
  - apply Z.ltb_lt. lia.
Qed.

Lemma store_at_end done p pad x :
  size done < 2 ^ 31 ->
  store (done ++ p :: pad) (size done) x = Some (done ++ x :: pad).
Proof.
  intros H. unfold store.
  rewrite int_subscript_true by (split; [apply size_nonneg | exact H]).
  assert (Hlt : (size done <? size (done ++ p :: pad)) = true).
  { apply Z.ltb_lt. unfold size. rewrite length_app. cbn [length]. lia. }
  rewrite Hlt. cbn [andb]. unfold size. rewrite Nat2Z.id.
  rewrite firstn_app_exact by reflexivity.
  replace (S (length done)) with (length (done ++ [p]))
    by (rewrite length_app; cbn; lia).
  replace (done ++ p :: pad) with ((done ++ [p]) ++ pad)
    by (now rewrite <- app_assoc).
  now rewrite skipn_app_exact by reflexivity.
Qed.

Lemma fetch_middle pre t post :
  size pre < 2 ^ 31 -> fetch (pre ++ t :: post) (size pre) = Some t.
Proof.
  intros H. unfold fetch.
  rewrite int_subscript_true by (split; [apply size_nonneg | exact H]).
  unfold size. rewrite Nat2Z.id, nth_error_app2, Nat.sub_diag by lia.
  reflexivity.
Qed.

Lemma size_app {A} (l1 l2 : list A) : size (l1 ++ l2) = size l1 + size l2.
Proof. unfold size. rewrite length_app. lia. Qed.

Lemma size_cons {A} (x : A) (l : list A) : size (x :: l) = 1 + size l.
Proof. unfold size. cbn [length]. lia. Qed.

Lemma mesh_indices_size am : size (mesh_indices am) = 3 * mNumFaces am.
Proof.
  unfold mesh_indices, mNumFaces.
  induction (mFaces am) as [|f fs IH]; [reflexivity|].
  cbn [flat_map]. rewrite size_app, IH, size_cons.
  unfold face_indices, size. cbn [length]. lia.
Qed.

Lemma local_indices_size scene :
  size (local_indices scene) = scene_index_count scene.
Proof.
  unfold local_indices, scene_index_count.
  induction scene as [|am rest IH]; [reflexivity|].
  cbn [flat_map fold_right]. now rewrite size_app, IH, mesh_indices_size.
Qed.

(** Copying faces fills [temp_indices] behind what is there. *)
Lemma copy_faces_spec faces :
  forall done pad,
    3 * size faces <= size pad ->
    size done + 3 * size faces < 2 ^ 31 ->
    copy_faces faces (done ++ pad) (size done)
    = Some (done ++ flat_map face_indices faces
              ++ skipn (3 * length faces) pad,
            size done + 3 * size faces).
Proof.
  induction faces as [|f rest IH]; intros done pad Hpad Hint.
  - cbn. f_equal. f_equal. unfold size. cbn. lia.
  - rewrite size_cons in Hpad, Hint.
    pose proof (size_nonneg rest) as Hr. pose proof (size_nonneg done) as Hd.
    destruct pad as [|p0 [|p1 [|p2 pad]]];
      try (unfold size in Hpad; cbn [length] in Hpad; lia).
    cbn [copy_faces].
    rewrite store_at_end by lia.
    replace (done ++ mIndices0 f :: p1 :: p2 :: pad)
      with ((done ++ [mIndices0 f]) ++ p1 :: p2 :: pad)
      by (now rewrite <- app_assoc).
    replace (size done + 1) with (size (done ++ [mIndices0 f]))
      by (rewrite size_app; reflexivity).
    rewrite store_at_end by (rewrite size_app; cbn; lia).
    replace ((done ++ [mIndices0 f]) ++ mIndices1 f :: p2 :: pad)
      with ((done ++ [mIndices0 f; mIndices1 f]) ++ p2 :: pad)
      by (now rewrite <- !app_assoc).
    replace (size done + 2) with (size (done ++ [mIndices0 f; mIndices1 f]))
      by (rewrite size_app; reflexivity).
    rewrite store_at_end by (rewrite size_app; cbn; lia).
    replace ((done ++ [mIndices0 f; mIndices1 f]) ++ mIndices2 f :: pad)
      with ((done ++ face_indices f) ++ pad)
      by (unfold face_indices; now rewrite <- !app_assoc).
    replace (size done + 3) with (size (done ++ face_indices f))
      by (rewrite size_app; reflexivity).
    rewrite IH.
    + rewrite size_app. cbn [flat_map length].
      replace (3 * S (length rest))%nat with (3 + 3 * length rest)%nat by lia.
      rewrite <- !app_assoc.
      replace (skipn (3 + 3 * length rest) (p0 :: p1 :: p2 :: pad))
        with (skipn (3 * length rest) pad) by reflexivity.
      f_equal. f_equal. unfold face_indices, size. cbn [length]. lia.
    + unfold size in *. cbn [length] in Hpad. lia.
    + rewrite size_app. unfold face_indices, size in *. cbn [length]. lia.
Qed.

Lemma scene_index_count_nonneg scene : 0 <= scene_index_count scene.
Proof. rewrite <- local_indices_size. apply size_nonneg. Qed.

Lemma scene_vertex_count_pos scene :
  Forall (fun am => 0 < mNumVertices am) scene -> 0 <= scene_vertex_count scene.
Proof.
  induction 1 as [|am rest Ham _ IH]; cbn; [lia|].
  fold (scene_vertex_count rest). lia.
Qed.

Lemma vertex_loop_defined_true am m_vertices_size vertexIndex :
  0 < mNumVertices am ->
  vertexIndex + mNumVertices am <= m_vertices_size ->
  vertexIndex + mNumVertices am < 2 ^ 31 ->
  vertex_loop_defined am m_vertices_size vertexIndex = true.
Proof.
  intros H1 H2 H3. unfold vertex_loop_defined.
  apply Z.ltb_lt in H1. apply Z.leb_le in H2. apply Z.ltb_lt in H3.
  now rewrite H1, H2, H3.
Qed.

Lemma copy_scene_spec scene :
  forall m_vertices_size done pad vertexIndex,
    Forall (fun am => 0 < mNumVertices am) scene ->
    vertexIndex + scene_vertex_count scene <= m_vertices_size ->
    vertexIndex + scene_vertex_count scene < 2 ^ 31 ->
    scene_index_count scene <= size pad ->
    size done + scene_index_count scene < 2 ^ 31 ->
    copy_scene scene m_vertices_size (done ++ pad) (size done) vertexIndex
    = Some (done ++ local_indices scene
              ++ skipn (Z.to_nat (scene_index_count scene)) pad,
            size done + scene_index_count scene).
Proof.
  induction scene as [|am rest IH];
    intros vsize done pad vi Hpos Hvs Hvi Hpad Hint.
  - cbn. f_equal. f_equal. lia.
  - inversion Hpos as [|? ? Ham Hrpos]; subst.
    pose proof (scene_vertex_count_pos rest Hrpos) as Hrv.
    pose proof (scene_index_count_nonneg rest) as Hrest.
    cbn [scene_index_count scene_vertex_count fold_right] in *.
    fold (scene_index_count rest) in *. fold (scene_vertex_count rest) in *.
    pose proof (size_nonneg (mFaces am)) as Hf. unfold mNumFaces in *.
    cbn [copy_scene].
    rewrite vertex_loop_defined_true by lia.
    rewrite copy_faces_spec by lia.
    fold (mesh_indices am).
    rewrite app_assoc.
    replace (size done + 3 * size (mFaces am))
      with (size (done ++ mesh_indices am))
      by (rewrite size_app, mesh_indices_size; reflexivity).
    rewrite IH.
    + rewrite size_app, mesh_indices_size. unfold mNumFaces.
      unfold local_indices. cbn [flat_map]. fold (local_indices rest).
      rewrite skipn_skipn, <- !app_assoc.
      replace (Z.to_nat (scene_index_count rest) + 3 * length (mFaces am))%nat
        with (Z.to_nat (3 * size (mFaces am) + scene_index_count rest))
        by (unfold size; lia).
      now rewrite Z.add_assoc.
    + exact Hrpos.
    + lia.
    + lia.
    + unfold size in *. rewrite length_skipn. lia.
    + rewrite size_app, mesh_indices_size. unfold mNumFaces. lia.
Qed.

(** The inner loop of the last pass copies one segment of
    [temp_indices], shifted, behind what [m_indices] holds. *)
Lemma gather_spec seg :
  forall pre post done pad base_vertex,
    size seg <= size pad ->
    size pre + size seg < 2 ^ 31 ->
    size done + size seg < 2 ^ 31 ->
    gather (length seg) (pre ++ seg ++ post) (done ++ pad)
      base_vertex (size pre) (size done)
    = Some (done ++ map (fun t => to_u32 (base_vertex + t)) seg
              ++ skipn (length seg) pad,
            size done + size seg).
Proof.
  induction seg as [|t seg IH]; intros pre post done pad bv Hpad Hp Hd.
  - cbn. f_equal. f_equal. unfold size. cbn. lia.
  - rewrite size_cons in *.
    pose proof (size_nonneg seg). pose proof (size_nonneg pre).
    pose proof (size_nonneg done).
    destruct pad as [|p pad]; [change (size (@nil Z)) with 0 in Hpad; lia|].
    rewrite size_cons in Hpad.
    cbn [length gather app].
    rewrite fetch_middle by lia. rewrite store_at_end by lia.
    replace (pre ++ t :: seg ++ post) with ((pre ++ [t]) ++ seg ++ post)
      by (now rewrite <- app_assoc).
    replace (done ++ to_u32 (bv + t) :: pad)
      with ((done ++ [to_u32 (bv + t)]) ++ pad)
      by (now rewrite <- app_assoc).
    replace (size pre + 1) with (size (pre ++ [t]))
      by (rewrite size_app; reflexivity).
    replace (size done + 1) with (size (done ++ [to_u32 (bv + t)]))
      by (rewrite size_app; reflexivity).
    rewrite IH.
    + rewrite size_app. cbn [map skipn]. rewrite <- !app_assoc.
      f_equal. f_equal. unfold size. cbn [length]. lia.
    + lia.
    + rewrite size_app. unfold size in *. cbn [length]. lia.
    + rewrite size_app. unfold size in *. cbn [length]. lia.
Qed.

Lemma assign_ranges_spec scene :
  forall vertex_count index_count,
    0 <= vertex_count -> 0 <= index_count ->
    Forall (fun am => 0 <= mNumVertices am) scene ->
    vertex_count + scene_vertex_count scene < 2 ^ 32 ->
    index_count + scene_index_count scene < 2 ^ 32 ->
    assign_ranges scene vertex_count index_count
    = (ranges_of scene vertex_count index_count,
       vertex_count + scene_vertex_count scene,
       index_count + scene_index_count scene).
Proof.
  induction scene as [|am rest IH]; intros vc ic Hvc Hic Hn Hv Hi.
  - cbn. now rewrite !Z.add_0_r.
  - inversion Hn as [|? ? Ham Hrest]; subst.
    cbn [scene_vertex_count scene_index_count fold_right] in *.
    fold (scene_vertex_count rest) in *. fold (scene_index_count rest) in *.
    assert (Hri : 0 <= scene_index_count rest)
      by (rewrite <- local_indices_size; apply size_nonneg).
    assert (Hrv : 0 <= scene_vertex_count rest).
    { clear -Hrest. induction Hrest; cbn; [lia|].
      fold (scene_vertex_count l). lia. }
    pose proof (size_nonneg (mFaces am)) as Hf.
    cbn [assign_ranges ranges_of].
    replace (mNumFaces am * 3) with (3 * mNumFaces am) by lia.
    unfold mNumFaces in *.
    rewrite (to_u32_small (3 * size (mFaces am))) by (unfold is_u32; lia).
    rewrite (to_u32_small (vc + mNumVertices am)) by (unfold is_u32; lia).
    rewrite (to_u32_small (ic + 3 * size (mFaces am))) by (unfold is_u32; lia).
    rewrite IH by (assumption || lia).
    f_equal; [f_equal|]; lia.
Qed.

Lemma shift_in_range base_vertex n seg :
  0 <= base_vertex -> base_vertex + n <= 2 ^ 32 ->
  Forall (fun i => 0 <= i < n) seg ->
  map (fun t => to_u32 (base_vertex + t)) seg
  = map (fun i => base_vertex + i) seg.
Proof.
  intros Hb Hn Hseg. apply map_ext_in. intros t Ht.
  rewrite Forall_forall in Hseg. specialize (Hseg t Ht).
  apply to_u32_small. unfold is_u32. lia.
Qed.

Lemma iterations_of_range am vertex_count index_count :
  0 <= index_count -> index_count + 3 * mNumFaces am < 2 ^ 32 ->
  iterations
    (mk_SubMesh (mName am) (its_mat_idx am) (3 * mNumFaces am)
       vertex_count index_count (mNumVertices am)
       (its_max_extents am) (its_min_extents am))
  = length (mesh_indices am).
Proof.
  intros H0 H1. unfold iterations. cbn [base_index Data.index_count].
  pose proof (size_nonneg (mFaces am)) as Hf. unfold mNumFaces in *.
  rewrite to_u32_small by (unfold is_u32; lia).
  apply Nat2Z.inj. fold (size (mesh_indices am)).
  rewrite mesh_indices_size. unfold mNumFaces. lia.
Qed.

(** The last loop run on the ranges of a scene whose unshifted indices lie
    in [temp_indices] from [size pre] on. *)
Lemma fill_indices_spec scene :
  forall vertex_count pre post done pad,
    Forall (fun am =>
              0 < mNumVertices am
              /\ Forall (fun i => 0 <= i < mNumVertices am) (mesh_indices am))
           scene ->
    0 <= vertex_count ->
    vertex_count + scene_vertex_count scene < 2 ^ 32 ->
    scene_index_count scene <= size pad ->
    size pre + scene_index_count scene < 2 ^ 31 ->
    size done + scene_index_count scene < 2 ^ 31 ->
    fill_indices (ranges_of scene vertex_count (size pre))
      (pre ++ local_indices scene ++ post) (done ++ pad) (size done)
    = Some (map with_base_vertex_0 (ranges_of scene vertex_count (size pre)),
            done ++ scene_indices scene vertex_count
              ++ skipn (Z.to_nat (scene_index_count scene)) pad).
Proof.
  induction scene as [|am rest IH];
    intros vc pre post done pad Hfit Hvc Hv Hpad Hpre Hdone.
  - cbn. reflexivity.
  - inversion Hfit as [|? ? [Ham Hidx] Hrfit]; subst.
    assert (Hrpos : Forall (fun am => 0 < mNumVertices am) rest).
    { eapply Forall_impl; [|exact Hrfit]. now intros a [Ha _]. }
    pose proof (scene_vertex_count_pos rest Hrpos) as Hrv.
    pose proof (scene_index_count_nonneg rest) as Hri.
    pose proof (size_nonneg pre) as Hp0. pose proof (size_nonneg done) as Hd0.
    pose proof (mesh_indices_size am) as Hms.
    pose proof (size_nonneg (mesh_indices am)) as Hm0.
    cbn [scene_index_count scene_vertex_count fold_right] in *.
    fold (scene_index_count rest) in *. fold (scene_vertex_count rest) in *.
    cbn [ranges_of fill_indices map].
    rewrite iterations_of_range by lia.
    cbn [base_vertex base_index].
    unfold local_indices. cbn [flat_map]. fold (local_indices rest).
    rewrite <- (app_assoc (mesh_indices am)).
    rewrite gather_spec by lia.
    rewrite (shift_in_range vc (mNumVertices am)) by (lia || assumption).
    rewrite <- Hms.
    replace (size pre + size (mesh_indices am))
      with (size (pre ++ mesh_indices am)) by apply size_app.
    replace (size done + size (mesh_indices am))
      with (size (done ++ map (fun i => vc + i) (mesh_indices am)))
      by (rewrite size_app; unfold size; now rewrite length_map).
    rewrite !app_assoc.
    rewrite <- (app_assoc (pre ++ mesh_indices am)).
    rewrite IH.
    + cbn [scene_indices]. rewrite skipn_skipn, <- !app_assoc.
      replace (Z.to_nat (scene_index_count rest) + length (mesh_indices am))%nat
        with (Z.to_nat (size (mesh_indices am) + scene_index_count rest))
        by (unfold size; lia).
      reflexivity.
    + exact Hrfit.
    + lia.
    + lia.
    + unfold size in *. rewrite length_skipn. lia.
    + rewrite size_app. lia.
    + rewrite size_app. unfold size at 2. rewrite length_map.
      fold (size (mesh_indices am)). lia.
Qed.

Lemma size_repeat {A} (x : A) n : 0 <= n -> size (repeat x (Z.to_nat n)) = n.
Proof. intros H. unfold size. rewrite repeat_length. lia. Qed.

Lemma scene_indices_size scene :
  forall base_vertex,
    size (scene_indices scene base_vertex) = scene_index_count scene.
Proof.
  induction scene as [|am rest IH]; intros bv; [reflexivity|].
  cbn [scene_indices scene_index_count fold_right].
  fold (scene_index_count rest).
  rewrite size_app, IH. unfold size at 1. rewrite length_map.
  fold (size (mesh_indices am)). now rewrite mesh_indices_size.
Qed.

(** What [load_from_disk] leaves for a scene that fits. *)
Lemma load_from_disk_ranges_run scene :
  scene_fits scene ->
  load_from_disk_ranges scene
  = Some (map with_base_vertex_0 (ranges_of scene 0 0),
          scene_indices scene 0, scene_vertex_count scene).
Proof.
  intros (Hne & Hfit & Hv & Hi).
  assert (Hpos : Forall (fun am => 0 < mNumVertices am) scene).
  { eapply Forall_impl; [|exact Hfit]. now intros a [Ha _]. }
  assert (Hnn : Forall (fun am => 0 <= mNumVertices am) scene).
  { eapply Forall_impl; [|exact Hpos]. cbn. intros; lia. }
  pose proof (scene_vertex_count_pos scene Hpos) as Hv0.
  pose proof (scene_index_count_nonneg scene) as Hi0.
  unfold load_from_disk_ranges.
  rewrite assign_ranges_spec by (assumption || lia).
  rewrite !Z.add_0_l.
  pose proof (copy_scene_spec scene (scene_vertex_count scene) []
                (repeat 0 (Z.to_nat (scene_index_count scene))) 0) as Hcopy.
  rewrite size_repeat in Hcopy by lia.
  change (size (@nil Z)) with 0 in Hcopy. cbn [app] in Hcopy.
  rewrite Hcopy by (assumption || lia). clear Hcopy.
  pose proof (fill_indices_spec scene 0 []
                (skipn (Z.to_nat (scene_index_count scene))
                   (repeat 0 (Z.to_nat (scene_index_count scene))))
                [] (repeat 0 (Z.to_nat (scene_index_count scene)))) as Hfill.
  rewrite size_repeat in Hfill by lia.
  change (size (@nil Z)) with 0 in Hfill. cbn [app] in Hfill.
  rewrite Hfill by (assumption || lia). clear Hfill.
  rewrite skipn_all2 by (rewrite repeat_length; lia).
  rewrite app_nil_r.
  destruct scene as [|am rest]; [now elim Hne|].
  reflexivity.
Qed.

Lemma ranges_of_length scene :
  forall vertex_count index_count,
    length (ranges_of scene vertex_count index_count) = length scene.
Proof.
  induction scene as [|am rest IH]; intros; cbn; [reflexivity|].
  now rewrite IH.
Qed.

Lemma ranges_of_firstn scene :
  forall i vertex_count index_count,
    firstn i (ranges_of scene vertex_count index_count)
    = ranges_of (firstn i scene) vertex_count index_count.
Proof.
  induction scene as [|am rest IH]; intros [|i] vc ic; cbn; try reflexivity.
  now rewrite IH.
Qed.

Lemma ranges_of_index_total scene :
  forall vertex_count index_count,
    index_total (map with_base_vertex_0
                   (ranges_of scene vertex_count index_count))
    = scene_index_count scene.
Proof.
  induction scene as [|am rest IH]; intros vc ic; [reflexivity|].
  cbn [ranges_of map index_total fold_right scene_index_count].
  fold (index_total
          (map with_base_vertex_0
             (ranges_of rest (vc + mNumVertices am) (ic + 3 * mNumFaces am)))).
  fold (scene_index_count rest).
  rewrite IH. reflexivity.
Qed.

Lemma ranges_of_nth scene :
  forall i am vertex_count index_count,
    nth_error scene i = Some am ->
    nth_error (ranges_of scene vertex_count index_count) i
    = Some (mk_SubMesh (mName am) (its_mat_idx am) (3 * mNumFaces am)
              (vertex_count + scene_vertex_count (firstn i scene))
              (index_count + scene_index_count (firstn i scene))
              (mNumVertices am) (its_max_extents am) (its_min_extents am)).
Proof.
  induction scene as [|a rest IH]; intros [|i] am vc ic Hi;
    try discriminate Hi.
  - cbn in Hi. injection Hi as ->. cbn. now rewrite !Z.add_0_r.
  - cbn [nth_error] in Hi. cbn [ranges_of nth_error].
    rewrite (IH i am _ _ Hi).
    cbn [firstn scene_vertex_count scene_index_count fold_right].
    fold (scene_vertex_count (firstn i rest)).
    fold (scene_index_count (firstn i rest)).
    now rewrite !Z.add_assoc.
Qed.

Lemma scene_indices_split scene :
  forall i base_vertex,
    scene_indices scene base_vertex
    = scene_indices (firstn i scene) base_vertex
      ++ scene_indices (skipn i scene)
           (base_vertex + scene_vertex_count (firstn i scene)).
Proof.
  induction scene as [|am rest IH]; intros [|i] bv; cbn [firstn skipn].
  - reflexivity.
  - reflexivity.
  - cbn. now rewrite Z.add_0_r.
  - cbn [scene_indices scene_vertex_count fold_right].
    fold (scene_vertex_count (firstn i rest)).
    rewrite (IH i), <- app_assoc, Z.add_assoc. reflexivity.
Qed.

Lemma scene_indices_range scene :
  forall base_vertex,
    Forall (fun am =>
              0 < mNumVertices am
              /\ Forall (fun i => 0 <= i < mNumVertices am) (mesh_indices am))
           scene ->
    Forall (fun i => base_vertex <= i < base_vertex + scene_vertex_count scene)
           (scene_indices scene base_vertex).
Proof.
  induction scene as [|am rest IH]; intros bv Hfit; [constructor|].
  inversion Hfit as [|? ? [Ham Hidx] Hrfit]; subst.
  assert (Hrpos : Forall (fun am => 0 < mNumVertices am) rest).
  { eapply Forall_impl; [|exact Hrfit]. now intros a [Ha _]. }
  pose proof (scene_vertex_count_pos rest Hrpos) as Hrv.
  cbn [scene_indices scene_vertex_count fold_right].
  fold (scene_vertex_count rest).
  apply Forall_app. split.
  - apply Forall_map. eapply Forall_impl; [|exact Hidx]. cbn. intros; lia.
  - eapply Forall_impl; [|apply (IH _ Hrfit)]. cbn. intros; lia.
Qed.

Lemma rebase_ranges_of scene :
  forall vertex_count index_count nv,
    0 <= index_count ->
    index_count + scene_index_count scene < 2 ^ 32 ->
    rebase_sub_meshes
      (map with_base_vertex_0 (ranges_of scene vertex_count index_count))
      index_count nv
    = map (with_vertex_count (to_u32 nv))
        (map with_base_vertex_0 (ranges_of scene vertex_count index_count)).
Proof.
  induction scene as [|am rest IH]; intros vc ic nv Hic Hi; [reflexivity|].
  pose proof (scene_index_count_nonneg rest) as Hri.
  pose proof (size_nonneg (mFaces am)) as Hf.
  cbn [scene_index_count fold_right] in Hi.
  fold (scene_index_count rest) in Hi. unfold mNumFaces in *.
  cbn [ranges_of map rebase_sub_meshes].
  cbn [with_base_vertex_0 with_vertex_count name mat_idx Data.index_count
       base_vertex base_index Data.vertex_count max_extents min_extents].
  rewrite (to_u32_small (ic + 3 * mNumFaces am))
    by (unfold is_u32, mNumFaces; lia).
  unfold mNumFaces. rewrite IH by lia. reflexivity.
Qed.

(** X14. [load_from_disk] on a scene that fits has defined behaviour and
    leaves as index buffer the face indices of the meshes in scene order,
    those of each mesh shifted by the number of vertices of the meshes
    before it; the vertex buffer has one slot per vertex of the scene and
    every index names one of them. *)
Theorem load_from_disk_index_buffer :
  forall scene,
    scene_fits scene ->
    exists sub_meshes m_indices vertex_count,
      load_from_disk_ranges scene = Some (sub_meshes, m_indices, vertex_count)
      /\ m_indices = scene_indices scene 0
      /\ size m_indices = scene_index_count scene
      /\ vertex_count = scene_vertex_count scene
      /\ Forall (fun i => 0 <= i < vertex_count) m_indices.
Proof.
  intros scene Hfits.
  exists (map with_base_vertex_0 (ranges_of scene 0 0)),
         (scene_indices scene 0), (scene_vertex_count scene).
  split; [now apply load_from_disk_ranges_run|].
  split; [reflexivity|]. split; [apply scene_indices_size|].
  split; [reflexivity|].
  destruct Hfits as (_ & Hfit & _ & _).
  exact (scene_indices_range scene 0 Hfit).
Qed.

(** X15. After [load_from_disk] on a scene that fits there is one submesh
    per mesh of the scene, in order; submesh [i] keeps the name and the
    vertex count of mesh [i], counts three indices per face, has
    [base_vertex] 0 and starts in the index buffer where the submeshes
    before it end; together the submeshes cover the index buffer. *)
Theorem load_from_disk_sub_mesh_ranges :
  forall scene sub_meshes m_indices vertex_count,
    scene_fits scene ->
    load_from_disk_ranges scene = Some (sub_meshes, m_indices, vertex_count) ->
    length sub_meshes = length scene
    /\ index_total sub_meshes = size m_indices
    /\ forall i am,
         nth_error scene i = Some am ->
         nth_error sub_meshes i
         = Some (mk_SubMesh (mName am) (its_mat_idx am) (3 * mNumFaces am)
                   0 (index_total (firstn i sub_meshes)) (mNumVertices am)
                   (its_max_extents am) (its_min_extents am)).
Proof.
  intros scene sub_meshes m_indices vc Hfits Hload.
  rewrite (load_from_disk_ranges_run scene Hfits) in Hload.
  injection Hload as <- <- <-.
  split; [now rewrite length_map, ranges_of_length|].
  split; [now rewrite ranges_of_index_total, scene_indices_size|].
  intros i am Hi.
  rewrite nth_error_map, (ranges_of_nth scene i am 0 0 Hi).
  rewrite firstn_map, ranges_of_firstn, ranges_of_index_total.
  reflexivity.
Qed.

(** X16. After [load_from_disk] on a scene that fits, the part of the
    index buffer that submesh [i] names by [base_index] and [index_count]
    holds the face indices of mesh [i], each shifted by the number of
    vertices of the meshes before it. *)
Theorem load_from_disk_sub_mesh_slice :
  forall scene sub_meshes m_indices vertex_count i am sm,
    scene_fits scene ->
    load_from_disk_ranges scene = Some (sub_meshes, m_indices, vertex_count) ->
    nth_error scene i = Some am ->
    nth_error sub_meshes i = Some sm ->
    index_range m_indices sm
    = map (fun t => scene_vertex_count (firstn i scene) + t) (mesh_indices am).
Proof.
  intros scene sub_meshes m_indices vc i am sm Hfits Hload Hi Hsm.
  rewrite (load_from_disk_ranges_run scene Hfits) in Hload.
  injection Hload as <- <- <-.
  rewrite nth_error_map, (ranges_of_nth scene i am 0 0 Hi) in Hsm.
  cbn [option_map] in Hsm.
  apply (f_equal (fun o => match o with Some x => x | None => sm end)) in Hsm.
  cbv beta iota in Hsm. subst sm.
  unfold index_range. cbn [Data.index_count base_index with_base_vertex_0].
  rewrite !Z.add_0_l.
  rewrite (scene_indices_split scene i 0).
  rewrite skipn_app.
  pose proof (scene_indices_size (firstn i scene) 0) as Hsz.
  pose proof (scene_index_count_nonneg (firstn i scene)) as Hnn.
  rewrite skipn_all2 by (unfold size in Hsz; lia).
  replace (Z.to_nat (scene_index_count (firstn i scene))
           - length (scene_indices (firstn i scene) 0))%nat with 0%nat
    by (unfold size in Hsz; lia).
  cbn [app skipn].
  destruct (nth_error_split scene i Hi) as (l1 & l2 & Hscene & Hlen).
  assert (Hskip : skipn i scene = am :: l2).
  { rewrite Hscene, <- Hlen. rewrite skipn_app, skipn_all, Nat.sub_diag.
    reflexivity. }
  rewrite Hskip. cbn [scene_indices]. rewrite Z.add_0_l.
  rewrite firstn_app.
  pose proof (mesh_indices_size am) as Hms.
  pose proof (size_nonneg (mFaces am)) as Hf. unfold mNumFaces in *.
  rewrite length_map.
  replace (Z.to_nat (3 * size (mFaces am)) - length (mesh_indices am))%nat
    with 0%nat by (unfold size in *; lia).
  cbn [firstn]. rewrite app_nil_r.
  apply firstn_all2. rewrite length_map. unfold size in *. lia.
Qed.

(** X17. The submesh loop of [generate_lightmap_uvs], run on the submeshes
    [load_from_disk] leaves for a scene that fits, changes nothing but the
    vertex counts: the ranges it would assign are the ranges the submeshes
    already have. *)
Theorem rebase_after_load_from_disk :
  forall scene sub_meshes m_indices vertex_count new_vertices_size,
    scene_fits scene ->
    load_from_disk_ranges scene = Some (sub_meshes, m_indices, vertex_count) ->
    rebase_sub_meshes sub_meshes 0 new_vertices_size
    = map (with_vertex_count (to_u32 new_vertices_size)) sub_meshes.
Proof.
  intros scene sub_meshes m_indices vc nv Hfits Hload.
  rewrite (load_from_disk_ranges_run scene Hfits) in Hload.
  injection Hload as <- <- <-.
  destruct Hfits as (_ & _ & _ & Hi).
  apply rebase_ranges_of; lia.
Qed.

(* ------------------------------------------------------------------ *)
(** ** Importer: one material per [mMaterialIndex] *)

Lemma find_Some_In mapping k idx :
  find mapping k = Some idx -> In (k, idx) mapping.
Proof.
  induction mapping as [|[k' v] rest IH]; cbn [find]; [discriminate|].
  destruct (k' =? k) eqn:E.
  - apply Z.eqb_eq in E. intros H. injection H as ->. left. now rewrite E.
  - intros H. right. now apply IH.
Qed.

Lemma find_None_not_In mapping k :
  find mapping k = None -> ~ In k (map fst mapping).
Proof.
  induction mapping as [|[k' v] rest IH]; cbn [find map fst In]; [tauto|].
  destruct (k' =? k) eqn:E; [discriminate|].
  apply Z.eqb_neq in E. intros H [Hk | Hin]; [contradiction|]. now apply IH.
Qed.

Lemma NoDup_map_inj {A B} (f : A -> B) l x y :
  NoDup (map f l) -> In x l -> In y l -> f x = f y -> x = y.
Proof.
  induction l as [|a l IH]; cbn [map In]; [tauto|].
  intros Hnd Hx Hy Hf. inversion Hnd as [|? ? Hnotin Hnd']; subst.
  destruct Hx as [<- | Hx], Hy as [<- | Hy].
  - reflexivity.
  - exfalso. apply Hnotin. rewrite Hf. now apply in_map.
  - exfalso. apply Hnotin. rewrite <- Hf. now apply in_map.
  - now apply IH.
Qed.

Lemma Forall2_nth_error {A B} (R : A -> B -> Prop) l l' :
  Forall2 R l l' ->
  forall i x y, nth_error l i = Some x -> nth_error l' i = Some y -> R x y.
Proof.
  induction 1 as [|a b l l' Hab _ IH]; intros [|i] x y Hx Hy;
    try discriminate.
  - cbn in Hx, Hy. injection Hx as <-. injection Hy as <-. exact Hab.
  - cbn in Hx, Hy. exact (IH i x y Hx Hy).
Qed.

(** What the loop keeps true of the mapping and of [m_materials.size()]:
    one entry per material, no key twice, no place twice, every place
    inside [m_materials]. *)
Lemma assign_materials_spec keys :
  forall mapping s,
    s = size mapping ->
    NoDup (map fst mapping) -> NoDup (map snd mapping) ->
    Forall (fun kv => 0 <= snd kv < s) mapping ->
    s + size keys < 2 ^ 32 ->
    forall idxs mapping' n,
      assign_materials keys mapping s = (idxs, mapping', n) ->
      n = size mapping'
      /\ NoDup (map fst mapping') /\ NoDup (map snd mapping')
      /\ Forall (fun kv => 0 <= snd kv < n) mapping'
      /\ (forall kv, In kv mapping -> In kv mapping')
      /\ Forall2 (fun k idx => In (k, idx) mapping') keys idxs
      /\ (forall k, In k (map fst mapping') ->
                    In k (map fst mapping) \/ In k keys).
Proof.
  induction keys as [|k rest IH];
    intros mapping s Hs Hk Hv Hr Hfit idxs mapping' n Hrun.
  - cbn in Hrun. injection Hrun as <- <- <-.
    repeat (split; [assumption || constructor|]).
    split; [now intros|]. split; [constructor | now left].
  - rewrite size_cons in Hfit.
    pose proof (size_nonneg rest) as Hr0. pose proof (size_nonneg mapping) as Hm0.
    cbn [assign_materials] in Hrun.
    destruct (find mapping k) as [idx|] eqn:Hfind.
    + destruct (assign_materials rest mapping s) as [[idxs' m'] n'] eqn:E.
      injection Hrun as <- <- <-.
      destruct (IH mapping s Hs Hk Hv Hr ltac:(lia) _ _ _ E)
        as (Hn & Hk' & Hv' & Hr' & Hext & Hall & Hkeys).
      repeat (split; [assumption|]).
      split; [constructor; [apply Hext; now apply find_Some_In | exact Hall]|].
      intros k' Hin. destruct (Hkeys k' Hin) as [H | H];
        [now left | right; now right].
    + destruct (assign_materials rest ((k, to_u32 s) :: mapping) (s + 1))
        as [[idxs' m'] n'] eqn:E.
      injection Hrun as <- <- <-.
      assert (Hsu : to_u32 s = s)
        by (apply to_u32_small; unfold is_u32; lia).
      rewrite Hsu in *.
      assert (Hfresh : ~ In s (map snd mapping)).
      { intros Hin. apply in_map_iff in Hin. destruct Hin as (kv & Hsnd & Hin).
        rewrite Forall_forall in Hr. specialize (Hr kv Hin). lia. }
      assert (A1 : s + 1 = size ((k, s) :: mapping))
        by (rewrite size_cons; lia).
      assert (A2 : NoDup (map fst ((k, s) :: mapping))).
      { cbn [map fst]. constructor;
          [now apply find_None_not_In | exact Hk]. }
      assert (A3 : NoDup (map snd ((k, s) :: mapping))).
      { cbn [map snd]. constructor; [exact Hfresh | exact Hv]. }
      assert (A4 : Forall (fun kv => 0 <= snd kv < s + 1) ((k, s) :: mapping)).
      { constructor; [cbn [snd]; lia|].
        eapply Forall_impl; [|exact Hr]. cbn beta. intros; lia. }
      assert (A5 : s + 1 + size rest < 2 ^ 32) by lia.
      destruct (IH _ _ A1 A2 A3 A4 A5 _ _ _ E)
        as (Hn & Hk' & Hv' & Hr' & Hext & Hall & Hkeys).
      repeat (split; [assumption|]).
      split; [intros kv Hin; apply Hext; now right|].
      split; [constructor; [apply Hext; now left | exact Hall]|].
      intros k' Hin. destruct (Hkeys k' Hin) as [[H | H] | H].
      * cbn [fst] in H. subst k'. right. now left.
      * now left.
      * right. now right.
Qed.

(** X18. Loading with materials makes one material per [mMaterialIndex]
    in use: the submeshes get a [mat_idx] each, every [mat_idx] names a
    material that was made, two submeshes get the same [mat_idx] exactly
    when their meshes have the same [mMaterialIndex], and the number of
    materials is the number of different [mMaterialIndex] values. *)
Theorem load_from_disk_materials_spec :
  forall (mMaterialIndex : list Z),
    size mMaterialIndex < 2 ^ 32 ->
    let '(mat_idx, m_materials_size) :=
      load_from_disk_materials mMaterialIndex in
    length mat_idx = length mMaterialIndex
    /\ Forall (fun idx => 0 <= idx < m_materials_size) mat_idx
    /\ (forall i j ki kj a b,
          nth_error mMaterialIndex i = Some ki ->
          nth_error mMaterialIndex j = Some kj ->
          nth_error mat_idx i = Some a ->
          nth_error mat_idx j = Some b ->
          (a = b <-> ki = kj))
    /\ exists distinct,
         NoDup distinct
         /\ (forall k, In k distinct <-> In k mMaterialIndex)
         /\ m_materials_size = size distinct.
Proof.
  intros keys Hfit. unfold load_from_disk_materials.
  destruct (assign_materials keys [] 0) as [[idxs mapping'] n] eqn:E.
  destruct (assign_materials_spec keys [] 0 eq_refl (NoDup_nil _) (NoDup_nil _)
              (Forall_nil _) ltac:(lia) _ _ _ E)
    as (Hn & Hk & Hv & Hr & _ & Hall & Hkeys).
  split; [symmetry; exact (Forall2_length Hall)|].
  split; [|split].
  - clear -Hall Hr. induction Hall as [|k idx ks ids Hin _ IH]; constructor.
    + rewrite Forall_forall in Hr. exact (Hr _ Hin).
    + exact IH.
  - intros i j ki kj a b Hi Hj Ha Hb.
    pose proof (Forall2_nth_error _ _ _ Hall i ki a Hi Ha) as Hia.
    pose proof (Forall2_nth_error _ _ _ Hall j kj b Hj Hb) as Hjb.
    cbn beta in Hia, Hjb. split; intros Heq.
    + pose proof (NoDup_map_inj snd mapping' _ _ Hv Hia Hjb Heq) as H.
      now injection H.
    + pose proof (NoDup_map_inj fst mapping' _ _ Hk Hia Hjb Heq) as H.
      now injection H.
  - exists (map fst mapping'). split; [exact Hk|]. split.
    + intros k. split.
      * intros Hin. destruct (Hkeys k Hin) as [[] | H]. exact H.
      * intros Hin. destruct (In_nth_error _ _ Hin) as (i & Hi).
        clear -Hall Hi. revert i Hi.
        induction Hall as [|k0 idx ks ids Hin0 Hrest IH]; intros [|i] Hi;
          try discriminate.
        -- cbn in Hi. injection Hi as ->.
           change k with (fst (k, idx)). now apply in_map.
        -- exact (IH i Hi).
    + rewrite Hn. unfold size. now rewrite length_map.
Qed.

(* ------------------------------------------------------------------ *)
(** ** Mesh registry *)

Lemma construct_holds st key origin :
  Registry.m_cache (snd (Registry.construct st key origin)) key
  = Some (fst (Registry.construct st key origin))
  /\ Registry.held (snd (Registry.construct st key origin))
       (fst (Registry.construct st key origin)) = true.
Proof.
  unfold Registry.construct. cbn [fst snd Registry.m_cache Registry.held].
  now rewrite String.eqb_refl, Nat.eqb_refl.
Qed.

(** After a load the key names the mesh returned, and the mesh is held. *)
Lemma find_or_construct_holds st key origin :
  Registry.m_cache (snd (Registry.find_or_construct st key origin)) key
  = Some (fst (Registry.find_or_construct st key origin))
  /\ Registry.held (snd (Registry.find_or_construct st key origin))
       (fst (Registry.find_or_construct st key origin)) = true.
Proof.
  unfold Registry.find_or_construct.
  destruct (Registry.m_cache st key) as [ptr|] eqn:Hk;
    [destruct (Registry.held st ptr) eqn:Hh|];
    try apply construct_holds.
  cbn [fst snd]. now split.
Qed.

(** A key that names a held mesh is a hit. *)
Lemma find_or_construct_hit st key origin ptr :
  Registry.m_cache st key = Some ptr -> Registry.held st ptr = true ->
  Registry.find_or_construct st key origin = (ptr, st).
Proof.
  intros Hk Hh. unfold Registry.find_or_construct. now rewrite Hk, Hh.
Qed.

Lemma append_empty_r s : String.append s String.EmptyString = s.
Proof. induction s as [|c s IH]; cbn; [reflexivity | now rewrite IH]. Qed.

Lemma append_assoc s1 s2 s3 :
  String.append (String.append s1 s2) s3
  = String.append s1 (String.append s2 s3).
Proof. induction s1 as [|c s1 IH]; cbn; [reflexivity | now rewrite IH]. Qed.

(** Another key is left alone by a load, and no load lets go of a mesh. *)
Lemma find_or_construct_frame st key origin :
  (forall k ptr,
      Registry.m_cache st k = Some ptr ->
      Registry.held st ptr = true ->
      Registry.m_cache (snd (Registry.find_or_construct st key origin)) k
      = Some ptr
      /\ Registry.held (snd (Registry.find_or_construct st key origin)) ptr
         = true).
Proof.
  intros k ptr Hk Hh. unfold Registry.find_or_construct.
  destruct (Registry.m_cache st key) as [q|] eqn:Hkey;
    [destruct (Registry.held st q) eqn:Hq|]; cbn [snd];
    try (now split);
    unfold Registry.construct; cbn [snd Registry.m_cache Registry.held];
    (split; [|rewrite Hh; now destruct (Nat.eqb _ _)]);
    destruct (String.eqb k key) eqn:E; try exact Hk;
    apply String.eqb_eq in E; subst k; rewrite Hkey in Hk;
    try discriminate Hk.
  injection Hk as ->. rewrite Hh in Hq. discriminate Hq.
Qed.

Lemma run_keeps_hit events :
  forall st key ptr,
    Registry.m_cache st key = Some ptr -> Registry.held st ptr = true ->
    Registry.keeps ptr events ->
    Registry.m_cache (Registry.run st events) key = Some ptr
    /\ Registry.held (Registry.run st events) ptr = true.
Proof.
  induction events as [|e events IH]; intros st key ptr Hk Hh Hkeep.
  - now split.
  - unfold Registry.run. cbn [fold_left]. fold (Registry.run (Registry.step st e) events).
    assert (Hkeep' : Registry.keeps ptr events)
      by (intros Hin; apply Hkeep; now right).
    destruct e as [path lm orca gen | name | q]; cbn [Registry.step].
    + destruct (find_or_construct_frame st
                  (Registry.cache_key path gen)
                  (Registry.FromDisk path lm orca gen) key ptr Hk Hh)
        as (Hk1 & Hh1).
      exact (IH _ key ptr Hk1 Hh1 Hkeep').
    + destruct (find_or_construct_frame st name (Registry.FromData name)
                  key ptr Hk Hh) as (Hk1 & Hh1).
      exact (IH _ key ptr Hk1 Hh1 Hkeep').
    + apply IH; [exact Hk | | exact Hkeep'].
      cbn [Registry.held].
      destruct (Nat.eqb ptr q) eqn:E; [|exact Hh].
      apply Nat.eqb_eq in E. subst q. exfalso. apply Hkeep. now left.
Qed.

(** An entry of [m_cache] is never taken out. *)
Lemma step_keeps_entry st e key :
  Registry.is_loaded st key = true ->
  Registry.is_loaded (Registry.step st e) key = true.
Proof.
  unfold Registry.is_loaded. intros H.
  assert (Hfc : forall k origin,
             match Registry.m_cache
                     (snd (Registry.find_or_construct st k origin)) key with
             | Some _ => true | None => false end = true).
  { intros k origin. unfold Registry.find_or_construct.
    destruct (Registry.m_cache st k) as [q|];
      [destruct (Registry.held st q)|]; cbn [snd]; try exact H;
      unfold Registry.construct; cbn [snd Registry.m_cache];
      now destruct (String.eqb key k). }
  destruct e as [path lm orca gen | name | q]; cbn [Registry.step];
    [apply Hfc | apply Hfc | exact H].
Qed.

Lemma run_keeps_entry events :
  forall st key,
    Registry.is_loaded st key = true ->
    Registry.is_loaded (Registry.run st events) key = true.
Proof.
  induction events as [|e events IH]; intros st key H; [exact H|].
  unfold Registry.run. cbn [fold_left].
  apply IH. now apply step_keeps_entry.
Qed.

(** Every pointer in [m_cache] is a mesh that was constructed. *)
Lemma step_pointers st e :
  (forall k ptr, Registry.m_cache st k = Some ptr ->
                 (ptr < length (Registry.constructed st))%nat) ->
  forall k ptr, Registry.m_cache (Registry.step st e) k = Some ptr ->
                (ptr < length (Registry.constructed (Registry.step st e)))%nat.
Proof.
  intros Hwf.
  assert (Hfc : forall key origin k ptr,
             Registry.m_cache
               (snd (Registry.find_or_construct st key origin)) k = Some ptr ->
             (ptr < length (Registry.constructed
                              (snd (Registry.find_or_construct st key origin))))%nat).
  { intros key origin k ptr. unfold Registry.find_or_construct.
    destruct (Registry.m_cache st key) as [q|];
      [destruct (Registry.held st q)|]; cbn [snd]; try apply Hwf;
      unfold Registry.construct;
      cbn [snd Registry.m_cache Registry.constructed];
      rewrite length_app; cbn [length];
      (destruct (String.eqb k key);
       [intros H; injection H as <-; lia
       | intros H; specialize (Hwf k ptr H); lia]). }
  destruct e as [path lm orca gen | name | q]; cbn [Registry.step];
    [apply Hfc | apply Hfc | exact Hwf].
Qed.

Lemma run_pointers events :
  forall st,
    (forall k ptr, Registry.m_cache st k = Some ptr ->
                   (ptr < length (Registry.constructed st))%nat) ->
    forall k ptr,
      Registry.m_cache (Registry.run st events) k = Some ptr ->
      (ptr < length (Registry.constructed (Registry.run st events)))%nat.
Proof.
  induction events as [|e events IH]; intros st Hwf; [exact Hwf|].
  unfold Registry.run. cbn [fold_left].
  apply IH. now apply step_pointers.
Qed.

(** X19. What decides a hit in [Mesh::load] is the key alone.  Right
    after a load from a path, a load of the same path with other
    [load_materials] and [is_orca_mesh] constructs nothing and returns the
    mesh of the first load; so does the load by name under the key of the
    first load; and so does, after a load with lightmap UVs, the load
    without lightmap UVs of the path that ends in [_lightmap]. *)
Theorem load_hit_is_by_key :
  forall (st : Registry.State) (path : String.string)
         (load_materials is_orca_mesh generate_lightmap_uv : bool)
         (load_materials' is_orca_mesh' : bool),
    let first :=
      Registry.load st path load_materials is_orca_mesh generate_lightmap_uv in
    Registry.load (snd first) path load_materials' is_orca_mesh'
      generate_lightmap_uv = first
    /\ Registry.load_data (snd first)
         (Registry.cache_key path generate_lightmap_uv) = first
    /\ (generate_lightmap_uv = true ->
        Registry.load (snd first) (Registry.cache_key path true)
          load_materials' is_orca_mesh' false = first).
Proof.
  intros st path lm orca gen lm' orca' first.
  destruct (find_or_construct_holds st (Registry.cache_key path gen)
              (Registry.FromDisk path lm orca gen)) as (Hk & Hh).
  fold (Registry.load st path lm orca gen) in Hk, Hh. fold first in Hk, Hh.
  split; [|split].
  - unfold Registry.load at 1.
    rewrite (find_or_construct_hit _ _ _ _ Hk Hh). now destruct first.
  - unfold Registry.load_data.
    rewrite (find_or_construct_hit _ _ _ _ Hk Hh). now destruct first.
  - intros ->. unfold Registry.load at 1.
    assert (Hkey : Registry.cache_key (Registry.cache_key path true) false
                   = Registry.cache_key path true)
      by (unfold Registry.cache_key; apply append_empty_r).
    rewrite Hkey, (find_or_construct_hit _ _ _ _ Hk Hh). now destruct first.
Qed.

(** X20. A mesh stays a hit for as long as it is held: after a load
    returned a mesh, whatever is loaded and whichever other meshes are let
    go, a load under the same key returns that mesh and changes nothing. *)
Theorem load_hits_while_held :
  forall (st st1 : Registry.State) (path : String.string)
         (load_materials is_orca_mesh generate_lightmap_uv : bool)
         (mesh : nat) (events : list Registry.Event)
         (load_materials' is_orca_mesh' : bool),
    Registry.load st path load_materials is_orca_mesh generate_lightmap_uv
    = (mesh, st1) ->
    Registry.keeps mesh events ->
    Registry.load (Registry.run st1 events) path load_materials'
      is_orca_mesh' generate_lightmap_uv
    = (mesh, Registry.run st1 events).
Proof.
  intros st st1 path lm orca gen mesh events lm' orca' Hload Hkeep.
  destruct (find_or_construct_holds st (Registry.cache_key path gen)
              (Registry.FromDisk path lm orca gen)) as (Hk & Hh).
  fold (Registry.load st path lm orca gen) in Hk, Hh.
  rewrite Hload in Hk, Hh. cbn [fst snd] in Hk, Hh.
  destruct (run_keeps_hit events st1 _ mesh Hk Hh Hkeep) as (Hk' & Hh').
  unfold Registry.load. exact (find_or_construct_hit _ _ _ _ Hk' Hh').
Qed.

(** X21. [Mesh::is_loaded] says that a key was loaded once, not that its
    mesh is there: from the first load of a key on, whatever happens,
    [is_loaded] answers [true]; yet once the mesh has been let go, the
    next load under the key constructs a new mesh. *)
Theorem is_loaded_outlives_mesh :
  forall (before : list Registry.Event) (path : String.string)
         (load_materials is_orca_mesh generate_lightmap_uv : bool),
    let first :=
      Registry.load (Registry.run Registry.initial before) path
        load_materials is_orca_mesh generate_lightmap_uv in
    let key := Registry.cache_key path generate_lightmap_uv in
    (forall later,
        Registry.is_loaded (Registry.run (snd first) later) key = true)
    /\ let released := Registry.step (snd first) (Registry.Release (fst first)) in
       let again :=
         Registry.load released path load_materials is_orca_mesh
           generate_lightmap_uv in
       Registry.is_loaded released key = true
       /\ fst again <> fst first
       /\ Registry.constructed (snd again)
          = Registry.constructed (snd first)
            ++ [Registry.FromDisk path load_materials is_orca_mesh
                  generate_lightmap_uv].
Proof.
  intros before path lm orca gen first key.
  assert (Hholds : Registry.m_cache (snd first) key = Some (fst first)
                   /\ Registry.held (snd first) (fst first) = true)
    by exact (find_or_construct_holds _ _ _).
  destruct Hholds as (Hk & Hh).
  assert (Hloaded : Registry.is_loaded (snd first) key = true)
    by (unfold Registry.is_loaded; now rewrite Hk).
  split; [intros later; now apply run_keeps_entry|].
  intros released again.
  split; [exact Hloaded|].
  assert (Hwf : (fst first < length (Registry.constructed (snd first)))%nat).
  { assert (Hrun : forall k ptr,
               Registry.m_cache
                 (Registry.run Registry.initial (before ++ [Registry.Load path lm orca gen]))
                 k = Some ptr ->
               (ptr < length (Registry.constructed
                                (Registry.run Registry.initial
                                   (before ++ [Registry.Load path lm orca gen]))))%nat).
    { apply run_pointers. cbn. discriminate. }
    unfold Registry.run in Hrun. rewrite fold_left_app in Hrun.
    cbn [fold_left Registry.step] in Hrun.
    exact (Hrun key _ Hk). }
  assert (Hagain : again
                   = Registry.construct released key
                       (Registry.FromDisk path lm orca gen)).
  { assert (Hk2 : Registry.m_cache released key = Some (fst first))
      by exact Hk.
    assert (Hh2 : Registry.held released (fst first) = false).
    { unfold released. cbn [Registry.step Registry.held].
      now rewrite Nat.eqb_refl. }
    unfold again, Registry.load.
    change (Registry.cache_key path gen) with key.
    unfold Registry.find_or_construct. now rewrite Hk2, Hh2. }
  rewrite Hagain. unfold Registry.construct, released.
  cbn [fst snd Registry.step Registry.constructed].
  split; [lia | reflexivity].
Qed.

(* ------------------------------------------------------------------ *)
(** ** [assimp_does_material_exist] *)

(** X22. [assimp_does_material_exist] answers [true] exactly when the
    material index is among the given ones. *)
Theorem assimp_does_material_exist_spec :
  forall (materials : list Z) (current_material : Z),
    assimp_does_material_exist materials current_material = true
    <-> In current_material materials.
Proof.
  intros materials c. induction materials as [|it rest IH]; cbn.
  - split; [discriminate | tauto].
  - destruct (it =? c) eqn:E.
    + apply Z.eqb_eq in E. split; [now left | reflexivity].
    + apply Z.eqb_neq in E. rewrite IH. split; [now right|].
      now intros [H | H].
Qed.

(* ------------------------------------------------------------------ *)
(** * More worked instances *)


Lemma triangle_sub_meshes_wf : Forall wf_SubMesh (m_sub_meshes triangle).
Proof. by_computation. Defined.

(** The triangle against the triangle with one index changed: the units
    differ at place 52, the low byte of the second index. *)
Lemma compute_mesh_hash_single_unit_change_ex :
  hash_units triangle
  = firstn 52 (hash_units triangle) ++ 1 :: skipn 53 (hash_units triangle)
  /\ hash_units triangle_reindexed
     = firstn 52 (hash_units triangle) ++ 2 :: skipn 53 (hash_units triangle)
  /\ compute_mesh_hash triangle <> compute_mesh_hash triangle_reindexed.
Proof.
  assert (H1 : hash_units triangle
               = firstn 52 (hash_units triangle)
                 ++ 1 :: skipn 53 (hash_units triangle))
    by (vm_compute; reflexivity).
  assert (H2 : hash_units triangle_reindexed
               = firstn 52 (hash_units triangle)
                 ++ 2 :: skipn 53 (hash_units triangle))
    by (vm_compute; reflexivity).
  split; [exact H1|]. split; [exact H2|].
  apply (compute_mesh_hash_single_unit_change triangle triangle_reindexed
           _ _ 1 2 triangle_sub_meshes_wf triangle_sub_meshes_wf H1 H2).
  discriminate.
Defined.

(** The record of the consolidated triangle: 483 bytes. *)
Lemma save_lightmap_cache_layout_ex :
  save_lightmap_cache no_file triangle_atlas (compute_mesh_hash triangle)
  = (mk_CacheFile
       (Some (layout triangle_atlas (compute_mesh_hash triangle))) true, true)
  /\ size (layout triangle_atlas (compute_mesh_hash triangle))
     = record_size triangle_atlas.
Proof.
  apply (save_lightmap_cache_layout no_file triangle_atlas
           (compute_mesh_hash triangle) cacheable_triangle_atlas).
  reflexivity.
Defined.

Lemma triangle_atlas_loaded_with_trailing_bytes :
  load_lightmap_cache stack roomy
    (mk_CacheFile
       (Some (layout triangle_atlas (compute_mesh_hash triangle) ++ [xde; xad]))
       true)
    (compute_mesh_hash triangle) triangle
  = (triangle_atlas, CacheLoaded).
Proof. vm_compute. reflexivity. Defined.

(** A record with two bytes behind it loads, and saving what was loaded
    writes the record without the two bytes. *)
Lemma load_then_save_roundtrip_ex :
  cacheable triangle_atlas
  /\ record_size triangle_atlas
     <= size (layout triangle_atlas (compute_mesh_hash triangle) ++ [xde; xad])
  /\ exists record rest,
       layout triangle_atlas (compute_mesh_hash triangle) ++ [xde; xad]
       = record ++ rest
       /\ save_lightmap_cache no_file triangle_atlas
            (compute_mesh_hash triangle)
          = (mk_CacheFile (Some record) true, true).
Proof.
  apply (load_then_save_roundtrip stack roomy _ true _ triangle triangle_atlas
           no_file triangle_atlas_loaded_with_trailing_bytes).
  reflexivity.
Defined.

(** The record of the consolidated triangle asked for under hash 0. *)
Lemma load_lightmap_cache_stale_ex :
  load_lightmap_cache stack roomy
    (mk_CacheFile
       (Some (layout triangle_atlas (compute_mesh_hash triangle) ++ []))
       true)
    0 triangle
  = (triangle, HashMismatch).
Proof.
  apply (load_lightmap_cache_stale stack roomy triangle_atlas
           (compute_mesh_hash triangle) 0 [] true triangle
           cacheable_triangle_atlas is_u64_triangle_hash).
  vm_compute. discriminate.
Defined.

(** Scenario E went through every check. *)
Lemma generate_lightmap_uvs_success_ex :
  m_has_lightmap_uvs triangle_atlas = true
  /\ m_lightmap_width triangle_atlas = 16
  /\ m_indices triangle_atlas = [3; 1; 2]
  /\ Forall2 same_identity (m_sub_meshes triangle) (m_sub_meshes triangle_atlas).
Proof.
  destruct (generate_lightmap_uvs_success Binary32.ops seam_packer triangle
              triangle_atlas triangle_atlas_generated)
    as (_ & _ & _ & _ & _ & Huv & Hw & _ & (xmesh & Hx & Hi) & Hid).
  split; [exact Huv|]. split; [exact Hw|]. split; [|exact Hid].
  rewrite Hi. cbn in Hx. injection Hx as <-. reflexivity.
Defined.

Lemma ops32_fit : float_ops_fit ops32.
Proof. intros a b. apply to_u32_range. Defined.

Lemma seam_atlas_fits :
  atlas_fits (xatlas_Generate seam_packer (mesh_decl_of triangle)).
Proof.
  unfold atlas_fits. cbn [xatlas_Generate seam_packer seam_atlas width height
                          meshes].
  split; [range_leaf|]. split; [range_leaf|].
  constructor; [|constructor]. cbn [indexArray vertexArray].
  split; [repeat constructor; range_leaf|].
  split; vm_compute; reflexivity.
Defined.

Lemma representable_triangle : representable triangle.
Proof. apply cacheable_representable. by_computation. Defined.

Lemma triangle_atlas_generated_ops32 :
  generate_lightmap_uvs ops32 seam_packer triangle
  = Some (triangle_atlas, true).
Proof. vm_compute. reflexivity. Defined.

(** The consolidated triangle can be cached. *)
Lemma generate_lightmap_uvs_cacheable_ex :
  generate_lightmap_uvs ops32 seam_packer triangle
  = Some (triangle_atlas, true)
  /\ cacheable triangle_atlas.
Proof.
  split; [exact triangle_atlas_generated_ops32|].
  exact (generate_lightmap_uvs_cacheable ops32 seam_packer triangle
           triangle_atlas triangle_atlas_generated_ops32
           representable_triangle ops32_fit seam_atlas_fits).
Defined.


(** Three files at the cache path of the triangle.  The record cut after
    470 bytes, in the extents of its one submesh, is a read error and
    counts as no file; a header naming 4294967295 vertices with nothing
    behind it makes the lookup throw and the load is abandoned; the record
    cut after 100 bytes, in the vertex array, leaves the construction
    without defined behaviour. *)
Lemma Mesh_ctor_by_cache_lookup_ex :
  load_lightmap_cache stack roomy cut_in_extents (compute_mesh_hash triangle)
    triangle
  = (triangle, ReadErrorData)
  /\ outcome_mesh
       (Mesh_ctor Binary32.ops seam_packer stack roomy triangle true
          cut_in_extents)
     = outcome_mesh
         (Mesh_ctor Binary32.ops seam_packer stack roomy triangle true no_file)
  /\ load_lightmap_cache stack roomy greedy_header (compute_mesh_hash triangle)
       triangle
     = (triangle, ThrewBadAlloc)
  /\ Mesh_ctor Binary32.ops seam_packer stack roomy triangle true greedy_header
     = LoadFailed
  /\ load_lightmap_cache stack roomy cut_in_vertices
       (compute_mesh_hash triangle) triangle
     = (triangle, UndefinedBehaviour)
  /\ Mesh_ctor Binary32.ops seam_packer stack roomy triangle true
       cut_in_vertices
     = Undefined.
Proof.
  assert (H1 : load_lightmap_cache stack roomy cut_in_extents
                 (compute_mesh_hash triangle) triangle
               = (triangle, ReadErrorData)) by (vm_compute; reflexivity).
  assert (H2 : load_lightmap_cache stack roomy greedy_header
                 (compute_mesh_hash triangle) triangle
               = (triangle, ThrewBadAlloc)) by (vm_compute; reflexivity).
  assert (H3 : load_lightmap_cache stack roomy cut_in_vertices
                 (compute_mesh_hash triangle) triangle
               = (triangle, UndefinedBehaviour)) by (vm_compute; reflexivity).
  destruct (Mesh_ctor_by_cache_lookup Binary32.ops seam_packer stack roomy
              triangle cut_in_extents) as (Hmiss & _ & _).
  destruct (Mesh_ctor_by_cache_lookup Binary32.ops seam_packer stack roomy
              triangle greedy_header) as (_ & Hthrow & _).
  destruct (Mesh_ctor_by_cache_lookup Binary32.ops seam_packer stack roomy
              triangle cut_in_vertices) as (_ & _ & Hub).
  rewrite H1 in Hmiss. rewrite H2 in Hthrow. rewrite H3 in Hub.
  cbn [snd] in Hmiss, Hthrow, Hub.
  split; [exact H1|]. split; [exact (Hmiss eq_refl)|].
  split; [exact H2|]. split; [exact (Hthrow eq_refl)|].
  split; [exact H3 | exact (Hub eq_refl)].
Defined.

(** Submesh 0 of the triangle given material 5 when one material is
    there already. *)
Lemma set_submesh_material_by_index_spec_ex :
  0 <= 0 /\ size [7%nat] < 2 ^ 32
  /\ let '(sub_meshes', materials', ok) :=
       set_submesh_material_by_index nat 0 5%nat (m_sub_meshes triangle)
         [7%nat] in
     (ok = false <-> size (m_sub_meshes triangle) <= 0)
     /\ (ok = true ->
         materials' = [7%nat; 5%nat]
         /\ exists sm',
              nth_error sub_meshes' 0 = Some sm'
              /\ mat_idx sm' = 1
              /\ material_of nat materials' sm' = Some 5%nat).
Proof.
  assert (H0 : 0 <= 0) by lia.
  assert (H1 : size [7%nat] < 2 ^ 32) by (vm_compute; reflexivity).
  split; [exact H0|]. split; [exact H1|].
  pose proof (set_submesh_material_by_index_spec nat 0 5%nat
                (m_sub_meshes triangle) [7%nat] H0 H1) as H.
  destruct (set_submesh_material_by_index nat 0 5%nat (m_sub_meshes triangle)
              [7%nat]) as [[sub_meshes' materials'] ok].
  destruct H as (Hiff & _ & Hyes).
  split; [exact Hiff|].
  intros Hok. destruct (Hyes Hok) as (Hm & _ & _ & sm & sm' & _ & Hn & Hs & Hmat).
  split; [exact Hm|].
  exists sm'. split; [exact Hn|]. split; [now rewrite Hs | exact Hmat].
Defined.

(** The triangle given material 5 as its only material. *)
Lemma set_global_material_spec_ex :
  size (@nil nat) < 2 ^ 32
  /\ let '(sub_meshes', materials') :=
       set_global_material nat 5%nat (m_sub_meshes triangle) [] in
     materials' = [5%nat]
     /\ Forall (fun sm' => material_of nat materials' sm' = Some 5%nat)
          sub_meshes'.
Proof.
  assert (H0 : size (@nil nat) < 2 ^ 32) by (vm_compute; reflexivity).
  split; [exact H0|].
  pose proof (set_global_material_spec nat 5%nat (m_sub_meshes triangle) []
                H0) as H.
  destruct (set_global_material nat 5%nat (m_sub_meshes triangle) [])
    as [sub_meshes' materials'].
  destruct H as (Hm & _ & Hall). split; [exact Hm | exact Hall].
Defined.

Lemma two_mesh_scene_fits : scene_fits two_mesh_scene.
Proof.
  unfold scene_fits. split; [discriminate|]. split.
  - repeat constructor; cbn; lia.
  - split; vm_compute; reflexivity.
Defined.

Lemma two_mesh_scene_loaded :
  load_from_disk_ranges two_mesh_scene
  = Some (two_mesh_sub_meshes, [0; 1; 2; 3; 4; 5; 3; 5; 6], 7).
Proof. vm_compute. reflexivity. Defined.

(** A triangle and a quad: the indices of the quad are shifted by the
    three vertices of the triangle. *)
Lemma load_from_disk_index_buffer_ex :
  exists sub_meshes m_indices vertex_count,
    load_from_disk_ranges two_mesh_scene
    = Some (sub_meshes, m_indices, vertex_count)
    /\ m_indices = [0; 1; 2; 3; 4; 5; 3; 5; 6]
    /\ vertex_count = 7
    /\ Forall (fun i => 0 <= i < vertex_count) m_indices.
Proof.
  destruct (load_from_disk_index_buffer two_mesh_scene two_mesh_scene_fits)
    as (sub_meshes & m_indices & vertex_count & Hload & Hi & _ & Hv & Hr).
  exists sub_meshes, m_indices, vertex_count.
  split; [exact Hload|]. split; [exact Hi|]. split; [exact Hv | exact Hr].
Defined.

(** The quad is submesh 1: six indices from place 3 on. *)
Lemma load_from_disk_sub_mesh_ranges_ex :
  length two_mesh_sub_meshes = 2%nat
  /\ index_total two_mesh_sub_meshes = 9
  /\ exists sm,
       nth_error two_mesh_sub_meshes 1 = Some sm
       /\ index_count sm = 6 /\ base_index sm = 3 /\ base_vertex sm = 0
       /\ vertex_count sm = 4.
Proof.
  destruct (load_from_disk_sub_mesh_ranges two_mesh_scene two_mesh_sub_meshes
              _ _ two_mesh_scene_fits two_mesh_scene_loaded)
    as (Hlen & Htotal & Hnth).
  split; [exact Hlen|]. split; [exact Htotal|].
  eexists. split; [apply (Hnth 1%nat); reflexivity|].
  repeat split.
Defined.

(** The range of the quad holds its two faces over the vertices 3..6. *)
Lemma load_from_disk_sub_mesh_slice_ex :
  exists sm,
    nth_error two_mesh_sub_meshes 1 = Some sm
    /\ index_range [0; 1; 2; 3; 4; 5; 3; 5; 6] sm = [3; 4; 5; 3; 5; 6].
Proof.
  eexists. split; [reflexivity|].
  pose proof (fun am H =>
                load_from_disk_sub_mesh_slice two_mesh_scene
                  two_mesh_sub_meshes _ 7 1%nat am _ two_mesh_scene_fits
                  two_mesh_scene_loaded H eq_refl) as Hslice.
  rewrite (Hslice _ eq_refl). reflexivity.
Defined.

(** Rebasing the submeshes of the two-mesh scene for 9 vertices. *)
Lemma rebase_after_load_from_disk_ex :
  rebase_sub_meshes two_mesh_sub_meshes 0 9
  = map (with_vertex_count (to_u32 9)) two_mesh_sub_meshes.
Proof.
  exact (rebase_after_load_from_disk two_mesh_scene two_mesh_sub_meshes
           _ _ 9 two_mesh_scene_fits two_mesh_scene_loaded).
Defined.

(** Five meshes over three materials: 7, 2, 7, 9, 2. *)
Lemma load_from_disk_materials_spec_ex :
  size [7; 2; 7; 9; 2] < 2 ^ 32
  /\ load_from_disk_materials [7; 2; 7; 9; 2] = ([0; 1; 0; 2; 1], 3)
  /\ exists distinct,
       NoDup distinct
       /\ (forall k, In k distinct <-> In k [7; 2; 7; 9; 2])
       /\ 3 = size distinct.
Proof.
  assert (H0 : size [7; 2; 7; 9; 2] < 2 ^ 32) by (vm_compute; reflexivity).
  split; [exact H0|]. split; [reflexivity|].
  pose proof (load_from_disk_materials_spec [7; 2; 7; 9; 2] H0) as H.
  change (load_from_disk_materials [7; 2; 7; 9; 2])
    with ([0; 1; 0; 2; 1], 3) in H.
  cbv beta iota in H. destruct H as (_ & _ & _ & Hd). exact Hd.
Defined.

(** The mesh of [/models/a.obj] stays a hit while another mesh is loaded
    and let go. *)
Lemma load_hits_while_held_ex :
  Registry.load Registry.initial model_a true false true
  = (0%nat, snd (Registry.load Registry.initial model_a true false true))
  /\ Registry.keeps 0 other_events
  /\ fst (Registry.load
            (Registry.run
               (snd (Registry.load Registry.initial model_a true false
                       true))
               other_events)
            model_a false true true)
     = 0%nat.
Proof.
  assert (H0 : Registry.load Registry.initial model_a true false true
               = (0%nat,
                  snd (Registry.load Registry.initial model_a true
                         false true)))
    by reflexivity.
  assert (H1 : Registry.keeps 0 other_events).
  { intros [H | [H | []]]; discriminate H. }
  split; [exact H0|]. split; [exact H1|].
  now rewrite (load_hits_while_held _ _ _ _ _ _ _ other_events false true
                 H0 H1).
Defined.

(** No prefix of the record of the consolidated triangle is taken for the
    record. *)
Lemma load_lightmap_cache_truncated_never_adopts_ex :
  representable triangle_atlas
  /\ is_u64 (compute_mesh_hash triangle)
  /\ exists record,
       content (mk_CacheFile
                  (Some (layout triangle_atlas (compute_mesh_hash triangle)))
                  true)
       = Some record
       /\ load_ok (snd (load_lightmap_cache stack roomy
                          (mk_CacheFile (Some (firstn 470 record)) true)
                          (compute_mesh_hash triangle) triangle))
          = false
       /\ load_lightmap_cache stack roomy
            (mk_CacheFile (Some (firstn 20 record)) true)
            (compute_mesh_hash triangle) triangle
          = (triangle, ReadErrorHeader).
Proof.
  split; [exact representable_triangle_atlas|].
  split; [exact is_u64_triangle_hash|].
  destruct (load_lightmap_cache_truncated_never_adopts stack roomy
              triangle_atlas (compute_mesh_hash triangle) no_file _
              representable_triangle_atlas is_u64_triangle_hash
              triangle_atlas_saved) as (record & Hcontent & Hcut).
  exists record. split; [exact Hcontent|].
  assert (Hlen : length record = 483%nat).
  { cbn [content] in Hcontent. injection Hcontent as <-.
    vm_compute. reflexivity. }
  split.
  - apply (Hcut 470%nat true triangle). lia.
  - destruct (Hcut 20%nat true triangle ltac:(lia)) as (_ & Hm & Hs & _).
    specialize (Hs ltac:(lia)).
    apply injective_projections; [|exact Hs].
    apply Hm. rewrite Hs. discriminate.
Defined.

(** Scenario C and its neighbours: the record of the consolidated
    triangle cut after 100 bytes. *)
Lemma load_lightmap_cache_truncated_before_name_ex :
  m_sub_meshes triangle_atlas <> []
  /\ 36 <= Z.of_nat 100
     < 36 + 96 * size (m_vertices triangle_atlas)
       + 4 * size (m_indices triangle_atlas) + 4
  /\ load_lightmap_cache stack roomy
       (mk_CacheFile
          (Some (firstn 100 (layout triangle_atlas (compute_mesh_hash triangle))))
          true)
       (compute_mesh_hash triangle) triangle
     = (triangle, UndefinedBehaviour).
Proof.
  assert (H0 : m_sub_meshes triangle_atlas <> []) by (vm_compute; discriminate).
  assert (H1 : 36 <= Z.of_nat 100
               < 36 + 96 * size (m_vertices triangle_atlas)
                 + 4 * size (m_indices triangle_atlas) + 4)
    by (split; vm_compute; [discriminate | reflexivity]).
  split; [exact H0|]. split; [exact H1|].
  apply (load_lightmap_cache_truncated_before_name stack roomy triangle_atlas
           (compute_mesh_hash triangle) 100 true triangle
           cacheable_triangle_atlas is_u64_triangle_hash H0);
    [reflexivity | reflexivity | reflexivity | exact H1].
Defined.
